(** * ProjetGo/Vehicules.go: query construction, response decoding, export

    A shallow embedding of [fetchVehicles], [saveVehiclesToJSON],
    [saveVehiclesToCSV] and [main].  Go strings are byte strings
    ([string], one [ascii] per byte), Go [int] is a 64-bit signed integer
    carried in [Z], [float64] is an IEEE binary64 value ([spec_float]),
    and the dynamically typed documents that [json.Unmarshal] stores in an
    [interface{}] are the values of [json]. *)

From Stdlib Require Import ZArith NArith String Ascii List Lia Bool.
From Stdlib Require Import QArith Qround.
From Stdlib Require Import Floats.SpecFloat.
From Stdlib Require Import Decimal DecimalString DecimalZ.
From stdpp Require Import base option list gmap strings.

#[local] Set Warnings "-register-all".
#[local] Open Scope string_scope.
#[local] Open Scope list_scope.
#[local] Open Scope Z_scope.
#[local] Arguments String.append !_ _ / : simpl nomatch.

(** ** Go strings *)

Module GoString.

(** [s == ""]. *)
Definition is_empty (s : string) : bool :=
  match s with EmptyString => true | String _ _ => false end.

(** [strings.ContainsRune(s, c)] for a one-byte [c]. *)
Fixpoint contains_byte (c : ascii) (s : string) : bool :=
  match s with
  | EmptyString => false
  | String d s' => if Ascii.eqb d c then true else contains_byte c s'
  end.

(** [strings.HasPrefix(s, p)]. *)
Fixpoint has_prefix (p s : string) : bool :=
  match p, s with
  | EmptyString, _ => true
  | String a p', String b s' => if Ascii.eqb a b then has_prefix p' s' else false
  | String _ _, EmptyString => false
  end.

(** [strings.Contains(s, p)]. *)
Fixpoint contains (p s : string) : bool :=
  if has_prefix p s then true
  else match s with
       | EmptyString => false
       | String _ s' => contains p s'
       end.

(** [strings.Split(s, string(sep))]: the pieces of [s] between the
    occurrences of the byte [sep]; never empty. *)
Fixpoint split (sep : ascii) (s : string) : list string :=
  match s with
  | EmptyString => [EmptyString]
  | String c s' =>
      if Ascii.eqb c sep then EmptyString :: split sep s'
      else match split sep s' with
           | piece :: pieces => String c piece :: pieces
           | [] => [String c EmptyString]
           end
  end.

(** What follows the first occurrence of [sep] in [s] (empty when there is
    none). *)
Fixpoint after_first (sep : ascii) (s : string) : string :=
  match s with
  | EmptyString => EmptyString
  | String c s' => if Ascii.eqb c sep then s' else after_first sep s'
  end.

End GoString.

(** ** Go [int] and its decimal rendering *)

Module GoInt.

Definition min_int : Z := - 2 ^ 63.
Definition max_int : Z := 2 ^ 63 - 1.

(** The values a Go [int] holds on a 64-bit platform. *)
Definition in_range (n : Z) : Prop := min_int <= n <= max_int.

Definition in_rangeb (n : Z) : bool := (min_int <=? n) && (n <=? max_int).

(** [fmt.Sprintf("%d", n)] and [strconv.Itoa(n)]: decimal digits, a leading
    [-] for negative numbers, no leading zeros. *)
Definition Itoa (n : Z) : string := NilZero.string_of_int (Z.to_int n).

(** [strconv.Atoi]: an optional sign and decimal digits, refused when empty,
    malformed or outside the range of [int]. *)
Definition Atoi (s : string) : option Z :=
  let '(negative, digits) :=
    match s with
    | String "+"%char s' => (false, s')
    | String "-"%char s' => (true, s')
    | _ => (false, s)
    end in
  match NilZero.uint_of_string digits with
  | Some d =>
      let n := if negative then - Z.of_uint d else Z.of_uint d in
      if in_rangeb n then Some n else None
  | None => None
  end.

End GoInt.

(** ** QueryBuilder: the first part of [fetchVehicles] *)

Module Query.
Import GoString GoInt.

(** The spec's FilterCriteria: the six parameters of [fetchVehicles]. *)
Record FilterCriteria := {
  make : string;
  model : string;
  sortField : string;
  year : Z;
  cylinders : Z;
  resultLimit : Z;
}.

Definition baseURL : string :=
  "https://public.opendatasoft.com/api/records/1.0/search/?dataset=all-vehicles-model&q=".

(** Lines 25-54 of [fetchVehicles]: [apiURL] after the six conditional
    [apiURL += ...] statements. *)
Definition apiURL (make model sort : string) (year cylinders resultNb : Z)
  : string :=
  let apiURL := baseURL in
  let apiURL :=
    if negb (resultNb =? 0) then apiURL +:+ "&rows=" +:+ Itoa resultNb
    else apiURL +:+ "&rows=10" in
  let apiURL :=
    if negb (is_empty sort) then apiURL +:+ "&sort=" +:+ sort else apiURL in
  let apiURL :=
    if negb (is_empty make) then apiURL +:+ "&refine.make=" +:+ make
    else apiURL in
  let apiURL :=
    if negb (is_empty model) then apiURL +:+ "&refine.model=" +:+ model
    else apiURL in
  let apiURL :=
    if negb (year =? 0) then apiURL +:+ "&refine.year=" +:+ Itoa year
    else apiURL in
  let apiURL :=
    if negb (cylinders =? 0)
    then apiURL +:+ "&refine.cylinders=" +:+ Itoa cylinders
    else apiURL in
  apiURL.

Definition QueryBuilder (c : FilterCriteria) : string :=
  apiURL (make c) (model c) (sortField c) (year c) (cylinders c)
    (resultLimit c).

(** How the receiving side reads a URL: the query is what follows the first
    [?], and its clauses are the pieces between the [&] separators. *)
Definition query_clauses (url : string) : list string :=
  split "&"%char (after_first "?"%char url).

(** The URL carries a clause for [key]: some clause starts with [key=]. *)
Definition has_clause (key url : string) : bool :=
  existsb (has_prefix (key +:+ "=")) (query_clauses url).

(** A clause that is present only when [present] holds. *)
Definition optional (present : bool) (clause : string) : list string :=
  if present then [clause] else [].

(** The row limit sent to the API. *)
Definition rows_value (c : FilterCriteria) : Z :=
  if resultLimit c =? 0 then 10 else resultLimit c.

(** The clauses the spec lists, in its order: rows, sort, make, model, year,
    cylinders, each optional one present when its field is set. *)
Definition expected_clauses (c : FilterCriteria) : list string :=
  ["rows=" +:+ Itoa (rows_value c)]
  ++ optional (negb (is_empty (sortField c))) ("sort=" +:+ sortField c)
  ++ optional (negb (is_empty (make c))) ("refine.make=" +:+ make c)
  ++ optional (negb (is_empty (model c))) ("refine.model=" +:+ model c)
  ++ optional (negb (year c =? 0)) ("refine.year=" +:+ Itoa (year c))
  ++ optional (negb (cylinders c =? 0))
       ("refine.cylinders=" +:+ Itoa (cylinders c)).

(** The clauses [cs] written one after the other, each behind its [&]. *)
Fixpoint join_clauses (cs : list string) : string :=
  match cs with
  | [] => ""
  | c :: cs' => "&" +:+ c +:+ join_clauses cs'
  end.

(** Each optional clause is in the URL exactly when its field is set. *)
Definition clause_presence (c : FilterCriteria) : Prop :=
  let url := QueryBuilder c in
  (has_clause "sort" url = true <-> sortField c <> "")
  /\ (has_clause "refine.make" url = true <-> make c <> "")
  /\ (has_clause "refine.model" url = true <-> model c <> "")
  /\ (has_clause "refine.year" url = true <-> year c <> 0)
  /\ (has_clause "refine.cylinders" url = true <-> cylinders c <> 0).

(** A make that carries the text of a model clause, and no model. *)
Definition embedded_clause_criteria : FilterCriteria :=
  {| make := "Audi&refine.model=A4"; model := ""; sortField := "";
     year := 0; cylinders := 0; resultLimit := 0 |}.

(** The spec's end-to-end scenario. *)
Definition honda_criteria : FilterCriteria :=
  {| make := "Honda"; model := ""; sortField := "year";
     year := 2015; cylinders := 4; resultLimit := 5 |}.

(** A free-text field that cannot be mistaken for a clause boundary. *)
Definition no_separator (s : string) : Prop :=
  contains_byte "&"%char s = false.

End Query.

(** ** [float64] and the conversion [int(x)] *)

Module Float64.
Import GoInt.

(** An IEEE 754 binary64 value: a signed zero, an infinity, a NaN, or
    [(-1)^s * m * 2^e]. *)
Definition float64 : Type := spec_float.

(** The binary64 nearest to [m * 2^e]. *)
Definition of_scaled (m e : Z) : float64 := binary_normalize 53 1024 m e false.

Definition of_Z (n : Z) : float64 := of_scaled n 0.

(** The integer part of a finite value, the fraction discarded. *)
Definition truncate (x : float64) : option Z :=
  match x with
  | S754_zero _ => Some 0
  | S754_finite s m e =>
      let mantissa := if s then Z.neg m else Z.pos m in
      Some (if 0 <=? e then mantissa * 2 ^ e else mantissa ÷ 2 ^ (- e))
  | S754_infinity _ | S754_nan => None
  end.

(** The conversion [int(x)] of a [float64]: the fraction is discarded; when
    the result does not fit [int] (or [x] is an infinity or a NaN) the
    language leaves the value to the implementation, and the amd64
    instruction behind it (CVTTSD2SQ) gives the smallest [int]. *)
Definition to_int (x : float64) : Z :=
  match truncate x with
  | Some n => if in_rangeb n then n else min_int
  | None => min_int
  end.

(** The rational a finite value stands for. *)
Definition value (x : float64) : option Q :=
  match x with
  | S754_zero _ => Some 0%Q
  | S754_finite s m e =>
      let magnitude :=
        match e with
        | Z.neg k => (Z.pos m # 2 ^ k)%Q
        | _ => inject_Z (Z.pos m * 2 ^ e)
        end in
      Some (if s then Qopp magnitude else magnitude)
  | S754_infinity _ | S754_nan => None
  end.

(** Rounding a rational toward zero. *)
Definition round_toward_zero (q : Q) : Z :=
  if Qle_bool 0 q then Qfloor q else Qceiling q.

End Float64.

(** ** Decoded JSON documents *)

Module Json.
Import Float64.

(** What [json.Unmarshal] stores in an [interface{}]: [nil], [bool],
    [float64], [string], [[]interface{}] or [map[string]interface{}]. *)
Inductive json : Type :=
| JNull
| JBool (b : bool)
| JNumber (x : float64)
| JString (s : string)
| JArray (elements : list json)
| JObject (members : gmap string json).

(** A response body, by what [json.Unmarshal] makes of it: bytes that are
    not a JSON text (or a text nested deeper than the decoder goes); a
    JSON text that holds a value the decoder cannot store, a number outside
    the range of [float64]; or a JSON text the decoder stores in full,
    with the value stored for it. *)
Inductive payload : Type :=
| Unparsable
| Refused
| Document (v : json).

(** [v, ok := x.(string)] on the result of a map lookup; a missing key
    looks up as [nil]. *)
Definition assert_string (x : option json) : string * bool :=
  match x with
  | Some (JString s) => (s, true)
  | _ => ("", false)
  end.

(** [v, ok := x.(float64)]. *)
Definition assert_float64 (x : option json) : float64 * bool :=
  match x with
  | Some (JNumber f) => (f, true)
  | _ => (S754_zero false, false)
  end.

(** [v, ok := x.(map[string]interface{})]; [None] is the [nil] map. *)
Definition assert_map (x : option json) : option (gmap string json) * bool :=
  match x with
  | Some (JObject m) => (Some m, true)
  | _ => (None, false)
  end.

(** [v, ok := x.([]interface{})]. *)
Definition assert_slice (x : option json) : list json * bool :=
  match x with
  | Some (JArray l) => (l, true)
  | _ => ([], false)
  end.

(** [json.Unmarshal(body, &result)] for [result map[string]interface{}]:
    a syntax error, a value that cannot be stored or a document that is
    neither an object nor [null] is an error; [null] leaves [result] the
    [nil] map, which looks up like the empty one. *)
Definition Unmarshal_map (body : payload) : option (gmap string json) :=
  match body with
  | Unparsable => None
  | Refused => None
  | Document (JObject m) => Some m
  | Document JNull => Some ∅
  | Document _ => None
  end.

End Json.

(** ** ResponseDecoder: lines 74-107 of [fetchVehicles] *)

Module Decoder.
Import GoInt Float64 Json.

Record Vehicle := {
  Make : string;
  Model : string;
  Year : string;
  Cylinders : Z;
}.

(** The errors the program builds with [fmt.Errorf], by the statement
    that builds them. *)
Inductive error : Type :=
| FetchFailed (detail : string)   (* failed to fetch data from external API *)
| ApiStatus (code : Z)            (* external API returned an error *)
| ReadBodyFailed (detail : string) (* failed to read response body *)
| ParseFailed                     (* failed to parse JSON *)
| InvalidStructure                (* invalid JSON structure from API *)
| CreateJSONFailed                (* failed to create JSON file *)
| WriteJSONFailed                 (* failed to write JSON to file *)
| CreateCSVFailed                 (* failed to create CSV file *)
| WriteHeaderFailed               (* failed to write header to CSV *)
| WriteRowFailed.                 (* failed to write row to CSV *)

(** The spec's error taxonomy. *)
Inductive spec_error : Type :=
| Transport
| RemoteStatus (code : Z)
| MalformedPayload
| UnexpectedShape
| CannotCreateDestination
| WriteFailure.

Definition classify (e : error) : spec_error :=
  match e with
  | FetchFailed _ | ReadBodyFailed _ => Transport
  | ApiStatus code => RemoteStatus code
  | ParseFailed => MalformedPayload
  | InvalidStructure => UnexpectedShape
  | CreateJSONFailed | CreateCSVFailed => CannotCreateDestination
  | WriteJSONFailed | WriteHeaderFailed | WriteRowFailed => WriteFailure
  end.

(** How a call ends: a value with a [nil] error, an error, or a run-time
    panic that unwinds the goroutine. *)
Inductive outcome (A : Type) : Type :=
| Return (a : A)
| Fail (e : error)
| Panic.
Arguments Return {A} a.
Arguments Fail {A} e.
Arguments Panic {A}.

(** Lines 92-104: the record built from a [fields] mapping. *)
Definition vehicle_of_fields (data : gmap string json) : Vehicle :=
  let '(make, _) := assert_string (data !! "make") in
  let '(model, _) := assert_string (data !! "model") in
  let '(year, _) := assert_string (data !! "year") in
  let '(cylinders, _) := assert_float64 (data !! "cylinders") in
  let cylindersInt := to_int cylinders in
  {| Make := make; Model := model; Year := year; Cylinders := cylindersInt |}.

(** Lines 87-105: the loop over [records], [vehicles] being the slice
    appended to.  The assertion [record.(map[string]interface{})] has no
    [ok] result: it panics on an element that is not an object.  The
    assertion on [fields] has one: the element is skipped. *)
Fixpoint decode_records (records : list json) (vehicles : list Vehicle)
  : outcome (list Vehicle) :=
  match records with
  | [] => Return vehicles
  | record :: rest =>
      match record with
      | JObject wrapper =>
          match assert_map (wrapper !! "fields") with
          | (Some data, true) =>
              decode_records rest (vehicles ++ [vehicle_of_fields data])
          | _ => decode_records rest vehicles
          end
      | _ => Panic
      end
  end.

(** Lines 74-107. *)
Definition decode (body : payload) : outcome (list Vehicle) :=
  match Unmarshal_map body with
  | None => Fail ParseFailed
  | Some result =>
      match assert_slice (result !! "records") with
      | (records, true) => decode_records records []
      | (_, false) => Fail InvalidStructure
      end
  end.

(** The element's [fields] mapping, when it has a usable one. *)
Definition usable_fields (record : json) : option (gmap string json) :=
  match record with
  | JObject wrapper =>
      match wrapper !! "fields" with
      | Some (JObject data) => Some data
      | _ => None
      end
  | _ => None
  end.

Definition is_object (v : json) : bool :=
  match v with JObject _ => true | _ => false end.

(** A document [json.Unmarshal] accepts into a map: an object or [null]. *)
Definition is_mapping_or_null (v : json) : bool :=
  match v with JObject _ | JNull => true | _ => false end.

(** The payloads of the spec's decoding scenarios. *)
Definition toyota_fields : gmap string json :=
  {[ "make" := JString "Toyota"; "model" := JString "Corolla";
     "year" := JString "2020"; "cylinders" := JNumber (of_Z 4) ]}.

Definition toyota : Vehicle :=
  {| Make := "Toyota"; Model := "Corolla"; Year := "2020"; Cylinders := 4 |}.

(** A complete element, then one with no [fields] member. *)
Definition one_malformed_body : payload :=
  Document (JObject {[ "records" :=
    JArray [ JObject {[ "fields" := JObject toyota_fields ]};
             JObject {[ "recordid" := JString "b2" ]} ] ]}).

(** A complete element, then one that is not an object. *)
Definition non_object_element_body : payload :=
  Document (JObject {[ "records" :=
    JArray [ JObject {[ "fields" := JObject toyota_fields ]};
             JNumber (of_Z 42) ] ]}).

(** No [records] member. *)
Definition no_records_body : payload :=
  Document (JObject {[ "error" := JString "unknown dataset" ]}).

(** A document whose top level is a sequence. *)
Definition top_level_array_body : payload :=
  Document (JArray [ JObject {[ "fields" := JObject toyota_fields ]} ]).

(** A [fields] mapping whose cylinder count is 10^19. *)
Definition huge_cylinders_fields : gmap string json :=
  {[ "make" := JString "Toyota"; "cylinders" := JNumber (of_Z (10 ^ 19)) ]}.

End Decoder.


(** ** Files and the console *)

Module OS.

(** The calls on files the program makes. *)
Inductive syscall : Type :=
| SysCreate (name : string)
| SysWrite (name : string) (data : string).

(** The file system as the program meets it: the names [os.Create] is
    refused (no permission, no such directory), the number of bytes each
    file accepts before a write to it fails (no entry: no limit), the
    contents of the files, the calls made so far, and for each file the
    text the system gives for the error of a call it refuses on that file
    ([permission denied], [no space left on device], ...). *)
Record FileSystem := {
  denied : gset string;
  quota : gmap string nat;
  disk : gmap string string;
  calls : list syscall;
  strerror : string -> string;
}.

Record World := {
  fs : FileSystem;
  stdout : list string;
}.

Definition line_feed : string := String (ascii_of_N 10) "".

(** [fmt.Print]: one more piece of console output. *)
Definition print (text : string) (w : World) : World :=
  {| fs := fs w; stdout := stdout w ++ [text] |}.

(** [fmt.Println], and [fmt.Printf] with a format that ends in a line
    feed. *)
Definition println (text : string) (w : World) : World :=
  print (text +:+ line_feed) w.

Definition with_fs (f : FileSystem) (w : World) : World :=
  {| fs := f; stdout := stdout w |}.

Definition content (name : string) (f : FileSystem) : string :=
  default "" (disk f !! name).

(** [os.Create(name)]: the file is created, or emptied when it exists;
    [false] is the error. *)
Definition Create (name : string) (f : FileSystem) : bool * FileSystem :=
  if decide (name ∈ denied f)
  then (false, {| denied := denied f; quota := quota f; disk := disk f;
                  calls := calls f ++ [SysCreate name];
                  strerror := strerror f |})
  else (true, {| denied := denied f; quota := quota f;
                 disk := <[name := ""]> (disk f);
                 calls := calls f ++ [SysCreate name];
                 strerror := strerror f |}).

(** The bytes the file still accepts, of [wanted]. *)
Definition room (name : string) (f : FileSystem) (wanted : nat) : nat :=
  match quota f !! name with
  | None => wanted
  | Some limit => Nat.min wanted (limit - String.length (content name f))
  end.

(** [file.Write(data)]: the number of bytes written, and the file system
    after it; the write is in error when the number is short of
    [len(data)]. *)
Definition Write (name data : string) (f : FileSystem) : nat * FileSystem :=
  let n := room name f (String.length data) in
  (n, {| denied := denied f; quota := quota f;
         disk := <[name := content name f +:+ substring 0 n data]> (disk f);
         calls := calls f ++ [SysWrite name data];
         strerror := strerror f |}).

(** The file can be created and accepts any number of bytes. *)
Definition writable (name : string) (f : FileSystem) : Prop :=
  (name ∉ denied f) /\ quota f !! name = None.

(** [f'] comes after [f]: the calls of [f], then more. *)
Definition extends (f f' : FileSystem) : Prop :=
  exists more, calls f' = calls f ++ more.

End OS.

(** ** Fetcher: lines 56-72 of [fetchVehicles], and the whole function *)

Module Fetcher.
Import GoInt Query Json Decoder OS.

(** What reading [resp.Body] to its end gives. *)
Inductive body_stream : Type :=
| ReadFailure (detail : string)
| Complete (body : payload).

(** What [http.Get] gives: a transport error, or a response with its
    status code and body. *)
Inductive http_reply : Type :=
| TransportFailure (detail : string)
| Response (StatusCode : Z) (Body : body_stream).

Definition StatusOK : Z := 200.

(** Lines 58-72: the body of the response, or the error returned. *)
Definition fetch (reply : http_reply) : outcome payload :=
  match reply with
  | TransportFailure detail => Fail (FetchFailed detail)
  | Response StatusCode Body =>
      if negb (StatusCode =? StatusOK) then Fail (ApiStatus StatusCode)
      else match Body with
           | ReadFailure detail => Fail (ReadBodyFailed detail)
           | Complete body => Return body
           end
  end.

(** [fetchVehicles], the network being the function [get] from URLs to
    replies. *)
Definition fetchVehicles (get : string -> http_reply)
    (make model sort : string) (year cylinders resultNb : Z) (w : World)
  : outcome (list Vehicle) * World :=
  let w := print ("ANNEE : " +:+ Itoa year +:+ "CYLINDER : " +:+ Itoa cylinders)
             w in
  let apiURL := apiURL make model sort year cylinders resultNb in
  let w := println ("URL fini " +:+ apiURL) w in
  match fetch (get apiURL) with
  | Return body => (decode body, w)
  | Fail e => (Fail e, w)
  | Panic => (Panic, w)
  end.

(** The status codes HTTP calls successful: the class 2xx. *)
Definition http_success (code : Z) : bool := (200 <=? code) && (code <? 300).

End Fetcher.

(** ** [bufio.Writer] over a file, as [csv.NewWriter] makes it *)

Module Bufio.
Import OS.

(** [bufio]'s default buffer size. *)
Definition defaultBufSize : nat := 4096.

(** The writer and the file system under it: the bytes in the buffer, and
    whether an earlier write to the file failed (the error is kept and
    returned by every later call). *)
Record Writer := {
  buf : string;
  err : bool;
  under : FileSystem;
}.

(** A call on the writer: [true] is the [nil] error. *)
Definition call : Type := Writer -> bool * Writer.

Definition Available (b : Writer) : nat :=
  defaultBufSize - String.length (buf b).

Definition Buffered (b : Writer) : nat := String.length (buf b).

(** What is left of [s] after its first [n] bytes. *)
Definition drop (n : nat) (s : string) : string :=
  substring n (String.length s - n) s.

(** [b.Flush()]. *)
Definition Flush (name : string) : call := fun b =>
  if err b then (false, b)
  else if Nat.eqb (Buffered b) 0 then (true, b)
  else
    let '(n, f) := Write name (buf b) (under b) in
    if Nat.ltb n (Buffered b)
    then (false, {| buf := drop n (buf b); err := true; under := f |})
    else (true, {| buf := ""; err := false; under := f |}).

(** [b.WriteByte(c)]; [b.WriteRune] of a rune below 0x80 is the same. *)
Definition WriteByte (name : string) (c : ascii) : call := fun b =>
  if err b then (false, b)
  else
    let '(flushed, b) :=
      if Nat.leb (Available b) 0 then Flush name b else (true, b) in
    if flushed
    then (true, {| buf := buf b +:+ String c ""; err := err b;
                   under := under b |})
    else (false, b).

(** The condition of the loop of [b.WriteString(s)]:
    [len(s) > b.Available() && b.err == nil]. *)
Definition loop_condition (s : string) (b : Writer) : bool :=
  Nat.ltb (Available b) (String.length s) && negb (err b).

(** One turn of that loop, when its condition holds: with an empty buffer
    [s] goes to the file in one write, otherwise the buffer is filled and
    flushed.  The result is what is left of [s]. *)
Definition WriteString_turn (name : string) (s : string) (b : Writer)
  : string * Writer :=
  if loop_condition s b then
    if Nat.eqb (Buffered b) 0 then
      let '(n, f) := Write name s (under b) in
      (drop n s,
       {| buf := buf b; err := Nat.ltb n (String.length s); under := f |})
    else
      let n := Available b in
      let '(_, b') :=
        Flush name {| buf := buf b +:+ substring 0 n s; err := err b;
                      under := under b |} in
      (drop n s, b')
  else (s, b).

(** [b.WriteString(s)].  The loop takes at most two turns: the first
    empties the buffer, the second writes what is left directly when it
    still does not fit. *)
Definition WriteString (name : string) (s : string) : call := fun b =>
  let '(s, b) := WriteString_turn name s b in
  let '(s, b) := WriteString_turn name s b in
  if err b then (false, b)
  else (true, {| buf := buf b +:+ s; err := err b; under := under b |}).

(** Calls in a row, the first error returned at once. *)
Definition and_then (first next : call) : call := fun b =>
  let '(ok, b) := first b in
  if ok then next b else (false, b).

Definition skip : call := fun b => (true, b).

(** The bytes given to the writer so far that the file holds or the buffer
    still keeps. *)
Definition stream (name : string) (b : Writer) : string :=
  content name (under b) +:+ buf b.

(** No error is kept, and the file accepts any number of bytes. *)
Definition steady (name : string) (b : Writer) : Prop :=
  err b = false /\ quota (under b) !! name = None.

(** Nothing but the file [name] and the list of calls differs. *)
Definition same_elsewhere (name : string) (f f' : FileSystem) : Prop :=
  denied f' = denied f /\ quota f' = quota f
  /\ forall other, other <> name -> disk f' !! other = disk f !! other.

(** On a steady writer the call has no error, leaves the writer steady and
    adds [data] to its stream. *)
Definition emits (name data : string) (op : call) : Prop :=
  forall b, steady name b ->
  exists b', op b = (true, b') /\ steady name b'
             /\ stream name b' = stream name b +:+ data
             /\ same_elsewhere name (under b) (under b').

(** While the buffer has room for [data] the call only adds [data] to it:
    no error, and nothing written to the file. *)
Definition buffers (data : string) (op : call) : Prop :=
  forall b, err b = false ->
  (String.length (buf b) + String.length data <= defaultBufSize)%nat ->
  op b = (true, {| buf := buf b +:+ data; err := false; under := under b |}).

(** The call only adds to the list of system calls. *)
Definition grows (op : call) : Prop :=
  forall b, extends (under b) (under (snd (op b))).

End Bufio.

(** ** [encoding/csv]: the writer *)

Module Csv.
Import GoString OS Bufio.

Definition code (c : ascii) : N := N_of_ascii c.

Definition bytes (codes : list N) : string :=
  fold_right (fun n s => String (ascii_of_N n) s) "" codes.

Definition quote : ascii := ascii_of_N 34.
Definition comma : ascii := ","%char.
Definition LF : ascii := ascii_of_N 10.
Definition CR : ascii := ascii_of_N 13.

(** The bytes that force quotes: line feed, carriage return, quote and the
    delimiter. *)
Definition is_special (c : ascii) : bool :=
  Ascii.eqb c LF || Ascii.eqb c CR || Ascii.eqb c quote || Ascii.eqb c comma.

(** [unicode.IsSpace] of the first rune of [field], read off its UTF-8
    bytes: the white space of ASCII, U+0085, U+00A0, U+1680, U+2000 to
    U+200A, U+2028, U+2029, U+202F, U+205F and U+3000. *)
Definition starts_with_space (field : string) : bool :=
  match field with
  | EmptyString => false
  | String c _ =>
      if (code c <? 128)%N
      then ((9 <=? code c) && (code c <=? 13))%N || (code c =? 32)%N
      else
        has_prefix (bytes [194; 133]%N) field
        || has_prefix (bytes [194; 160]%N) field
        || has_prefix (bytes [225; 154; 128]%N) field
        || match field with
           | String _ (String c1 (String c2 _)) =>
               (code c =? 226)%N && (code c1 =? 128)%N
               && ((128 <=? code c2) && (code c2 <=? 138))%N
           | _ => false
           end
        || has_prefix (bytes [226; 128; 168]%N) field
        || has_prefix (bytes [226; 128; 169]%N) field
        || has_prefix (bytes [226; 128; 175]%N) field
        || has_prefix (bytes [226; 129; 159]%N) field
        || has_prefix (bytes [227; 128; 128]%N) field
  end.

(** [w.fieldNeedsQuotes(field)] for the delimiter [,]. *)
Definition fieldNeedsQuotes (field : string) : bool :=
  if is_empty field then false
  else if String.eqb field "\." then true
  else if existsb is_special (list_ascii_of_string field) then true
  else starts_with_space field.

(** The loop that writes a quoted field: the bytes up to the next quote,
    carriage return or line feed go out in one [WriteString], then that
    byte, a quote being doubled.  [chunk] is what was read since the
    last such byte. *)
Fixpoint write_quoted (name : string) (field chunk : string) : call :=
  match field with
  | EmptyString =>
      if is_empty chunk then skip else WriteString name chunk
  | String c rest =>
      if Ascii.eqb c quote then
        and_then (WriteString name chunk)
          (and_then (WriteString name (String quote (String quote "")))
             (write_quoted name rest ""))
      else if Ascii.eqb c CR || Ascii.eqb c LF then
        and_then (WriteString name chunk)
          (and_then (WriteByte name c) (write_quoted name rest ""))
      else write_quoted name rest (chunk +:+ String c "")
  end.

Definition write_field (name : string) (field : string) : call :=
  if negb (fieldNeedsQuotes field) then WriteString name field
  else
    and_then (WriteByte name quote)
      (and_then (write_quoted name field "") (WriteByte name quote)).

Fixpoint write_fields (name : string) (n : nat) (record : list string)
  : call :=
  match record with
  | [] => skip
  | field :: rest =>
      and_then (if Nat.ltb 0 n then WriteByte name comma else skip)
        (and_then (write_field name field) (write_fields name (S n) rest))
  end.

(** [w.Write(record)] of a [csv.Writer] with the default delimiter and
    line ending. *)
Definition Write (name : string) (record : list string) : call :=
  and_then (write_fields name 0 record) (WriteByte name LF).

(** The text of a field, a record and a file, as the writer lays them
    out. *)
Fixpoint quoted_body (field : string) : string :=
  match field with
  | EmptyString => ""
  | String c rest =>
      if Ascii.eqb c quote then String quote (String quote (quoted_body rest))
      else String c (quoted_body rest)
  end.

Definition field_text (field : string) : string :=
  if fieldNeedsQuotes field
  then String quote (quoted_body field) +:+ String quote ""
  else field.

Fixpoint fields_text (n : nat) (record : list string) : string :=
  match record with
  | [] => ""
  | field :: rest =>
      (if Nat.ltb 0 n then String comma "" else "")
      +:+ field_text field +:+ fields_text (S n) rest
  end.

Definition record_text (record : list string) : string :=
  fields_text 0 record +:+ String LF "".

Definition records_text (records : list (list string)) : string :=
  fold_right (fun r s => record_text r +:+ s) "" records.

End Csv.

(** ** [encoding/json]: the text [json.MarshalIndent] writes for [[]Vehicle] *)

Module JsonText.
Import GoString GoInt Decoder Csv.

Definition backslash : ascii := ascii_of_N 92.

(** The digit of [n] in base 16, in lower case. *)
Definition hex (n : N) : ascii :=
  if (n <? 10)%N then ascii_of_N (48 + n) else ascii_of_N (87 + n).

(** A byte that follows the first one in the UTF-8 encoding of a rune. *)
Definition continuation (c : ascii) : bool :=
  ((128 <=? code c) && (code c <=? 191))%N.

(** The range of the second byte of an encoding of three or four bytes,
    by its first byte (no overlong forms, no surrogates, nothing beyond
    U+10FFFF). *)
Definition second_byte_ok (first second : N) : bool :=
  if (first =? 224)%N then ((160 <=? second) && (second <=? 191))%N
  else if (first =? 237)%N then ((128 <=? second) && (second <=? 159))%N
  else if (first =? 240)%N then ((144 <=? second) && (second <=? 191))%N
  else if (first =? 244)%N then ((128 <=? second) && (second <=? 143))%N
  else ((128 <=? second) && (second <=? 191))%N.

(** [utf8.DecodeRuneInString(s)] for an [s] whose first byte is 0x80 or
    more: the number of bytes that follow the first one in the encoding
    [s] starts with, or [None] when it starts with no valid encoding (the
    rune is then [RuneError], of width 1). *)
Definition rune_tail (s : string) : option nat :=
  match s with
  | String c0 (String c1 rest) =>
      if ((194 <=? code c0) && (code c0 <=? 223))%N then
        if continuation c1 then Some 1%nat else None
      else if ((224 <=? code c0) && (code c0 <=? 239))%N then
        match rest with
        | String c2 _ =>
            if second_byte_ok (code c0) (code c1) && continuation c2
            then Some 2%nat else None
        | EmptyString => None
        end
      else if ((240 <=? code c0) && (code c0 <=? 244))%N then
        match rest with
        | String c2 (String c3 _) =>
            if second_byte_ok (code c0) (code c1) && continuation c2
               && continuation c3
            then Some 3%nat else None
        | _ => None
        end
      else None
  | _ => None
  end.

(** The bytes below 0x80 that are written as they are: all from the space
    on but the quote, the backslash and [<], [>], [&]. *)
Definition htmlSafe (c : ascii) : bool :=
  (32 <=? code c)%N
  && negb (Ascii.eqb c quote || Ascii.eqb c backslash || Ascii.eqb c "<"%char
           || Ascii.eqb c ">"%char || Ascii.eqb c "&"%char).

(** What is written for a byte below 0x80. *)
Definition escape_byte (c : ascii) : string :=
  if htmlSafe c then String c ""
  else if Ascii.eqb c backslash || Ascii.eqb c quote
  then String backslash (String c "")
  else if (code c =? 8)%N then String backslash "b"
  else if (code c =? 12)%N then String backslash "f"
  else if (code c =? 10)%N then String backslash "n"
  else if (code c =? 13)%N then String backslash "r"
  else if (code c =? 9)%N then String backslash "t"
  else String backslash
         ("u00" +:+ String (hex (N.shiftr (code c) 4))
                      (String (hex (N.land (code c) 15)) "")).

(** The loop of [appendString] with HTML escaping: what is written between
    the quotes for [s].  [pass] counts the bytes still to copy of a rune
    whose first byte was seen. *)
Fixpoint escape (pass : nat) (s : string) : string :=
  match s with
  | EmptyString => ""
  | String c rest =>
      match pass with
      | S k => String c (escape k rest)
      | O =>
          if (code c <? 128)%N then escape_byte c +:+ escape 0 rest
          else
            match rune_tail s with
            | None => String backslash "ufffd" +:+ escape 0 rest
            | Some k =>
                match rest with
                | String c1 (String c2 rest') =>
                    if (code c =? 226)%N && (code c1 =? 128)%N
                       && ((code c2 =? 168) || (code c2 =? 169))%N
                    then String backslash "u202"
                         +:+ String (hex (N.land (code c2) 15)) ""
                         +:+ escape 0 rest'
                    else String c (escape k rest)
                | _ => String c (escape k rest)
                end
            end
      end
  end.

(** A Go string as a JSON string. *)
Definition string_text (s : string) : string :=
  String quote (escape 0 s) +:+ String quote "".

Definition NL : string := String LF "".

(** One member of an object, at the second level of indentation. *)
Definition member_text (key value : string) : string :=
  "    " +:+ String quote key +:+ String quote ": " +:+ value.

(** One [Vehicle], with the member names of its struct tags. *)
Definition vehicle_text (v : Vehicle) : string :=
  "  {" +:+ NL
  +:+ member_text "make" (string_text (Make v)) +:+ "," +:+ NL
  +:+ member_text "model" (string_text (Model v)) +:+ "," +:+ NL
  +:+ member_text "year" (string_text (Year v)) +:+ "," +:+ NL
  +:+ member_text "cylinders" (Itoa (Cylinders v)) +:+ NL
  +:+ "  }".

Fixpoint elements_text (vehicles : list Vehicle) : string :=
  match vehicles with
  | [] => ""
  | [v] => vehicle_text v +:+ NL
  | v :: rest => vehicle_text v +:+ "," +:+ NL +:+ elements_text rest
  end.

(** [json.MarshalIndent(vehicles, "", "  ")]; it has no error for this
    type.  The empty slice [fetchVehicles] returns is [nil], written
    [null]. *)
Definition MarshalIndent (vehicles : list Vehicle) : string :=
  match vehicles with
  | [] => "null"
  | _ => "[" +:+ NL +:+ elements_text vehicles +:+ "]"
  end.

(** [utf8.ValidString]. *)
Fixpoint utf8_valid (pass : nat) (s : string) : bool :=
  match s with
  | EmptyString => Nat.eqb pass 0
  | String c rest =>
      match pass with
      | S k => utf8_valid k rest
      | O =>
          if (code c <? 128)%N then utf8_valid 0 rest
          else match rune_tail s with
               | None => false
               | Some k => utf8_valid k rest
               end
      end
  end.

End JsonText.

(** ** Exporters: [saveVehiclesToJSON] and [saveVehiclesToCSV] *)

Module Exporters.
Import GoString GoInt Decoder OS Bufio Csv JsonText.

(** [saveVehiclesToJSON]: the error returned ([None] is [nil]) and the
    world after the call. *)
Definition saveVehiclesToJSON (vehicles : list Vehicle) (filename : string)
    (w : World) : option error * World :=
  let jsonData := MarshalIndent vehicles in
  let '(created, f) := Create filename (fs w) in
  if negb created then (Some CreateJSONFailed, with_fs f w)
  else
    let '(n, f) := OS.Write filename jsonData f in
    if Nat.ltb n (String.length jsonData)
    then (Some WriteJSONFailed, with_fs f w)
    else
      (None, println ("Vehicles data saved to " +:+ filename) (with_fs f w)).

Definition header : list string := ["Make"; "Model"; "Year"; "Cylinders"].

(** Lines 153-158: the row of a vehicle. *)
Definition row (vehicle : Vehicle) : list string :=
  [Make vehicle; Model vehicle; Year vehicle; Itoa (Cylinders vehicle)].

(** Lines 152-162: the loop over the vehicles, left at the first row whose
    [writer.Write] returns an error. *)
Fixpoint write_rows (filename : string) (vehicles : list Vehicle) : call :=
  match vehicles with
  | [] => skip
  | vehicle :: rest =>
      and_then (Csv.Write filename (row vehicle)) (write_rows filename rest)
  end.

(** The deferred [writer.Flush()]: it runs when the function returns,
    whatever it returns, and its own failure is not looked at. *)
Definition deferred_Flush (filename : string) (result : option error)
    (writer : Writer) (w : World) : option error * World :=
  let '(_, writer) := Flush filename writer in
  (result, with_fs (under writer) w).

(** [saveVehiclesToCSV]. *)
Definition saveVehiclesToCSV (vehicles : list Vehicle) (filename : string)
    (w : World) : option error * World :=
  let '(created, f) := Create filename (fs w) in
  if negb created then (Some CreateCSVFailed, with_fs f w)
  else
    let writer := {| buf := ""; err := false; under := f |} in
    let '(ok, writer) := Csv.Write filename header writer in
    if negb ok then deferred_Flush filename (Some WriteHeaderFailed) writer w
    else
      let '(ok, writer) := write_rows filename vehicles writer in
      if negb ok then deferred_Flush filename (Some WriteRowFailed) writer w
      else
        let w := println ("Vehicles data saved to " +:+ filename) w in
        deferred_Flush filename None writer w.

(** The text of the CSV file for [vehicles]. *)
Definition csv_text (vehicles : list Vehicle) : string :=
  records_text (header :: map row vehicles).

End Exporters.

(** ** [main] *)

Module Main.
Import GoString GoInt Query Decoder OS Fetcher Exporters.

(** What one call of [fmt.Scanln(&x)] finds on the standard input: the
    text it stores when [x] is a string and the number it stores when [x]
    is an [int]; [None] when it stores nothing (an empty line, the end of
    the input, a token of the wrong form) and leaves [x] as it is. *)
Record scan := {
  text : option string;
  number : option Z;
}.

(** The standard input: what the calls of [Scanln] find, one after the
    other; past the end every call finds nothing. *)
Definition stdin : Type := list scan.

Definition Scanln_string (x : string) (input : stdin) : string * stdin :=
  match input with
  | [] => (x, [])
  | found :: rest => (default x (text found), rest)
  end.

Definition Scanln_int (x : Z) (input : stdin) : Z * stdin :=
  match input with
  | [] => (x, [])
  | found :: rest => (default x (number found), rest)
  end.

(** Lines 181-191, 193-203, 205-215: a prompt repeated until the number
    entered passes [accepted].  Each turn starts from 0 and takes one
    piece of the input, and past the end of the input the number stays
    0. *)
Fixpoint ask_int (prompt complaint : string) (accepted : Z -> bool)
    (input : stdin) (w : World) : option (Z * stdin * World) :=
  let w := println prompt w in
  let '(x, rest) := Scanln_int 0 input in
  if accepted x then Some (x, rest, w)
  else
    let w := println complaint w in
    match input with
    | [] => None
    | _ :: input' => ask_int prompt complaint accepted input' w
    end.

(** Line 222. *)
Definition sort_accepted (sort : string) : bool :=
  is_empty sort || String.eqb sort "make" || String.eqb sort "model"
  || String.eqb sort "year" || String.eqb sort "cylinders".

(** Lines 217-226, the same loop for the sort field. *)
Fixpoint ask_sort (input : stdin) (w : World)
  : option (string * stdin * World) :=
  let w := println "Do you want to sort the results? (Sort by: make, model, year, cylinders) (press Enter to skip):" w in
  let '(sort, rest) := Scanln_string "" input in
  if sort_accepted sort then Some (sort, rest, w)
  else
    let w := println "Invalid option." w in
    match input with
    | [] => None
    | _ :: input' => ask_sort input' w
    end.

Definition year_accepted (year : Z) : bool :=
  (year =? 0) || ((1980 <=? year) && (year <=? 2025)).

Definition cylinders_accepted (cylinders : Z) : bool :=
  ((cylinders =? 0) || ((3 <=? cylinders) && (cylinders <=? 6)))
  || (cylinders =? 8) || (cylinders =? 10) || (cylinders =? 12)
  || (cylinders =? 16).

Definition resultNb_accepted (resultNb : Z) : bool :=
  (0 <=? resultNb) && (resultNb <=? 50).

(** Lines 169-226: the criteria collected from the input; [None] when the
    input ends inside a loop that still waits for an accepted value. *)
Definition collect (input : stdin) (w : World)
  : option (FilterCriteria * World) :=
  let w := println "Enter the car maker (press Enter to skip):" w in
  let '(make, input) := Scanln_string "" input in
  let '(model, input, w) :=
    if negb (is_empty make) then
      let w := println "Enter the model (press Enter to skip):" w in
      let '(model, input) := Scanln_string "" input in
      (model, input, w)
    else ("", input, w) in
  match ask_int "Enter the year (press Enter to skip):"
          "Please select a year between 1980 and 2025." year_accepted
          input w with
  | None => None
  | Some (year, input, w) =>
  match ask_int "Enter the number of cylinders (press Enter to skip):"
          "Invalid option." cylinders_accepted input w with
  | None => None
  | Some (cylinders, input, w) =>
  match ask_int
          "Enter the maximum number of results you want (press Enter to skip):"
          "Invalid option." resultNb_accepted input w with
  | None => None
  | Some (resultNb, input, w) =>
  match ask_sort input w with
  | None => None
  | Some (sort, input, w) =>
      Some ({| make := make; model := model; sortField := sort;
               year := year; cylinders := cylinders;
               resultLimit := resultNb |}, w)
  end end end end.

(** The text of an error an exporter returns, as [fmt.Println] prints it:
    what the exporter gave to [fmt.Errorf], its [%v] being the error of
    [os.Create] or of the write: the call, the name of the file and the
    text of the system's error.  The errors of [fetchVehicles] are not
    printed on the console ([log.Fatalf] writes them to the standard
    error) and no exporter returns them: they have no text here. *)
Definition message (name : string) (f : FileSystem) (e : error) : string :=
  let cause (call : string) :=
    call +:+ " " +:+ name +:+ ": " +:+ strerror f name in
  match e with
  | CreateJSONFailed => "failed to create JSON file: " +:+ cause "open"
  | WriteJSONFailed => "failed to write JSON to file: " +:+ cause "write"
  | CreateCSVFailed => "failed to create CSV file: " +:+ cause "open"
  | WriteHeaderFailed => "failed to write header to CSV: " +:+ cause "write"
  | WriteRowFailed => "failed to write row to CSV: " +:+ cause "write"
  | FetchFailed _ | ApiStatus _ | ReadBodyFailed _ | ParseFailed
  | InvalidStructure => ""
  end.

(** Line 239. *)
Definition listing_line (v : Vehicle) : string :=
  "Make: " +:+ Make v +:+ ", Model: " +:+ Model v +:+ ", Year: " +:+ Year v
  +:+ ", Cylinders: " +:+ Itoa (Cylinders v).

(** Lines 237-240: the listing on the console. *)
Definition listing (vehicles : list Vehicle) (w : World) : World :=
  fold_left (fun w v => println (listing_line v) w) vehicles
    (println "Vehicles found:" w).

(** Lines 244-246 and 250-252: the error of the exporter of the file
    [name], printed. *)
Definition report (format name : string) (err : option error) (w : World)
  : World :=
  match err with
  | Some e =>
      println ("Error saving to " +:+ format +:+ ": " +:+ message name (fs w) e)
        w
  | None => w
  end.

(** Lines 242-252: the two exports. *)
Definition export (vehicles : list Vehicle) (w : World) : World :=
  let '(err, w) := saveVehiclesToJSON vehicles "vehicles.json" w in
  let w := report "JSON" "vehicles.json" err w in
  let '(err, w) := saveVehiclesToCSV vehicles "vehicles.csv" w in
  report "CSV" "vehicles.csv" err w.

(** Lines 233-253. *)
Definition display (vehicles : list Vehicle) (w : World) : World :=
  if Nat.eqb (length vehicles) 0
  then println "No vehicles found for the given criteria." w
  else export vehicles (listing vehicles w).

(** How the process ends: [main] returns, [log.Fatalf] exits with the
    error, or a panic reaches the top of the goroutine. *)
Inductive exit : Type :=
| Returned
| Fatal (e : error)
| Crashed.

(** Lines 227-253, from the criteria on. *)
Definition run (get : string -> http_reply) (c : FilterCriteria) (w : World)
  : exit * World :=
  let '(result, w) :=
    fetchVehicles get (make c) (model c) (sortField c) (year c) (cylinders c)
      (resultLimit c) w in
  match result with
  | Fail e => (Fatal e, w)
  | Panic => (Crashed, w)
  | Return vehicles => (Returned, display vehicles w)
  end.

(** [main]; [None] when the program is still waiting for input at the
    end of [input]. *)
Definition main (get : string -> http_reply) (input : stdin) (w : World)
  : option (exit * World) :=
  match collect input w with
  | None => None
  | Some (c, w) => Some (run get c w)
  end.

(** The URL [main] asks for, when it gets as far as asking. *)
Definition issued_query (input : stdin) (w : World) : option string :=
  match collect input w with
  | None => None
  | Some (c, _) => Some (QueryBuilder c)
  end.

(** A model and no make: criteria [main] never collects. *)
Definition model_only_criteria : FilterCriteria :=
  {| make := ""; model := "Civic"; sortField := ""; year := 0;
     cylinders := 0; resultLimit := 0 |}.

(** A world where [vehicles.json] cannot be created and nothing limits
    [vehicles.csv]. *)
Definition json_denied_world : World :=
  {| fs := {| denied := {[ "vehicles.json" ]}; quota := ∅; disk := ∅;
              calls := []; strerror := fun _ => "permission denied" |};
     stdout := [] |}.

(** A world where every file can be created and none accepts a byte: a
    full device. *)
Definition full_device_world : World :=
  {| fs := {| denied := ∅;
              quota := {[ "vehicles.json" := 0%nat; "vehicles.csv" := 0%nat ]};
              disk := ∅; calls := [];
              strerror := fun _ => "no space left on device" |};
     stdout := [] |}.

(** A world without restrictions. *)
Definition free_world : World :=
  {| fs := {| denied := ∅; quota := ∅; disk := ∅; calls := [];
              strerror := fun _ => "" |};
     stdout := [] |}.

End Main.

(** ** Reading the exported files back *)

(** The readers are not code of the program.  The JSON reader follows the
    JSON grammar for an array of objects with string and number members.
    The CSV reader of this module follows RFC 4180 to the letter (what is
    between quotes is data, byte for byte): it serves to show that the
    file keeps all there is in the vehicles.  The reader of the package
    the file is written with, [encoding/csv], is the module [CsvReader]
    below. *)

Module Reader.
Import GoString GoInt Decoder Csv JsonText.

(** *** CSV *)

(** Where the reader is in a record: at the start of a field, inside a
    field without quotes, inside a quoted field, behind a quote seen
    inside a quoted field, or behind a carriage return that ends a
    line. *)
Inductive csv_state : Type :=
| FieldStart
| Unquoted
| Quoted
| QuoteSeen
| CRSeen.

(** One more record in front of what the rest of the text gives. *)
Definition and_records (record : list string)
    (others : option (list (list string))) : option (list (list string)) :=
  option_map (cons record) others.

(** The records of a CSV text.  [field] is the field being read and
    [record] the fields of the current record read so far.  Empty lines
    are skipped. *)
Fixpoint read_csv (st : csv_state) (field : string) (record : list string)
    (text : string) : option (list (list string)) :=
  match text with
  | EmptyString =>
      match st with
      | Quoted | CRSeen => None
      | FieldStart =>
          match record with
          | [] => Some []
          | _ => Some [record ++ [""]]
          end
      | Unquoted | QuoteSeen => Some [record ++ [field]]
      end
  | String c rest =>
      match st with
      | FieldStart =>
          if Ascii.eqb c quote then read_csv Quoted "" record rest
          else if Ascii.eqb c comma
          then read_csv FieldStart "" (record ++ [""]) rest
          else if Ascii.eqb c LF then
            match record with
            | [] => read_csv FieldStart "" [] rest
            | _ => and_records (record ++ [""]) (read_csv FieldStart "" [] rest)
            end
          else if Ascii.eqb c CR then read_csv CRSeen "" record rest
          else read_csv Unquoted (String c "") record rest
      | Unquoted =>
          if Ascii.eqb c comma
          then read_csv FieldStart "" (record ++ [field]) rest
          else if Ascii.eqb c LF
          then and_records (record ++ [field]) (read_csv FieldStart "" [] rest)
          else if Ascii.eqb c CR then read_csv CRSeen field record rest
          else if Ascii.eqb c quote then None
          else read_csv Unquoted (field +:+ String c "") record rest
      | Quoted =>
          if Ascii.eqb c quote then read_csv QuoteSeen field record rest
          else read_csv Quoted (field +:+ String c "") record rest
      | QuoteSeen =>
          if Ascii.eqb c quote
          then read_csv Quoted (field +:+ String quote "") record rest
          else if Ascii.eqb c comma
          then read_csv FieldStart "" (record ++ [field]) rest
          else if Ascii.eqb c LF
          then and_records (record ++ [field]) (read_csv FieldStart "" [] rest)
          else if Ascii.eqb c CR then read_csv CRSeen field record rest
          else None
      | CRSeen =>
          if Ascii.eqb c LF
          then and_records (record ++ [field]) (read_csv FieldStart "" [] rest)
          else None
      end
  end.

(** A row read back as a vehicle, the cylinders column parsed as an
    integer. *)
Definition vehicle_of_row (fields : list string) : option Vehicle :=
  match fields with
  | [make; model; year; cylinders] =>
      match Atoi cylinders with
      | Some n =>
          Some {| Make := make; Model := model; Year := year; Cylinders := n |}
      | None => None
      end
  | _ => None
  end.

Fixpoint vehicles_of_rows (rows : list (list string))
  : option (list Vehicle) :=
  match rows with
  | [] => Some []
  | fields :: rest =>
      match vehicle_of_row fields, vehicles_of_rows rest with
      | Some v, Some vs => Some (v :: vs)
      | _, _ => None
      end
  end.

(** The vehicles of a CSV file: the records after the header row. *)
Definition vehicles_of_csv (text : string) : option (list Vehicle) :=
  match read_csv FieldStart "" [] text with
  | Some (_ :: rows) => vehicles_of_rows rows
  | _ => None
  end.

(** *** JSON *)

Inductive token : Type :=
| TLBracket
| TRBracket
| TLBrace
| TRBrace
| TColon
| TComma
| TString (s : string)
| TNumber (lexeme : string)
| TLiteral (word : string).

(** Where the lexer is: between tokens; inside a string ([pass] bytes of
    a rune still to copy); behind a backslash; inside the four digits of
    a [\u] escape ([high] is the high surrogate it may complete); behind
    the escape of a high surrogate, and behind the backslash that follows
    it; inside a number; inside a literal name. *)
Inductive lex_state : Type :=
| Start
| Str (acc : string) (pass : nat)
| Esc (acc : string)
| Uni (acc : string) (high : option N) (count : nat) (value : N)
| High (acc : string) (h : N)
| HighEsc (acc : string) (h : N)
| Num (acc : string)
| Word (acc : string).

(** U+FFFD in UTF-8, written for what is no rune. *)
Definition replacement : string := bytes [239; 191; 189]%N.

(** [utf8.EncodeRune] for a code point that is no surrogate. *)
Definition utf8_encode (n : N) : string :=
  (if n <? 128 then bytes [n]
   else if n <? 2048 then bytes [192 + n / 64; 128 + n mod 64]
   else if n <? 65536
   then bytes [224 + n / 4096; 128 + (n / 64) mod 64; 128 + n mod 64]
   else bytes [240 + n / 262144; 128 + (n / 4096) mod 64;
               128 + (n / 64) mod 64; 128 + n mod 64])%N.

Definition hex_value (c : ascii) : option N :=
  (if (48 <=? code c) && (code c <=? 57) then Some (code c - 48)
   else if (97 <=? code c) && (code c <=? 102) then Some (code c - 87)
   else if (65 <=? code c) && (code c <=? 70) then Some (code c - 55)
   else None)%N.

Definition is_space (c : ascii) : bool :=
  ((code c =? 32) || (code c =? 10) || (code c =? 13) || (code c =? 9))%N.

Definition is_digit (c : ascii) : bool :=
  ((48 <=? code c) && (code c <=? 57))%N.

Definition is_number_byte (c : ascii) : bool :=
  is_digit c || Ascii.eqb c "-"%char || Ascii.eqb c "+"%char
  || Ascii.eqb c "."%char || Ascii.eqb c "e"%char || Ascii.eqb c "E"%char.

Definition is_letter (c : ascii) : bool :=
  ((97 <=? code c) && (code c <=? 122))%N.

Definition step_start (c : ascii) : option (list token * lex_state) :=
  if is_space c then Some ([], Start)
  else if Ascii.eqb c "["%char then Some ([TLBracket], Start)
  else if Ascii.eqb c "]"%char then Some ([TRBracket], Start)
  else if Ascii.eqb c "{"%char then Some ([TLBrace], Start)
  else if Ascii.eqb c "}"%char then Some ([TRBrace], Start)
  else if Ascii.eqb c ":"%char then Some ([TColon], Start)
  else if Ascii.eqb c ","%char then Some ([TComma], Start)
  else if Ascii.eqb c quote then Some ([], Str "" 0)
  else if is_digit c || Ascii.eqb c "-"%char then Some ([], Num (String c ""))
  else if is_letter c then Some ([], Word (String c ""))
  else None.

(** A byte inside a string, [text] being the text from that byte on. *)
Definition step_str (acc : string) (c : ascii) (text : string)
  : option (list token * lex_state) :=
  if Ascii.eqb c quote then Some ([TString acc], Start)
  else if Ascii.eqb c backslash then Some ([], Esc acc)
  else if (code c <? 32)%N then None
  else if (code c <? 128)%N then Some ([], Str (acc +:+ String c "") 0)
  else match rune_tail text with
       | Some k => Some ([], Str (acc +:+ String c "") k)
       | None => Some ([], Str (acc +:+ replacement) 0)
       end.

Definition step_esc (acc : string) (c : ascii)
  : option (list token * lex_state) :=
  if Ascii.eqb c quote || Ascii.eqb c backslash || Ascii.eqb c "/"%char
  then Some ([], Str (acc +:+ String c "") 0)
  else if Ascii.eqb c "b"%char then Some ([], Str (acc +:+ bytes [8]%N) 0)
  else if Ascii.eqb c "f"%char then Some ([], Str (acc +:+ bytes [12]%N) 0)
  else if Ascii.eqb c "n"%char then Some ([], Str (acc +:+ bytes [10]%N) 0)
  else if Ascii.eqb c "r"%char then Some ([], Str (acc +:+ bytes [13]%N) 0)
  else if Ascii.eqb c "t"%char then Some ([], Str (acc +:+ bytes [9]%N) 0)
  else if Ascii.eqb c "u"%char then Some ([], Uni acc None 0 0%N)
  else None.

Definition is_high_surrogate (n : N) : bool :=
  ((55296 <=? n) && (n <=? 56319))%N.

Definition is_low_surrogate (n : N) : bool :=
  ((56320 <=? n) && (n <=? 57343))%N.

(** The state behind an escaped code point that completes no pair. *)
Definition after_code_point (acc : string) (n : N) : lex_state :=
  if is_high_surrogate n then High acc n
  else if is_low_surrogate n then Str (acc +:+ replacement) 0
  else Str (acc +:+ utf8_encode n) 0.

Definition step_uni (acc : string) (high : option N) (count : nat)
    (value : N) (c : ascii) : option (list token * lex_state) :=
  match hex_value c with
  | None => None
  | Some d =>
      let n := (16 * value + d)%N in
      if Nat.ltb (S count) 4 then Some ([], Uni acc high (S count) n)
      else
        match high with
        | Some h =>
            if is_low_surrogate n
            then Some ([], Str (acc +:+ utf8_encode
                                  (65536 + (h - 55296) * 1024 + (n - 56320))%N)
                             0)
            else Some ([], after_code_point (acc +:+ replacement) n)
        | None => Some ([], after_code_point acc n)
        end
  end.

Definition step (st : lex_state) (c : ascii) (text : string)
  : option (list token * lex_state) :=
  match st with
  | Start => step_start c
  | Str acc (S k) => Some ([], Str (acc +:+ String c "") k)
  | Str acc O => step_str acc c text
  | Esc acc => step_esc acc c
  | Uni acc high count value => step_uni acc high count value c
  | High acc h =>
      if Ascii.eqb c backslash then Some ([], HighEsc acc h)
      else step_str (acc +:+ replacement) c text
  | HighEsc acc h =>
      if Ascii.eqb c "u"%char then Some ([], Uni acc (Some h) 0 0%N)
      else step_esc (acc +:+ replacement) c
  | Num acc =>
      if is_number_byte c then Some ([], Num (acc +:+ String c ""))
      else match step_start c with
           | Some (tokens, st') => Some (TNumber acc :: tokens, st')
           | None => None
           end
  | Word acc =>
      if is_letter c then Some ([], Word (acc +:+ String c ""))
      else match step_start c with
           | Some (tokens, st') => Some (TLiteral acc :: tokens, st')
           | None => None
           end
  end.

Definition and_tokens (tokens : list token) (others : option (list token))
  : option (list token) :=
  match tokens with
  | [] => others
  | _ => option_map (app tokens) others
  end.

(** The tokens of a JSON text. *)
Fixpoint lex (st : lex_state) (text : string) : option (list token) :=
  match text with
  | EmptyString =>
      match st with
      | Start => Some []
      | Num acc => Some [TNumber acc]
      | Word acc => Some [TLiteral acc]
      | _ => None
      end
  | String c rest =>
      match step st c text with
      | Some (tokens, st') => and_tokens tokens (lex st' rest)
      | None => None
      end
  end.

Definition with_Make (s : string) (v : Vehicle) : Vehicle :=
  {| Make := s; Model := Model v; Year := Year v; Cylinders := Cylinders v |}.
Definition with_Model (s : string) (v : Vehicle) : Vehicle :=
  {| Make := Make v; Model := s; Year := Year v; Cylinders := Cylinders v |}.
Definition with_Year (s : string) (v : Vehicle) : Vehicle :=
  {| Make := Make v; Model := Model v; Year := s; Cylinders := Cylinders v |}.
Definition with_Cylinders (n : Z) (v : Vehicle) : Vehicle :=
  {| Make := Make v; Model := Model v; Year := Year v; Cylinders := n |}.

Definition is_null (value : token) : bool :=
  match value with
  | TLiteral word => String.eqb word "null"
  | _ => false
  end.

(** A text member stored by [set]: a string, or [null], which changes
    nothing. *)
Definition assign_text (set : string -> Vehicle -> Vehicle) (value : token)
    (v : Vehicle) : option Vehicle :=
  match value with
  | TString s => Some (set s v)
  | _ => if is_null value then Some v else None
  end.

(** The member [key] of an object stored in the vehicle, by the names of
    the struct tags; a member of another name is passed over. *)
Definition assign (key : string) (value : token) (v : Vehicle)
  : option Vehicle :=
  if String.eqb key "make" then assign_text with_Make value v
  else if String.eqb key "model" then assign_text with_Model value v
  else if String.eqb key "year" then assign_text with_Year value v
  else if String.eqb key "cylinders" then
    match value with
    | TNumber lexeme =>
        match Atoi lexeme with
        | Some n => Some (with_Cylinders n v)
        | None => None
        end
    | _ => if is_null value then Some v else None
    end
  else
    match value with
    | TString _ | TNumber _ | TLiteral _ => Some v
    | _ => None
    end.

(** Where the parser is in the array: at the top; behind [[]; behind [{];
    behind a member; behind an element. *)
Inductive parse_state : Type :=
| Top
| ElementOrEnd
| MemberOrEnd (done : list Vehicle) (v : Vehicle)
| AfterMember (done : list Vehicle) (v : Vehicle)
| AfterElement (done : list Vehicle).

Definition zero_Vehicle : Vehicle :=
  {| Make := ""; Model := ""; Year := ""; Cylinders := 0 |}.

(** The vehicles of the tokens of an array of flat objects, or of
    [null]. *)
Fixpoint parse (st : parse_state) (tokens : list token)
  : option (list Vehicle) :=
  match st, tokens with
  | Top, [TLiteral word] => if String.eqb word "null" then Some [] else None
  | Top, TLBracket :: rest => parse ElementOrEnd rest
  | ElementOrEnd, [TRBracket] => Some []
  | ElementOrEnd, TLBrace :: rest => parse (MemberOrEnd [] zero_Vehicle) rest
  | MemberOrEnd done v, TRBrace :: rest => parse (AfterElement (done ++ [v])) rest
  | MemberOrEnd done v, TString key :: TColon :: value :: rest =>
      match assign key value v with
      | Some v' => parse (AfterMember done v') rest
      | None => None
      end
  | AfterMember done v, TRBrace :: rest => parse (AfterElement (done ++ [v])) rest
  | AfterMember done v, TComma :: TString key :: TColon :: value :: rest =>
      match assign key value v with
      | Some v' => parse (AfterMember done v') rest
      | None => None
      end
  | AfterElement done, [TRBracket] => Some done
  | AfterElement done, TComma :: TLBrace :: rest =>
      parse (MemberOrEnd done zero_Vehicle) rest
  | _, _ => None
  end.

(** The vehicles of a JSON file. *)
Definition vehicles_of_json (text : string) : option (list Vehicle) :=
  match lex Start text with
  | Some tokens => parse Top tokens
  | None => None
  end.

Definition is_number_text (s : string) : bool :=
  forallb is_number_byte (list_ascii_of_string s).

(** The tokens of an exported vehicle and of an exported document. *)
Definition vehicle_tokens (v : Vehicle) : list token :=
  [TLBrace; TString "make"; TColon; TString (Make v); TComma;
   TString "model"; TColon; TString (Model v); TComma;
   TString "year"; TColon; TString (Year v); TComma;
   TString "cylinders"; TColon; TNumber (Itoa (Cylinders v)); TRBrace].

Fixpoint elements_tokens (vehicles : list Vehicle) : list token :=
  match vehicles with
  | [] => []
  | [v] => vehicle_tokens v
  | v :: rest => vehicle_tokens v ++ TComma :: elements_tokens rest
  end.

(** The text fields of the vehicle are valid UTF-8 and its cylinder count
    is an [int]. *)
Definition well_formed (v : Vehicle) : Prop :=
  utf8_valid 0 (Make v) = true /\ utf8_valid 0 (Model v) = true
  /\ utf8_valid 0 (Year v) = true /\ in_range (Cylinders v).

(** A make that is one byte, 0xFF: no UTF-8 text. *)
Definition invalid_utf8_vehicle : Vehicle :=
  {| Make := bytes [255]%N; Model := "Corolla"; Year := "2020";
     Cylinders := 4 |}.

End Reader.

(** ** Response bodies as JSON texts *)

Module Response.
Import Float64 Json Csv JsonText Reader.

(** A number of a JSON text, by what [strconv.ParseFloat] makes of its
    digits: the [float64] nearest to it, or a range error when it is too
    large for a [float64] (as [1e400] is). *)
Inductive number : Type :=
| Fits (x : float64)
| OutOfRange.

(** A JSON text as the grammar reads it: the strings with their escapes
    resolved, the members of an object in the order of the text. *)
Inductive syntax : Type :=
| SNull
| SBool (b : bool)
| SNumber (n : number)
| SString (s : string)
| SArray (elements : list syntax)
| SObject (members : list (string * syntax)).

(** The bytes the decoder stores for a string: a byte that starts no valid
    UTF-8 encoding is replaced by U+FFFD.  [pass] counts the bytes still to
    copy of a rune whose first byte was seen. *)
Fixpoint to_valid (pass : nat) (s : string) : string :=
  match s with
  | EmptyString => ""
  | String c rest =>
      match pass with
      | S k => String c (to_valid k rest)
      | O =>
          if (code c <? 128)%N then String c (to_valid 0 rest)
          else match rune_tail s with
               | None => replacement +:+ to_valid 0 rest
               | Some k => String c (to_valid k rest)
               end
      end
  end.

(** How deep the arrays and objects of the text are nested. *)
Fixpoint depth (t : syntax) : nat :=
  match t with
  | SArray elements =>
      S (fold_right (fun e d => Nat.max (depth e) d) 0%nat elements)
  | SObject members =>
      S (fold_right (fun m d => Nat.max (depth (snd m)) d) 0%nat members)
  | _ => 0%nat
  end.

(** The decoder's limit on the nesting: 10000 levels. *)
Definition maxNestingDepth : nat := 100 * 100.

(** Every number of the text fits a [float64]. *)
Fixpoint storable (t : syntax) : bool :=
  match t with
  | SNumber OutOfRange => false
  | SArray elements => forallb storable elements
  | SObject members => forallb (fun m => storable (snd m)) members
  | _ => true
  end.

(** What the decoder stores in an [interface{}] for the text; of the
    members of an object with the same name the last one is kept. *)
Fixpoint stored (t : syntax) : json :=
  match t with
  | SNull => JNull
  | SBool b => JBool b
  | SNumber (Fits x) => JNumber x
  | SNumber OutOfRange => JNull
  | SString s => JString (to_valid 0 s)
  | SArray elements => JArray (map stored elements)
  | SObject members =>
      JObject
        (list_to_map
           (rev (map (fun m => (to_valid 0 (fst m), stored (snd m))) members)))
  end.

(** The body that is the JSON text [t], as [json.Unmarshal] meets it. *)
Definition read (t : syntax) : payload :=
  if Nat.ltb maxNestingDepth (depth t) then Unparsable
  else if storable t then Document (stored t)
  else Refused.

(** The top level of the text is an object or [null]. *)
Definition is_mapping_text (t : syntax) : bool :=
  match t with SObject _ | SNull => true | _ => false end.

(** The body [{"records":[{"fields":{"cylinders":1e400}}]}]. *)
Definition huge_number_text : syntax :=
  SObject [("records",
            SArray [SObject [("fields",
                              SObject [("cylinders", SNumber OutOfRange)])]])].

(** The [fields] member of the spec's complete element. *)
Definition toyota_text : syntax :=
  SObject [("make", SString "Toyota"); ("model", SString "Corolla");
           ("year", SString "2020"); ("cylinders", SNumber (Fits (of_Z 4)))].

(** A body whose top level is a sequence: the complete element in
    brackets. *)
Definition top_level_array_text : syntax :=
  SArray [SObject [("fields", toyota_text)]].

(** The body [{"records":[42],"big":1e400}]. *)
Definition number_element_text : syntax :=
  SObject [("records", SArray [SNumber (Fits (of_Z 42))]);
           ("big", SNumber OutOfRange)].

End Response.

(** ** Words for the statements about the console, the files and the texts *)

Module Console.
Import GoString GoInt Query OS Main.

(** The complaints and prompts printed for the entries [rejected] of a
    loop of [main], and the prompt after them. *)
Definition retries (prompt complaint : string) (rejected : stdin)
  : list string :=
  concat (map (fun _ => [prompt +:+ line_feed; complaint +:+ line_feed])
            rejected)
  ++ [prompt +:+ line_feed].

(** Lines 27 and 56: what [fetchVehicles] prints. *)
Definition fetch_lines (c : FilterCriteria) : list string :=
  [ "ANNEE : " +:+ Itoa (year c) +:+ "CYLINDER : " +:+ Itoa (cylinders c);
    "URL fini " +:+ QueryBuilder c +:+ line_feed ].

End Console.

Module Samples.
Import Decoder OS.

(** A world where [vehicles.csv] accepts 30 bytes and no more. *)
Definition small_device_world : World :=
  {| fs := {| denied := ∅; quota := {[ "vehicles.csv" := 30%nat ]};
              disk := ∅; calls := [];
              strerror := fun _ => "no space left on device" |};
     stdout := [] |}.

(** Two vehicles whose fields, set side by side, read the same: only the
    place of the comma tells them apart. *)
Definition comma_in_make : Vehicle :=
  {| Make := "Land,Rover"; Model := "Defender"; Year := "1990";
     Cylinders := 4 |}.

Definition comma_in_model : Vehicle :=
  {| Make := "Land"; Model := "Rover,Defender"; Year := "1990";
     Cylinders := 4 |}.

End Samples.

Module Encoding.
Import Csv.

(** Every byte of [s] is below 0x80. *)
Definition is_ascii (s : string) : bool :=
  forallb (fun c => (code c <? 128)%N) (list_ascii_of_string s).

End Encoding.

Module Device.
Import GoString OS Bufio.

(** The file holds no more than its limit. *)
Definition within (name : string) (f : FileSystem) : Prop :=
  forall limit, quota f !! name = Some limit ->
  (String.length (content name f) <= limit)%nat.

(** The file is at its limit, which is below [bound]. *)
Definition exhausted (name : string) (f : FileSystem) (bound : nat) : Prop :=
  exists limit, quota f !! name = Some limit
                /\ String.length (content name f) = limit
                /\ (limit < bound)%nat.

(** What a call does with [data] on any file, while no error is kept: a
    first part of [data] joins the stream, all of it when the call returns
    no error, and when it returns one the error is kept and the file is at
    its limit, short of the stream with [data]. *)
Definition accounts (name data : string) (op : call) : Prop :=
  forall b,
    err b = false -> within name (under b) ->
    exists part rest,
      data = part +:+ rest
      /\ stream name (snd (op b)) = stream name b +:+ part
      /\ quota (under (snd (op b))) = quota (under b)
      /\ within name (under (snd (op b)))
      /\ if fst (op b)
         then rest = "" /\ err (snd (op b)) = false
         else err (snd (op b)) = true
              /\ exhausted name (under (snd (op b)))
                   (String.length (stream name b) + String.length data).

End Device.

Module Frame.
Import GoString OS Bufio.

(** The call leaves every file but [name] as it is, and changes neither
    what can be created nor the limits. *)
Definition keeps (name : string) (op : call) : Prop :=
  forall b, same_elsewhere name (under b) (under (snd (op b))).

(** Nothing but the files [vehicles.json] and [vehicles.csv] and the list
    of calls differs. *)
Definition same_but_exports (f f' : FileSystem) : Prop :=
  denied f' = denied f /\ quota f' = quota f
  /\ forall other, other <> "vehicles.json" -> other <> "vehicles.csv" ->
                   disk f' !! other = disk f !! other.

End Frame.

Module Expected.
Import GoString GoInt Query Json Decoder OS Main Float64.

(** What the console shows for the outcome of the exporter of the file
    [name]: its message when it returned no error, and otherwise the line
    of [main] with the text of the error. *)
Definition outcome (format name : string) (f : FileSystem)
    (result : option error) : list string :=
  match result with
  | None => ["Vehicles data saved to " +:+ name +:+ line_feed]
  | Some e =>
      ["Error saving to " +:+ format +:+ ": " +:+ message name f e
       +:+ line_feed]
  end.

Definition honda_fields : gmap string json :=
  {[ "make" := JString "Honda"; "model" := JString "Civic";
     "year" := JString "2015"; "cylinders" := JNumber (of_Z 4) ]}.

Definition honda : Vehicle :=
  {| Make := "Honda"; Model := "Civic"; Year := "2015"; Cylinders := 4 |}.

(** Two complete elements: the Toyota, then the Honda. *)
Definition two_records_body : payload :=
  Document (JObject {[ "records" :=
    JArray [ JObject {[ "fields" := JObject toyota_fields ]};
             JObject {[ "fields" := JObject honda_fields ]} ] ]}).

End Expected.

Module Independence.
Import GoString OS Bufio.

(** Two writers with the same buffer and the same kept error, over file
    systems that hold the same bytes of the file [name] under the same
    limit: they differ in the other files and in the calls made so far. *)
Definition alike (name : string) (b b' : Writer) : Prop :=
  buf b = buf b' /\ err b = err b'
  /\ quota (under b) !! name = quota (under b') !! name
  /\ content name (under b) = content name (under b').

(** The call does the same on writers that are alike: the same result,
    and writers that are alike again; and it leaves the texts of the
    system's errors as they are. *)
Definition agrees (name : string) (op : call) : Prop :=
  forall b b',
    alike name b b' ->
    fst (op b) = fst (op b')
    /\ alike name (snd (op b)) (snd (op b'))
    /\ strerror (under (snd (op b))) = strerror (under b).

End Independence.

(** ** [encoding/csv]: the reader of the package the file was written with *)

Module CsvReader.
Import GoString GoInt Decoder Csv Reader.

(** What [readLine] does to the ends of the lines, over the whole text:
    the text is cut behind every line feed, and a carriage return
    immediately before the line feed of its line is dropped ("normalize
    \r\n to \n on all input lines"), inside quotes as well as outside;
    a carriage return that ends a text with no final line feed is dropped
    too. *)
Fixpoint readLines (text : string) : string :=
  match text with
  | EmptyString => ""
  | String c rest =>
      if Ascii.eqb c CR then
        match rest with
        | EmptyString => ""
        | String next _ =>
            if Ascii.eqb next LF then readLines rest
            else String c (readLines rest)
        end
      else String c (readLines rest)
  end.

(** Where [readRecord] is in a line: at the start of a field, inside a
    field without quotes, inside a quoted field, or behind a quote seen
    inside a quoted field. *)
Inductive position : Type :=
| AtField
| InField
| InQuotes
| AfterQuote.

(** The loop of [readRecord] over the lines [readLines] gives, for a
    reader with the fields of [csv.NewReader]: the delimiter [,], no
    comment byte, no lazy quotes, no trimming.  [field] is the field being
    read and [record] the fields of the current record read so far.  A
    line that is empty where a record starts is skipped; a field that
    does not start with a quote runs to the next delimiter or to the end
    of the line and holds no quote ([ErrBareQuote]); a quoted field runs
    over the ends of lines to a quote that no quote follows, and what
    follows that quote is a delimiter or the end of the line
    ([ErrQuote]). *)
Fixpoint readRecords (at_ : position) (field : string) (record : list string)
    (text : string) : option (list (list string)) :=
  match text with
  | EmptyString =>
      match at_ with
      | InQuotes => None
      | AtField =>
          match record with
          | [] => Some []
          | _ => Some [record ++ [""]]
          end
      | InField | AfterQuote => Some [record ++ [field]]
      end
  | String c rest =>
      match at_ with
      | AtField =>
          if Ascii.eqb c quote then readRecords InQuotes "" record rest
          else if Ascii.eqb c comma
          then readRecords AtField "" (record ++ [""]) rest
          else if Ascii.eqb c LF then
            match record with
            | [] => readRecords AtField "" [] rest
            | _ =>
                and_records (record ++ [""]) (readRecords AtField "" [] rest)
            end
          else readRecords InField (String c "") record rest
      | InField =>
          if Ascii.eqb c comma
          then readRecords AtField "" (record ++ [field]) rest
          else if Ascii.eqb c LF
          then and_records (record ++ [field]) (readRecords AtField "" [] rest)
          else if Ascii.eqb c quote then None
          else readRecords InField (field +:+ String c "") record rest
      | InQuotes =>
          if Ascii.eqb c quote then readRecords AfterQuote field record rest
          else readRecords InQuotes (field +:+ String c "") record rest
      | AfterQuote =>
          if Ascii.eqb c quote
          then readRecords InQuotes (field +:+ String quote "") record rest
          else if Ascii.eqb c comma
          then readRecords AtField "" (record ++ [field]) rest
          else if Ascii.eqb c LF
          then and_records (record ++ [field]) (readRecords AtField "" [] rest)
          else None
      end
  end.

(** [csv.NewReader(file).ReadAll()]: the records of the text, or [None]
    for an error.  [FieldsPerRecord] is 0, so every record has as many
    fields as the first one ([ErrFieldCount]). *)
Definition ReadAll (text : string) : option (list (list string)) :=
  match readRecords AtField "" [] (readLines text) with
  | Some (first :: others) =>
      if forallb (fun r => Nat.eqb (length r) (length first)) others
      then Some (first :: others)
      else None
  | result => result
  end.

(** The vehicles of a CSV file read with [ReadAll]: the records after the
    header row, the cylinders column parsed as an integer. *)
Definition vehicles_of_file (text : string) : option (list Vehicle) :=
  match ReadAll text with
  | Some (_ :: rows) => vehicles_of_rows rows
  | _ => None
  end.

(** A text with every carriage return that a line feed follows taken
    out. *)
Fixpoint lf_only (s : string) : string :=
  match s with
  | EmptyString => ""
  | String c rest =>
      if Ascii.eqb c CR && has_prefix (String LF "") rest then lf_only rest
      else String c (lf_only rest)
  end.

(** The vehicle with its text fields so changed. *)
Definition lf_only_vehicle (v : Vehicle) : Vehicle :=
  {| Make := lf_only (Make v); Model := lf_only (Model v);
     Year := lf_only (Year v); Cylinders := Cylinders v |}.

(** CR LF. *)
Definition CRLF : string := String CR (String LF "").

(** No text field of the vehicle holds a carriage return that a line feed
    follows. *)
Definition crlf_free (v : Vehicle) : bool :=
  negb (contains CRLF (Make v)) && negb (contains CRLF (Model v))
  && negb (contains CRLF (Year v)).

End CsvReader.

Module RoundTripSamples.
Import GoString GoInt Float64 Json Decoder Csv Response.

(** The body
    [{"records":[{"fields":{"make":"a\r\nb","model":"Corolla","year":"2020","cylinders":4}}]}]:
    the make holds a carriage return and a line feed. *)
Definition two_line_make_text : syntax :=
  SObject [("records",
            SArray [SObject [("fields",
              SObject [("make", SString ("a" +:+ String CR (String LF "b")));
                       ("model", SString "Corolla");
                       ("year", SString "2020");
                       ("cylinders", SNumber (Fits (of_Z 4)))])]])].

(** The body [{"records":[{"fields":{...}}]}] with the spec's complete
    element. *)
Definition one_record_text : syntax :=
  SObject [("records", SArray [SObject [("fields", toyota_text)]])].

Definition two_line_make : Vehicle :=
  {| Make := "a" +:+ String CR (String LF "b"); Model := "Corolla";
     Year := "2020"; Cylinders := 4 |}.

End RoundTripSamples.

(** * Properties *)

(** ** Strings *)

Section StringFacts.
Import GoString.

Lemma append_assoc (a b c : string) : (a +:+ b) +:+ c = a +:+ b +:+ c.
Proof. induction a as [|x a IH]; simpl; [reflexivity | now rewrite IH]. Qed.

Lemma append_empty_r (a : string) : a +:+ "" = a.
Proof. induction a as [|x a IH]; simpl; [reflexivity | now rewrite IH]. Qed.

Lemma is_empty_true (s : string) : is_empty s = true <-> s = "".
Proof. destruct s; simpl; split; congruence. Qed.

Lemma is_empty_false (s : string) : is_empty s = false <-> s <> "".
Proof. destruct s; simpl; split; congruence. Qed.

Lemma contains_byte_append (c : ascii) (a b : string) :
  contains_byte c (a +:+ b) = contains_byte c a || contains_byte c b.
Proof.
  induction a as [|x a IH]; simpl; [reflexivity|].
  destruct (Ascii.eqb x c); [reflexivity | exact IH].
Qed.

Lemma split_nonempty (sep : ascii) (s : string) : split sep s <> [].
Proof.
  destruct s as [|c s]; simpl; [discriminate|].
  destruct (Ascii.eqb c sep); [discriminate|].
  destruct (split sep s); discriminate.
Qed.

(** A string without the separator is one piece. *)
Lemma split_no_sep (sep : ascii) (s : string) :
  contains_byte sep s = false -> split sep s = [s].
Proof.
  induction s as [|c s IH]; simpl; [reflexivity|].
  destruct (Ascii.eqb c sep); [discriminate|].
  intros H. now rewrite (IH H).
Qed.

(** Splitting cuts at the first separator. *)
Lemma split_append_sep (sep : ascii) (a b : string) :
  contains_byte sep a = false ->
  split sep (a +:+ String sep b) = a :: split sep b.
Proof.
  induction a as [|c a IH]; simpl.
  - intros _. now rewrite Ascii.eqb_refl.
  - destruct (Ascii.eqb c sep); [discriminate|].
    intros H. now rewrite (IH H).
Qed.

End StringFacts.

(** ** QueryBuilder *)

Section QueryFacts.
Import GoString GoInt Query.

Lemma uint_digits_no_sep (d : Decimal.uint) :
  contains_byte "&"%char (NilEmpty.string_of_uint d) = false.
Proof. induction d; simpl; assumption || reflexivity. Qed.

(** A rendered integer holds digits and a sign only. *)
Lemma Itoa_no_sep (n : Z) : contains_byte "&"%char (Itoa n) = false.
Proof.
  unfold Itoa, NilZero.string_of_int, NilZero.string_of_uint.
  destruct (Z.to_int n) as [d|d]; destruct d; simpl;
    reflexivity || apply uint_digits_no_sep.
Qed.

Lemma join_clauses_app (xs ys : list string) :
  join_clauses (xs ++ ys) = join_clauses xs +:+ join_clauses ys.
Proof.
  induction xs as [|x xs IH]; simpl; [reflexivity|].
  now rewrite IH, append_assoc.
Qed.

Lemma split_join_clauses (first : string) (cs : list string) :
  contains_byte "&"%char first = false ->
  Forall no_separator cs ->
  split "&"%char (first +:+ join_clauses cs) = first :: cs.
Proof.
  intros Hfirst Hcs. revert first Hfirst.
  induction Hcs as [|c cs Hc _ IH]; intros first Hfirst; simpl.
  - rewrite append_empty_r. now apply split_no_sep.
  - rewrite split_append_sep by assumption. now rewrite IH.
Qed.

Lemma join_optional (present : bool) (key value : string) :
  join_clauses (optional present (key +:+ value))
  = if present then "&" +:+ key +:+ value else "".
Proof. destruct present; simpl; [now rewrite append_empty_r | reflexivity]. Qed.

(** The URL is the base followed by the expected clauses, for every
    criteria. *)
Lemma QueryBuilder_join (c : FilterCriteria) :
  QueryBuilder c = baseURL +:+ join_clauses (expected_clauses c).
Proof.
  unfold QueryBuilder, apiURL, expected_clauses, rows_value.
  rewrite !join_clauses_app, !join_optional.
  change (join_clauses ["rows=" +:+ Itoa (if resultLimit c =? 0 then 10 else resultLimit c)])
    with ("&rows=" +:+ Itoa (if resultLimit c =? 0 then 10 else resultLimit c) +:+ "").
  destruct (resultLimit c =? 0), (is_empty (sortField c)), (is_empty (make c)),
    (is_empty (model c)), (year c =? 0), (cylinders c =? 0);
    cbn [negb]; rewrite ?append_assoc, ?append_empty_r; reflexivity.
Qed.

Lemma expected_clauses_no_separator (c : FilterCriteria) :
  no_separator (sortField c) -> no_separator (make c) ->
  no_separator (model c) ->
  Forall no_separator (expected_clauses c).
Proof.
  unfold no_separator, expected_clauses, optional. intros Hs Hm Hmo.
  repeat apply Forall_app_2;
    repeat match goal with
      | |- Forall _ (if ?b then _ else _) => destruct b
      | |- Forall _ [] => constructor
      | |- Forall _ (_ :: _) => constructor
      end;
    unfold no_separator; rewrite ?contains_byte_append, ?Itoa_no_sep;
    rewrite ?Hs, ?Hm, ?Hmo; reflexivity.
Qed.

Lemma query_clauses_QueryBuilder (c : FilterCriteria) :
  no_separator (sortField c) -> no_separator (make c) ->
  no_separator (model c) ->
  query_clauses (QueryBuilder c)
  = "dataset=all-vehicles-model" :: "q=" :: expected_clauses c.
Proof.
  intros Hs Hm Hmo. rewrite QueryBuilder_join. unfold query_clauses.
  change (after_first "?"%char (baseURL +:+ join_clauses (expected_clauses c)))
    with ("dataset=all-vehicles-model"
          +:+ join_clauses ("q=" :: expected_clauses c)).
  apply split_join_clauses; [reflexivity|].
  constructor; [reflexivity|]. now apply expected_clauses_no_separator.
Qed.

Lemma clause_presence_of_clauses (c : FilterCriteria) :
  query_clauses (QueryBuilder c)
  = "dataset=all-vehicles-model" :: "q=" :: expected_clauses c ->
  clause_presence c.
Proof.
  intros Heq. unfold clause_presence, has_clause. cbv zeta. rewrite Heq.
  unfold expected_clauses, optional.
  rewrite <- !is_empty_false, <- !Z.eqb_neq.
  destruct (is_empty (sortField c)), (is_empty (make c)),
    (is_empty (model c)), (year c =? 0), (cylinders c =? 0);
    cbn; repeat split; congruence.
Qed.

(** For every criteria the URL is the base followed by the clauses
    appended, rows first and then the optional ones in their order, and
    the clauses appended hold one of a key exactly when the field of that
    key is set. *)
Theorem QueryBuilder_appended_clauses (c : FilterCriteria) :
  QueryBuilder c = baseURL +:+ join_clauses (expected_clauses c)
  /\ hd_error (expected_clauses c) = Some ("rows=" +:+ Itoa (rows_value c))
  /\ (existsb (has_prefix "sort=") (expected_clauses c) = true
      <-> sortField c <> "")
  /\ (existsb (has_prefix "refine.make=") (expected_clauses c) = true
      <-> make c <> "")
  /\ (existsb (has_prefix "refine.model=") (expected_clauses c) = true
      <-> model c <> "")
  /\ (existsb (has_prefix "refine.year=") (expected_clauses c) = true
      <-> year c <> 0)
  /\ (existsb (has_prefix "refine.cylinders=") (expected_clauses c) = true
      <-> cylinders c <> 0).
Proof.
  split; [apply QueryBuilder_join|]. split; [reflexivity|].
  unfold expected_clauses, optional.
  rewrite <- !is_empty_false, <- !Z.eqb_neq.
  destruct (is_empty (sortField c)), (is_empty (make c)),
    (is_empty (model c)), (year c =? 0), (cylinders c =? 0);
    cbn; repeat split; congruence.
Qed.

(** C1, as amended: when no free-text field holds a [&], the clauses of the
    built URL are the two fixed ones of the base followed by rows (the
    limit, or 10 when it is 0), sort, make, model, year and cylinders in
    that order, each optional one present exactly when its field is
    non-empty or non-zero; and for every such criteria the URL is the base
    followed by those clauses. *)
Theorem QueryBuilder_clauses (c : FilterCriteria) :
  no_separator (sortField c) -> no_separator (make c) ->
  no_separator (model c) ->
  QueryBuilder c = baseURL +:+ join_clauses (expected_clauses c)
  /\ query_clauses (QueryBuilder c)
     = "dataset=all-vehicles-model" :: "q=" :: expected_clauses c
  /\ clause_presence c
  /\ In ("rows=" +:+ Itoa (if resultLimit c =? 0 then 10 else resultLimit c))
       (query_clauses (QueryBuilder c)).
Proof.
  intros Hs Hm Hmo.
  pose proof (query_clauses_QueryBuilder c Hs Hm Hmo) as Heq.
  split; [apply QueryBuilder_join|].
  split; [exact Heq|].
  split; [now apply clause_presence_of_clauses|].
  rewrite Heq. right. right. left. reflexivity.
Qed.

Lemma QueryBuilder_clauses_witness :
  QueryBuilder honda_criteria
  = "https://public.opendatasoft.com/api/records/1.0/search/?dataset=all-vehicles-model&q=&rows=5&sort=year&refine.make=Honda&refine.year=2015&refine.cylinders=4"
  /\ query_clauses (QueryBuilder honda_criteria)
     = ["dataset=all-vehicles-model"; "q="; "rows=5"; "sort=year";
        "refine.make=Honda"; "refine.year=2015"; "refine.cylinders=4"]
  /\ clause_presence honda_criteria
  /\ In "rows=5" (query_clauses (QueryBuilder honda_criteria)).
Proof.
  exact (QueryBuilder_clauses honda_criteria eq_refl eq_refl eq_refl).
Defined.

(** C1 fails as stated: a make that holds the text of a model clause puts a
    model clause in the URL although the model field is empty. *)
Lemma QueryBuilder_embedded_clause :
  QueryBuilder embedded_clause_criteria
  = "https://public.opendatasoft.com/api/records/1.0/search/?dataset=all-vehicles-model&q=&rows=10&refine.make=Audi&refine.model=A4"
  /\ model embedded_clause_criteria = ""
  /\ has_clause "refine.model" (QueryBuilder embedded_clause_criteria) = true
  /\ contains "&refine.model=A4" (QueryBuilder embedded_clause_criteria) = true
  /\ ~ clause_presence embedded_clause_criteria.
Proof.
  repeat split; try reflexivity.
  intros (_ & _ & [Hmodel _] & _). now apply Hmodel.
Qed.

End QueryFacts.

(** ** The conversion [int(x)] *)

Section Float64Facts.
Import GoInt Float64.

Lemma in_rangeb_spec (n : Z) : in_rangeb n = true <-> in_range n.
Proof. unfold in_rangeb, in_range. rewrite andb_true_iff, !Z.leb_le. tauto. Qed.

Lemma Qle_bool_inject_Z (z : Z) : 0 <= z -> Qle_bool 0 (inject_Z z) = true.
Proof. intros H. apply Qle_bool_iff. unfold Qle; simpl. lia. Qed.

Lemma round_toward_zero_inject_Z (z : Z) :
  0 <= z ->
  round_toward_zero (inject_Z z) = z
  /\ round_toward_zero (- inject_Z z) = - z.
Proof.
  intros Hz. unfold round_toward_zero. split.
  - rewrite Qle_bool_inject_Z by assumption. apply Qfloor_Z.
  - destruct (Qle_bool 0 (- inject_Z z)) eqn:Hle.
    + apply Qle_bool_iff in Hle. unfold Qle in Hle; simpl in Hle.
      assert (z = 0) by lia. subst z. reflexivity.
    + unfold Qceiling. rewrite Qopp_involutive. now rewrite Qfloor_Z.
Qed.

Lemma round_toward_zero_fraction (m d : positive) :
  round_toward_zero (Z.pos m # d) = Z.pos m / Z.pos d
  /\ round_toward_zero (- (Z.pos m # d)) = - (Z.pos m / Z.pos d).
Proof.
  unfold round_toward_zero. split; reflexivity.
Qed.

(** [truncate] rounds the value of a finite [float64] toward zero. *)
Lemma truncate_rounds_toward_zero (x : float64) (q : Q) :
  value x = Some q -> truncate x = Some (round_toward_zero q).
Proof.
  destruct x as [s|s| |s m e]; simpl; try discriminate.
  - intros [= <-]. reflexivity.
  - intros [= <-]. f_equal. destruct e as [|p|k].
    + change (0 <=? 0) with true. cbv iota.
      destruct (round_toward_zero_inject_Z (Z.pos m * 2 ^ 0)) as [Hpos Hneg];
        [lia|].
      destruct s; [rewrite Hneg | rewrite Hpos]; lia.
    + change (0 <=? Z.pos p) with true. cbv iota.
      destruct (round_toward_zero_inject_Z (Z.pos m * 2 ^ Z.pos p))
        as [Hpos Hneg]; [lia|].
      destruct s; [rewrite Hneg | rewrite Hpos]; lia.
    + change (0 <=? Z.neg k) with false. cbv iota.
      change (- Z.neg k) with (Z.pos k).
      destruct (round_toward_zero_fraction m (2 ^ k)) as [Hpos Hneg].
      rewrite Pos2Z.inj_pow in Hpos, Hneg.
      assert (0 < 2 ^ Z.pos k) by lia.
      destruct s.
      * rewrite Hneg. change (Z.neg m) with (- Z.pos m).
        rewrite Z.quot_opp_l by lia. rewrite Z.quot_div_nonneg by lia.
        reflexivity.
      * rewrite Hpos. now rewrite Z.quot_div_nonneg by lia.
Qed.

(** Within the range of [int], [int(x)] is the value rounded toward zero. *)
Lemma to_int_rounds_toward_zero (x : float64) (q : Q) :
  value x = Some q -> in_range (round_toward_zero q) ->
  to_int x = round_toward_zero q.
Proof.
  intros Hv Hr. unfold to_int. rewrite (truncate_rounds_toward_zero x q Hv).
  apply in_rangeb_spec in Hr. now rewrite Hr.
Qed.

(** [int(x)] is an [int], whatever [x]. *)
Lemma to_int_in_range (x : float64) : in_range (to_int x).
Proof.
  unfold to_int. destruct (truncate x) as [n|].
  - destruct (in_rangeb n) eqn:Hn; [now apply in_rangeb_spec|].
    unfold in_range, min_int, max_int. lia.
  - unfold in_range, min_int, max_int. lia.
Qed.

(** [int(x)] is always an [int], and it is the value of [x] rounded
    toward zero whenever that is an [int]. *)
Theorem to_int_total (x : float64) :
  in_range (to_int x)
  /\ forall q, value x = Some q -> in_range (round_toward_zero q) ->
               to_int x = round_toward_zero q.
Proof.
  split; [apply to_int_in_range | apply to_int_rounds_toward_zero].
Qed.

End Float64Facts.

(** ** ResponseDecoder *)

Section DecoderFacts.
Import GoInt Float64 Json Decoder Response.

(** An element with a usable [fields] mapping is an object. *)
Lemma usable_fields_is_object (record : json) (data : gmap string json) :
  usable_fields record = Some data -> is_object record = true.
Proof. destruct record; simpl; congruence. Qed.

(** The loop, in one equation: it panics when some element is not an
    object, and otherwise appends the records of the usable elements, in
    their order, to what was gathered before. *)
Lemma decode_records_eq (records : list json) (vehicles : list Vehicle) :
  decode_records records vehicles
  = if forallb is_object records
    then Return (vehicles ++ map vehicle_of_fields (omap usable_fields records))
    else Panic.
Proof.
  revert vehicles.
  induction records as [|record rest IH]; intros vehicles; simpl.
  - now rewrite app_nil_r.
  - destruct record as [| | | | |wrapper]; simpl; try reflexivity.
    destruct (wrapper !! "fields") as [[| | | | |data]|]; simpl;
      rewrite IH; destruct (forallb is_object rest); try reflexivity.
    now rewrite <- app_assoc.
Qed.

Lemma decode_eq (body : payload) :
  decode body
  = match Unmarshal_map body with
    | None => Fail ParseFailed
    | Some result =>
        match result !! "records" with
        | Some (JArray records) =>
            if forallb is_object records
            then Return (map vehicle_of_fields (omap usable_fields records))
            else Panic
        | _ => Fail InvalidStructure
        end
    end.
Proof.
  unfold decode. destruct (Unmarshal_map body) as [result|]; [|reflexivity].
  destruct (result !! "records") as [[| | | |records|]|]; simpl;
    try reflexivity.
  apply decode_records_eq.
Qed.

(** C2, at the failing input: the records array holds a complete element
    and then the number 42.  The second element has no usable [fields]
    mapping, yet it is not skipped: the unchecked assertion
    [record.(map[string]interface{})] of line 88 panics, and the record of
    the first element is lost with it. *)
Theorem decode_non_object_element_panics :
  usable_fields (JNumber (of_Z 42)) = None
  /\ decode non_object_element_body = Panic.
Proof. split; reflexivity. Qed.

(** Any element that is not an object makes the whole decode panic. *)
Lemma decode_records_panics (before after : list json) (record : json)
    (vehicles : list Vehicle) :
  is_object record = false ->
  decode_records (before ++ record :: after) vehicles = Panic.
Proof.
  intros Hrecord. rewrite decode_records_eq, forallb_app. simpl.
  rewrite Hrecord. now rewrite andb_false_r.
Qed.

Lemma decode_records_panics_witness :
  decode_records
    ([JObject {[ "fields" := JObject toyota_fields ]}]
     ++ JNumber (of_Z 42) :: []) []
  = Panic.
Proof.
  exact (decode_records_panics
           [JObject {[ "fields" := JObject toyota_fields ]}] []
           (JNumber (of_Z 42)) [] eq_refl).
Defined.

(** An object without a usable [fields] mapping is skipped, and the
    decoding of the other elements goes on as if it were not there. *)
Lemma decode_records_skips (before after : list json) (record : json)
    (vehicles : list Vehicle) :
  is_object record = true -> usable_fields record = None ->
  decode_records (before ++ record :: after) vehicles
  = decode_records (before ++ after) vehicles.
Proof.
  intros Hobject Hfields.
  rewrite !decode_records_eq, !forallb_app, !omap_app. simpl.
  now rewrite Hobject, Hfields.
Qed.

Lemma decode_records_skips_witness :
  decode_records
    ([JObject {[ "fields" := JObject toyota_fields ]}]
     ++ JObject {[ "recordid" := JString "b2" ]} :: []) []
  = Return [toyota].
Proof.
  exact (eq_trans
           (decode_records_skips
              [JObject {[ "fields" := JObject toyota_fields ]}] []
              (JObject {[ "recordid" := JString "b2" ]}) [] eq_refl eq_refl)
           eq_refl).
Defined.

(** The spec's scenario: one complete element and one object without
    [fields] decode to the one record of the complete element. *)
Lemma decode_one_malformed : decode one_malformed_body = Return [toyota].
Proof. reflexivity. Qed.

Lemma vehicle_of_fields_eq (data : gmap string json) :
  vehicle_of_fields data
  = {| Make := fst (assert_string (data !! "make"));
       Model := fst (assert_string (data !! "model"));
       Year := fst (assert_string (data !! "year"));
       Cylinders := to_int (fst (assert_float64 (data !! "cylinders"))) |}.
Proof.
  unfold vehicle_of_fields.
  destruct (assert_string (data !! "make")), (assert_string (data !! "model")),
    (assert_string (data !! "year")), (assert_float64 (data !! "cylinders")).
  reflexivity.
Qed.

(** C3, as amended: [make], [model] and [year] are the text under their
    keys, the empty string when the key is absent or holds something else;
    [cylinders] is the number under its key rounded toward zero when that
    fits a 64-bit [int], and 0 when the key is absent or holds something
    else. *)
Theorem vehicle_of_fields_extraction (data : gmap string json) :
  let v := vehicle_of_fields data in
  (forall s, data !! "make" = Some (JString s) -> Make v = s)
  /\ ((forall s, data !! "make" <> Some (JString s)) -> Make v = "")
  /\ (forall s, data !! "model" = Some (JString s) -> Model v = s)
  /\ ((forall s, data !! "model" <> Some (JString s)) -> Model v = "")
  /\ (forall s, data !! "year" = Some (JString s) -> Year v = s)
  /\ ((forall s, data !! "year" <> Some (JString s)) -> Year v = "")
  /\ (forall x q, data !! "cylinders" = Some (JNumber x) ->
        value x = Some q -> in_range (round_toward_zero q) ->
        Cylinders v = round_toward_zero q)
  /\ ((forall x, data !! "cylinders" <> Some (JNumber x)) -> Cylinders v = 0).
Proof.
  rewrite vehicle_of_fields_eq. simpl.
  repeat split.
  - intros s ->. reflexivity.
  - intros H. destruct (data !! "make") as [[]|]; try reflexivity.
    now destruct (H s).
  - intros s ->. reflexivity.
  - intros H. destruct (data !! "model") as [[]|]; try reflexivity.
    now destruct (H s).
  - intros s ->. reflexivity.
  - intros H. destruct (data !! "year") as [[]|]; try reflexivity.
    now destruct (H s).
  - intros x q -> Hq Hr. simpl. now apply to_int_rounds_toward_zero.
  - intros H. destruct (data !! "cylinders") as [[]|]; try reflexivity.
    now destruct (H x).
Qed.

Lemma vehicle_of_fields_extraction_witness :
  Make (vehicle_of_fields toyota_fields) = "Toyota"
  /\ Model (vehicle_of_fields huge_cylinders_fields) = ""
  /\ Cylinders (vehicle_of_fields toyota_fields) = 4.
Proof.
  pose proof (vehicle_of_fields_extraction toyota_fields) as Htoyota.
  pose proof (vehicle_of_fields_extraction huge_cylinders_fields) as Hhuge.
  simpl in Htoyota, Hhuge.
  destruct Htoyota as (Hmake & _ & _ & _ & _ & _ & Hcyl & _).
  destruct Hhuge as (_ & _ & _ & Hmodel & _).
  split; [exact (Hmake "Toyota" eq_refl)|].
  split; [apply Hmodel; intros s; vm_compute; discriminate|].
  refine (Hcyl (of_Z 4) (Z.pos (2 ^ 52) # 2 ^ 50)%Q eq_refl eq_refl _).
  vm_compute. split; discriminate.
Defined.

(** C3 fails as stated: the number 10^19 is exactly a [float64], and its
    value rounded toward zero is 10^19, but [int(x)] gives the smallest
    [int]. *)
Lemma vehicle_of_fields_huge_cylinders :
  huge_cylinders_fields !! "cylinders" = Some (JNumber (of_Z (10 ^ 19)))
  /\ value (of_Z (10 ^ 19)) = Some (inject_Z (10 ^ 19))
  /\ round_toward_zero (inject_Z (10 ^ 19)) = 10 ^ 19
  /\ Cylinders (vehicle_of_fields huge_cylinders_fields) = - 2 ^ 63
  /\ Cylinders (vehicle_of_fields huge_cylinders_fields)
     <> round_toward_zero (inject_Z (10 ^ 19)).
Proof. repeat split; vm_compute; congruence. Qed.

Lemma Unmarshal_map_None (body : payload) :
  Unmarshal_map body = None
  <-> body = Unparsable \/ body = Refused
      \/ exists v, body = Document v /\ is_mapping_or_null v = false.
Proof.
  split.
  - destruct body as [| |v]; [now left | now right; left|].
    intros H. right. right. exists v. split; [reflexivity|]. now destruct v.
  - intros [->|[->|(v & -> & Hv)]]; [reflexivity | reflexivity|].
    now destruct v.
Qed.

Lemma stored_mapping (t : syntax) :
  storable t = true -> is_mapping_or_null (stored t) = is_mapping_text t.
Proof. destruct t as [| |[x|]| | |]; try reflexivity. discriminate. Qed.

(** C4, as amended: the decoder returns the parse error exactly when
    [json.Unmarshal] refuses the body for the map: the body is not a JSON
    text, it holds a number that fits no [float64], or its top level is
    neither an object nor null; for a JSON text that is so when it is
    nested deeper than the decoder goes, when one of its numbers is out of
    range, or when its top level is something else than an object or
    null.  The decoder returns the structure error exactly when the top
    level it stored holds no sequence under [records]; it returns no other
    error; and when every element of the records sequence is an object it
    returns the records of the usable elements. *)
Theorem decode_failures (body : payload) :
  (decode body = Fail ParseFailed
   <-> body = Unparsable \/ body = Refused
       \/ exists v, body = Document v /\ is_mapping_or_null v = false)
  /\ (forall t : syntax,
        decode (read t) = Fail ParseFailed
        <-> (maxNestingDepth < depth t)%nat \/ storable t = false
            \/ is_mapping_text t = false)
  /\ (decode body = Fail InvalidStructure
      <-> exists result, Unmarshal_map body = Some result
          /\ forall records, result !! "records" <> Some (JArray records))
  /\ (forall e, decode body = Fail e -> e = ParseFailed \/ e = InvalidStructure)
  /\ (forall result records,
        Unmarshal_map body = Some result ->
        result !! "records" = Some (JArray records) ->
        forallb is_object records = true ->
        decode body
        = Return (map vehicle_of_fields (omap usable_fields records))).
Proof.
  assert (Hparse : forall b : payload,
             decode b = Fail ParseFailed <-> Unmarshal_map b = None).
  { intros b. rewrite decode_eq.
    destruct (Unmarshal_map b) as [result|]; [|tauto].
    split; [|discriminate].
    destruct (result !! "records") as [[| | | |records|]|]; try discriminate.
    destruct (forallb is_object records); discriminate. }
  split; [now rewrite Hparse, Unmarshal_map_None|].
  split.
  { intros t. rewrite Hparse, Unmarshal_map_None. unfold read.
    destruct (Nat.ltb maxNestingDepth (depth t)) eqn:Hdeep.
    - apply Nat.ltb_lt in Hdeep. split; [now left | now left].
    - apply Nat.ltb_ge in Hdeep.
      destruct (storable t) eqn:Hstorable.
      + split.
        * intros [H|[H|(v & [= <-] & Hv)]]; try discriminate.
          right. right. now rewrite stored_mapping in Hv.
        * intros [H|[H|H]]; [lia | discriminate|].
          right. right. exists (stored t). split; [reflexivity|].
          now rewrite stored_mapping.
      + split; [now right; left | now right; left]. }
  rewrite decode_eq.
  destruct (Unmarshal_map body) as [result|].
  - repeat split.
    + intros H. exists result. split; [reflexivity|]. intros records Hr.
      rewrite Hr in H. destruct (forallb is_object records); discriminate.
    + intros (result' & [= <-] & Hno).
      destruct (result !! "records") as [[| | | |records|]|];
        try reflexivity.
      now destruct (Hno records).
    + intros e. destruct (result !! "records") as [[| | | |records|]|];
        try (intros [= <-]; now right).
      destruct (forallb is_object records); discriminate.
    + intros result' records [= <-] -> ->. reflexivity.
  - repeat split; try discriminate.
    + intros (result & Hresult & _). discriminate.
    + intros e [= <-]. now left.
Qed.

Lemma decode_failures_witness :
  decode one_malformed_body = Return [toyota].
Proof.
  destruct (decode_failures one_malformed_body) as (_ & _ & _ & _ & Hreturn).
  exact (Hreturn _ _ eq_refl eq_refl eq_refl).
Defined.

(** C4 fails as stated: a body whose top level is a sequence is a JSON
    text, and so is a body with an object at the top, a sequence of
    objects under [records] and a number too large for a [float64] in
    it; the decoder answers both with the parse error, the one the spec
    names MalformedPayload, and not with the structure error. *)
Lemma decode_top_level_array :
  top_level_array_body <> Unparsable
  /\ decode top_level_array_body = Fail ParseFailed
  /\ read top_level_array_text = top_level_array_body
  /\ (depth huge_number_text <= maxNestingDepth)%nat
  /\ decode (read huge_number_text) = Fail ParseFailed
  /\ classify ParseFailed = MalformedPayload
  /\ decode top_level_array_body <> Fail InvalidStructure.
Proof.
  repeat split; try discriminate; try reflexivity.
  apply Nat.leb_le. reflexivity.
Qed.

End DecoderFacts.

(** ** Fetcher *)

Section FetcherFacts.
Import GoInt Json Decoder Fetcher.

(** C5, as amended: the fetch succeeds exactly when the response has status
    200 and its body was read to the end; every other status code, the
    other codes of the class 2xx too, gives the status error carrying that
    code; a transport failure or an unreadable body gives a transport
    error. *)
Theorem fetch_outcomes (reply : http_reply) :
  ((exists body, fetch reply = Return body)
   <-> exists body, reply = Response 200 (Complete body))
  /\ (forall code stream, reply = Response code stream -> code <> 200 ->
      fetch reply = Fail (ApiStatus code)
      /\ classify (ApiStatus code) = RemoteStatus code)
  /\ (forall detail, reply = TransportFailure detail ->
      exists e, fetch reply = Fail e /\ classify e = Transport)
  /\ (forall detail, reply = Response 200 (ReadFailure detail) ->
      exists e, fetch reply = Fail e /\ classify e = Transport)
  /\ fetch reply <> Panic.
Proof.
  repeat split.
  - intros [body H]. destruct reply as [detail|code [detail|body']]; simpl in H;
      try discriminate.
    + destruct (code =? StatusOK); discriminate.
    + destruct (code =? StatusOK) eqn:Hcode; [|discriminate].
      apply Z.eqb_eq in Hcode. subst code. now exists body'.
  - intros [body ->]. now exists body.
  - subst reply. simpl. apply Z.eqb_neq in H0. unfold StatusOK.
    now rewrite H0.
  - intros detail ->. now eexists.
  - intros detail ->. now eexists.
  - destruct reply as [detail|code [detail|body']]; simpl; try discriminate;
      destruct (code =? StatusOK); discriminate.
Qed.

Lemma fetch_outcomes_witness :
  fetch (Response 404 (Complete no_records_body)) = Fail (ApiStatus 404)
  /\ classify (ApiStatus 404) = RemoteStatus 404.
Proof.
  destruct (fetch_outcomes (Response 404 (Complete no_records_body)))
    as (_ & Hstatus & _).
  apply (Hstatus 404 (Complete no_records_body) eq_refl). discriminate.
Defined.

(** C5 fails as stated: 203 is a success status of HTTP, and a response
    that carries it with a complete body is answered with the status
    error. *)
Lemma fetch_status_203 :
  http_success 203 = true
  /\ fetch (Response 203 (Complete one_malformed_body)) = Fail (ApiStatus 203)
  /\ classify (ApiStatus 203) = RemoteStatus 203.
Proof. repeat split. Qed.

End FetcherFacts.

(** ** The buffered writer on a file that accepts every write *)

Section BufioFacts.
Import GoString OS Bufio.
Variable name : string.

Lemma length_append (a b : string) :
  String.length (a +:+ b) = (String.length a + String.length b)%nat.
Proof. induction a as [|c a IH]; simpl; [reflexivity | now rewrite IH]. Qed.

Lemma substring_all (s : string) : substring 0 (String.length s) s = s.
Proof. induction s as [|c s IH]; simpl; [reflexivity | now rewrite IH]. Qed.

Lemma substring_split (n : nat) (s : string) :
  (n <= String.length s)%nat -> substring 0 n s +:+ drop n s = s.
Proof.
  unfold drop. revert n. induction s as [|c s IH]; intros [|n] Hn; simpl in *;
    try reflexivity; try lia.
  - now rewrite substring_all.
  - rewrite IH by lia. reflexivity.
Qed.

Lemma drop_all (s : string) : drop (String.length s) s = "".
Proof.
  unfold drop. rewrite Nat.sub_diag.
  induction s as [|c s IH]; simpl; [reflexivity | exact IH].
Qed.

Lemma same_elsewhere_refl (f : FileSystem) : same_elsewhere name f f.
Proof. repeat split. Qed.

Lemma same_elsewhere_trans (f g h : FileSystem) :
  same_elsewhere name f g -> same_elsewhere name g h ->
  same_elsewhere name f h.
Proof.
  intros (Hd & Hq & Hk) (Hd' & Hq' & Hk'). repeat split; try congruence.
  intros other Hother. now rewrite Hk', Hk.
Qed.

(** A write to a file without a limit takes all the bytes. *)
Lemma Write_unlimited (data : string) (f : FileSystem) :
  quota f !! name = None ->
  exists f', OS.Write name data f = (String.length data, f')
             /\ content name f' = content name f +:+ data
             /\ quota f' !! name = None
             /\ same_elsewhere name f f'.
Proof.
  intros Hq. unfold OS.Write, room. rewrite Hq. eexists. split; [reflexivity|].
  unfold content at 1. simpl. rewrite lookup_insert_eq. simpl.
  rewrite substring_all. repeat split; try assumption.
  intros other Hother. simpl. now rewrite lookup_insert_ne.
Qed.

Lemma emits_skip : emits name "" skip.
Proof.
  intros b Hb. exists b. repeat split; try apply Hb.
  now rewrite append_empty_r.
Qed.

Lemma emits_and_then (d1 d2 : string) (op1 op2 : call) :
  emits name d1 op1 -> emits name d2 op2 ->
  emits name (d1 +:+ d2) (and_then op1 op2).
Proof.
  intros H1 H2 b Hb.
  destruct (H1 b Hb) as (b1 & E1 & S1 & T1 & F1).
  destruct (H2 b1 S1) as (b2 & E2 & S2 & T2 & F2).
  exists b2. unfold and_then. rewrite E1, E2.
  repeat split; try apply S2.
  - now rewrite T2, T1, append_assoc.
  - apply (same_elsewhere_trans _ _ _ F1 F2).
  - apply (same_elsewhere_trans _ _ _ F1 F2).
  - apply (same_elsewhere_trans _ _ _ F1 F2).
Qed.

(** A flush on a steady writer empties the buffer into the file. *)
Lemma Flush_steady (b : Writer) :
  steady name b ->
  exists b', Flush name b = (true, b') /\ steady name b'
             /\ buf b' = "" /\ content name (under b') = stream name b
             /\ same_elsewhere name (under b) (under b').
Proof.
  intros [He Hq]. unfold Flush. rewrite He.
  destruct (Nat.eqb (Buffered b) 0) eqn:Hn.
  - exists b. apply Nat.eqb_eq in Hn. unfold Buffered in Hn.
    assert (Hbuf : buf b = "") by (destruct (buf b); [reflexivity | discriminate]).
    repeat split; try assumption.
    unfold stream. now rewrite Hbuf, append_empty_r.
  - destruct (Write_unlimited (buf b) (under b) Hq) as (f' & -> & Hc & Hq' & Hs).
    unfold Buffered. rewrite Nat.ltb_irrefl.
    eexists. split; [reflexivity|]. repeat split; simpl; try assumption;
      apply Hs.
Qed.

Lemma emits_WriteByte (c : ascii) : emits name (String c "") (WriteByte name c).
Proof.
  intros b Hb. unfold WriteByte. rewrite (proj1 Hb).
  destruct (Nat.leb (Available b) 0).
  - destruct (Flush_steady b Hb) as (b' & -> & [He Hq] & Hbuf & Hc & Hs).
    eexists. split; [reflexivity|]. repeat split; simpl; try assumption;
      try apply Hs.
    unfold stream. simpl. now rewrite Hbuf, Hc.
  - eexists. split; [reflexivity|]. repeat split; simpl; try apply Hb.
    unfold stream. simpl. now rewrite append_assoc.
Qed.

Lemma buf_empty (b : Writer) : Nat.eqb (Buffered b) 0 = true -> buf b = "".
Proof.
  unfold Buffered. intros H. apply Nat.eqb_eq in H.
  destruct (buf b); [reflexivity | discriminate].
Qed.

(** One turn of the loop keeps the writer steady and moves bytes from the
    string to the stream. *)
Lemma WriteString_turn_steady (s : string) (b : Writer) :
  steady name b ->
  exists s' b', WriteString_turn name s b = (s', b') /\ steady name b'
                /\ stream name b' +:+ s' = stream name b +:+ s
                /\ same_elsewhere name (under b) (under b').
Proof.
  intros Hb. pose proof Hb as [He Hq].
  unfold WriteString_turn, loop_condition. rewrite He.
  destruct (Nat.ltb (Available b) (String.length s)) eqn:Hfit;
    cbn [andb negb].
  - destruct (Nat.eqb (Buffered b) 0) eqn:Hempty.
    + destruct (Write_unlimited s (under b) Hq) as (f' & -> & Hc & Hq' & Hs).
      do 2 eexists. split; [reflexivity|].
      rewrite Nat.ltb_irrefl, drop_all, append_empty_r.
      repeat split; simpl; try assumption; try apply Hs.
      unfold stream. simpl. rewrite Hc, (buf_empty b Hempty).
      now rewrite !append_empty_r.
    + apply Nat.ltb_lt in Hfit.
      set (full := {| buf := buf b +:+ substring 0 (Available b) s;
                      err := false; under := under b |}).
      destruct (Flush_steady full) as (b' & -> & Hb' & Hbuf & Hc & Hs);
        [now split|].
      do 2 eexists. split; [reflexivity|]. repeat split; try apply Hb';
        try apply Hs.
      unfold stream at 1. rewrite Hbuf, append_empty_r, Hc.
      unfold stream. simpl. rewrite !append_assoc.
      rewrite substring_split by lia. reflexivity.
  - do 2 eexists. split; [reflexivity|]. repeat split; assumption.
Qed.

Lemma emits_WriteString (s : string) : emits name s (WriteString name s).
Proof.
  intros b Hb. unfold WriteString.
  destruct (WriteString_turn_steady s b Hb) as (s1 & b1 & -> & Hb1 & T1 & F1).
  destruct (WriteString_turn_steady s1 b1 Hb1)
    as (s2 & b2 & -> & Hb2 & T2 & F2).
  rewrite (proj1 Hb2). eexists. split; [reflexivity|].
  repeat split; simpl; try apply Hb2;
    try apply (same_elsewhere_trans _ _ _ F1 F2).
  rewrite <- T1, <- T2. unfold stream. simpl. now rewrite append_assoc.
Qed.

End BufioFacts.

(** ** The CSV writer on a file that accepts every write *)

Section CsvFacts.
Import GoString OS Bufio Csv Decoder Exporters.
Variable name : string.

Lemma emits_data (d d' : string) (op : call) :
  d = d' -> emits name d op -> emits name d' op.
Proof. now intros ->. Qed.

Lemma emits_write_quoted (field chunk : string) :
  emits name (chunk +:+ quoted_body field) (write_quoted name field chunk).
Proof.
  revert chunk. induction field as [|c rest IH]; intros chunk; simpl.
  - destruct chunk as [|x chunk]; simpl.
    + apply emits_skip.
    + rewrite append_empty_r. apply emits_WriteString.
  - destruct (Ascii.eqb c quote) eqn:Hquote.
    + apply emits_and_then; [apply emits_WriteString|].
      apply (emits_and_then name
               (String quote (String quote "")) (quoted_body rest));
        [apply emits_WriteString | apply (IH "")].
    + destruct (Ascii.eqb c CR || Ascii.eqb c LF).
      * apply emits_and_then; [apply emits_WriteString|].
        apply (emits_and_then name (String c "") (quoted_body rest));
          [apply emits_WriteByte | apply (IH "")].
      * eapply emits_data; [|apply IH]. now rewrite append_assoc.
Qed.

Lemma emits_write_field (field : string) :
  emits name (field_text field) (write_field name field).
Proof.
  unfold write_field, field_text. destruct (fieldNeedsQuotes field); simpl.
  - apply (emits_and_then name (String quote "")
             (quoted_body field +:+ String quote "")).
    + apply emits_WriteByte.
    + apply emits_and_then; [apply (emits_write_quoted field "")|].
      apply emits_WriteByte.
  - apply emits_WriteString.
Qed.

Lemma emits_write_fields (n : nat) (record : list string) :
  emits name (fields_text n record) (write_fields name n record).
Proof.
  revert n. induction record as [|field rest IH]; intros n; simpl.
  - apply emits_skip.
  - apply emits_and_then.
    + destruct (Nat.ltb 0 n); [apply emits_WriteByte | apply emits_skip].
    + apply emits_and_then; [apply emits_write_field | apply IH].
Qed.

Lemma emits_Write (record : list string) :
  emits name (record_text record) (Csv.Write name record).
Proof.
  apply emits_and_then; [apply emits_write_fields | apply emits_WriteByte].
Qed.

Lemma emits_write_rows (vehicles : list Vehicle) :
  emits name (records_text (map row vehicles)) (write_rows name vehicles).
Proof.
  induction vehicles as [|v rest IH]; simpl.
  - apply emits_skip.
  - apply emits_and_then; [apply emits_Write | exact IH].
Qed.

End CsvFacts.

(** ** The system calls of the exporters *)

Section CallsFacts.
Import GoString OS Bufio Csv Decoder Exporters.
Variable name : string.

Lemma extends_refl (f : FileSystem) : extends f f.
Proof. exists []. now rewrite app_nil_r. Qed.

Lemma extends_trans (f g h : FileSystem) :
  extends f g -> extends g h -> extends f h.
Proof.
  intros [m1 H1] [m2 H2]. exists (m1 ++ m2). now rewrite H2, H1, app_assoc.
Qed.

Lemma Write_extends (data : string) (f : FileSystem) :
  extends f (snd (OS.Write name data f)).
Proof. now exists [SysWrite name data]. Qed.

Lemma grows_skip : grows skip.
Proof. intros b. apply extends_refl. Qed.

Lemma grows_and_then (op1 op2 : call) :
  grows op1 -> grows op2 -> grows (and_then op1 op2).
Proof.
  intros H1 H2 b. unfold and_then. specialize (H1 b).
  destruct (op1 b) as [[|] b1]; simpl in *; [|exact H1].
  apply (extends_trans _ _ _ H1 (H2 b1)).
Qed.

Lemma grows_Flush : grows (Flush name).
Proof.
  intros b. unfold Flush. destruct (err b); [apply extends_refl|].
  destruct (Nat.eqb (Buffered b) 0); [apply extends_refl|].
  pose proof (Write_extends (buf b) (under b)) as H.
  destruct (OS.Write name (buf b) (under b)) as [n f]. simpl in H.
  destruct (Nat.ltb n (Buffered b)); exact H.
Qed.

Lemma grows_WriteByte (c : ascii) : grows (WriteByte name c).
Proof.
  intros b. unfold WriteByte. destruct (err b); [apply extends_refl|].
  destruct (Nat.leb (Available b) 0); [|apply extends_refl].
  pose proof (grows_Flush b) as H.
  destruct (Flush name b) as [[|] b']; exact H.
Qed.

Lemma WriteString_turn_extends (s : string) (b : Writer) :
  extends (under b) (under (snd (WriteString_turn name s b))).
Proof.
  unfold WriteString_turn.
  destruct (loop_condition s b); [|apply extends_refl].
  destruct (Nat.eqb (Buffered b) 0).
  - pose proof (Write_extends s (under b)) as H.
    destruct (OS.Write name s (under b)) as [n f]. exact H.
  - match goal with |- context [Flush name ?x] =>
      pose proof (grows_Flush x) as H; destruct (Flush name x) as [ok b']
    end. exact H.
Qed.

Lemma grows_WriteString (s : string) : grows (WriteString name s).
Proof.
  intros b. unfold WriteString.
  pose proof (WriteString_turn_extends s b) as H1.
  destruct (WriteString_turn name s b) as [s1 b1].
  pose proof (WriteString_turn_extends s1 b1) as H2.
  destruct (WriteString_turn name s1 b1) as [s2 b2]. simpl in *.
  destruct (err b2); apply (extends_trans _ _ _ H1 H2).
Qed.

Lemma grows_write_quoted (field chunk : string) :
  grows (write_quoted name field chunk).
Proof.
  revert chunk. induction field as [|c rest IH]; intros chunk; simpl.
  - destruct (is_empty chunk); [apply grows_skip | apply grows_WriteString].
  - destruct (Ascii.eqb c quote);
      [|destruct (Ascii.eqb c CR || Ascii.eqb c LF)];
      repeat apply grows_and_then;
      auto using grows_WriteString, grows_WriteByte.
Qed.

Lemma grows_Write (record : list string) : grows (Csv.Write name record).
Proof.
  unfold Csv.Write. apply grows_and_then; [|apply grows_WriteByte].
  generalize 0%nat. induction record as [|field rest IH]; intros n; simpl.
  - apply grows_skip.
  - apply grows_and_then;
      [destruct (Nat.ltb 0 n); [apply grows_WriteByte | apply grows_skip]|].
    apply grows_and_then; [|apply IH].
    unfold write_field. destruct (fieldNeedsQuotes field); simpl;
      repeat apply grows_and_then;
      auto using grows_WriteString, grows_WriteByte, grows_write_quoted.
Qed.

Lemma grows_write_rows (vehicles : list Vehicle) :
  grows (write_rows name vehicles).
Proof.
  induction vehicles as [|v rest IH]; simpl;
    [apply grows_skip | apply grows_and_then; [apply grows_Write | exact IH]].
Qed.

End CallsFacts.

(** ** Exporters *)

Section ExporterFacts.
Import GoString OS Bufio Csv JsonText Decoder Exporters.

Lemma Create_writable (name : string) (f : FileSystem) :
  writable name f ->
  exists f', Create name f = (true, f') /\ content name f' = ""
             /\ quota f' !! name = None /\ same_elsewhere name f f'
             /\ calls f' = calls f ++ [SysCreate name].
Proof.
  intros [Hd Hq]. unfold Create. destruct (decide (name ∈ denied f)) as [H|_];
    [contradiction|].
  eexists. split; [reflexivity|]. unfold content. simpl.
  rewrite lookup_insert_eq. repeat split; try assumption.
  intros other Hother. simpl. now rewrite lookup_insert_ne.
Qed.

Lemma Create_frame (name : string) (f : FileSystem) :
  denied (snd (Create name f)) = denied f
  /\ quota (snd (Create name f)) = quota f
  /\ calls (snd (Create name f)) = calls f ++ [SysCreate name].
Proof. unfold Create. destruct (decide (name ∈ denied f)); now simpl. Qed.

(** On a writable destination the CSV exporter returns no error and leaves
    the header and the rows of the vehicles, in their order, in the file;
    no other file changes. *)
Lemma saveVehiclesToCSV_writable (vehicles : list Vehicle) (name : string)
    (w : World) :
  writable name (fs w) ->
  exists w', saveVehiclesToCSV vehicles name w = (None, w')
             /\ content name (fs w') = csv_text vehicles
             /\ stdout w'
                = stdout w ++ ["Vehicles data saved to " +:+ name +:+ line_feed]
             /\ same_elsewhere name (fs w) (fs w').
Proof.
  intros Hw. unfold saveVehiclesToCSV.
  destruct (Create_writable name (fs w) Hw) as (f & -> & Hc & Hq & Hs & _).
  cbn [negb].
  set (b0 := {| buf := ""; err := false; under := f |}).
  assert (Hb0 : steady name b0) by now split.
  destruct (emits_Write name header b0 Hb0) as (b1 & -> & Hb1 & T1 & F1).
  cbn [negb].
  destruct (emits_write_rows name vehicles b1 Hb1) as (b2 & -> & Hb2 & T2 & F2).
  cbn [negb]. unfold deferred_Flush.
  destruct (Flush_steady name b2 Hb2) as (b3 & -> & Hb3 & Hbuf & Hc3 & F3).
  eexists. split; [reflexivity|]. simpl. split; [|split; [reflexivity|]].
  - rewrite Hc3, T2, T1. unfold stream, b0. simpl. rewrite Hc. simpl.
    unfold csv_text. simpl. reflexivity.
  - eauto using same_elsewhere_trans.
Qed.

(** On a writable destination the JSON exporter returns no error and
    leaves the document in the file. *)
Lemma saveVehiclesToJSON_writable (vehicles : list Vehicle) (name : string)
    (w : World) :
  writable name (fs w) ->
  exists w', saveVehiclesToJSON vehicles name w = (None, w')
             /\ content name (fs w') = MarshalIndent vehicles
             /\ stdout w'
                = stdout w ++ ["Vehicles data saved to " +:+ name +:+ line_feed]
             /\ same_elsewhere name (fs w) (fs w').
Proof.
  intros Hw. unfold saveVehiclesToJSON.
  destruct (Create_writable name (fs w) Hw) as (f & -> & Hc & Hq & Hs & _).
  cbn [negb].
  destruct (Write_unlimited name (MarshalIndent vehicles) f Hq)
    as (f' & -> & Hc' & Hq' & Hs').
  rewrite Nat.ltb_irrefl. eexists. split; [reflexivity|]. simpl.
  split; [|split; [reflexivity|]].
  - now rewrite Hc', Hc.
  - eauto using same_elsewhere_trans.
Qed.

(** Whatever happens, the JSON exporter asks for its file first, and
    changes neither what can be created nor the limits of the files. *)
Lemma saveVehiclesToJSON_frame (vehicles : list Vehicle) (name : string)
    (w : World) :
  let w' := snd (saveVehiclesToJSON vehicles name w) in
  denied (fs w') = denied (fs w) /\ quota (fs w') = quota (fs w)
  /\ exists more, calls (fs w') = calls (fs w) ++ SysCreate name :: more.
Proof.
  unfold saveVehiclesToJSON.
  destruct (Create_frame name (fs w)) as (Hd & Hq & Hc).
  destruct (Create name (fs w)) as [[|] f]; simpl in *.
  - destruct (Nat.ltb _ _); simpl; repeat split; try assumption;
      exists [SysWrite name (MarshalIndent vehicles)];
      rewrite Hc, <- app_assoc; reflexivity.
  - repeat split; try assumption. exists []. exact Hc.
Qed.

(** The same for the CSV exporter. *)
Lemma saveVehiclesToCSV_calls (vehicles : list Vehicle) (name : string)
    (w : World) :
  exists more,
    calls (fs (snd (saveVehiclesToCSV vehicles name w)))
    = calls (fs w) ++ SysCreate name :: more.
Proof.
  unfold saveVehiclesToCSV.
  destruct (Create_frame name (fs w)) as (_ & _ & Hc).
  destruct (Create name (fs w)) as [[|] f]; cbn [negb snd] in *;
    [|exists []; exact Hc].
  set (b0 := {| buf := ""; err := false; under := f |}).
  assert (Hext : forall b e w0,
             extends f (under b) ->
             exists more,
               calls (fs (snd (deferred_Flush name e b w0)))
               = calls (fs w) ++ SysCreate name :: more).
  { intros b e w0 Hb. unfold deferred_Flush.
    pose proof (grows_Flush name b) as Hf.
    destruct (Flush name b) as [ok b']. cbn [snd fs with_fs] in *.
    destruct (extends_trans _ _ _ Hb Hf) as [more Hmore].
    exists more. now rewrite Hmore, Hc, <- app_assoc. }
  pose proof (grows_Write name header b0) as H1.
  destruct (Csv.Write name header b0) as [[|] b1]; cbn [negb snd] in *;
    [|now apply Hext].
  pose proof (grows_write_rows name vehicles b1) as H2.
  destruct (write_rows name vehicles b1) as [[|] b2]; cbn [negb snd] in *;
    apply Hext; eauto using extends_trans.
Qed.

End ExporterFacts.

(** ** [main] *)

Section MainFacts.
Import GoString GoInt Query Decoder OS Fetcher Exporters Main.

(** Splitting cuts at every separator, whatever stands before it. *)
Lemma split_append_sep_any (sep : ascii) (a b : string) :
  split sep (a +:+ String sep b) = split sep a ++ split sep b.
Proof.
  induction a as [|c a IH]; simpl.
  - now rewrite Ascii.eqb_refl.
  - destruct (Ascii.eqb c sep); [now rewrite IH|].
    rewrite IH. pose proof (split_nonempty sep a) as Hne.
    destruct (split sep a); [contradiction | reflexivity].
Qed.

Lemma has_prefix_append (p s : string) : has_prefix p (p +:+ s) = true.
Proof.
  induction p as [|c p IH]; simpl; [reflexivity|].
  now rewrite Ascii.eqb_refl.
Qed.

(** The first piece of a string starts like the string, up to the first
    separator. *)
Lemma split_head_prefix (sep : ascii) (p s : string) :
  contains_byte sep p = false ->
  exists piece pieces,
    split sep (p +:+ s) = piece :: pieces /\ has_prefix p piece = true.
Proof.
  induction p as [|c p IH]; simpl.
  - intros _. pose proof (split_nonempty sep s) as Hne.
    destruct (split sep s) as [|piece pieces]; [contradiction|].
    now exists piece, pieces.
  - destruct (Ascii.eqb c sep); [discriminate|]. intros Hp.
    destruct (IH Hp) as (piece & pieces & -> & Hpre).
    exists (String c piece), pieces. split; [reflexivity|]. simpl.
    now rewrite Ascii.eqb_refl.
Qed.

(** A URL made of the base, anything, and then [&key=...] has a clause for
    [key]. *)
Lemma has_clause_appended (middle key rest : string) :
  contains_byte "&"%char key = false ->
  has_clause key (baseURL +:+ middle +:+ "&" +:+ key +:+ "=" +:+ rest) = true.
Proof.
  intros Hkey. unfold has_clause, query_clauses.
  change (after_first "?"%char
            (baseURL +:+ middle +:+ "&" +:+ key +:+ "=" +:+ rest))
    with ("dataset=all-vehicles-model&q="
          +:+ middle +:+ String "&"%char (key +:+ "=" +:+ rest)).
  rewrite <- append_assoc, split_append_sep_any, existsb_app.
  destruct (split_head_prefix "&"%char (key +:+ "=") rest) as
    (piece & pieces & Hpieces & Hpre).
  { rewrite contains_byte_append, Hkey. reflexivity. }
  rewrite append_assoc in Hpieces. rewrite Hpieces. simpl. rewrite Hpre.
  now rewrite orb_true_r.
Qed.

(** A non-empty make puts a make clause in the URL, whatever the other
    fields hold. *)
Lemma make_clause_present (c : FilterCriteria) :
  make c <> "" -> has_clause "refine.make" (QueryBuilder c) = true.
Proof.
  intros Hmake. apply is_empty_false in Hmake.
  rewrite QueryBuilder_join. unfold expected_clauses.
  rewrite !join_clauses_app, Hmake. cbn [negb optional].
  set (rows := join_clauses [_]).
  set (sorting := join_clauses (optional _ ("sort=" +:+ _))).
  set (later := join_clauses (optional _ ("refine.model=" +:+ _)) +:+ _).
  change (join_clauses ["refine.make=" +:+ make c])
    with ("&" +:+ "refine.make" +:+ "=" +:+ make c +:+ "").
  rewrite <- (append_assoc rows sorting).
  rewrite !(append_assoc "&"), !(append_assoc "refine.make"),
    !(append_assoc "="), !(append_assoc (make c)).
  apply has_clause_appended. reflexivity.
Qed.

Lemma ask_int_total (prompt complaint : string) (accepted : Z -> bool)
    (input : stdin) (w : World) :
  accepted 0 = true ->
  exists x rest w', ask_int prompt complaint accepted input w
                    = Some (x, rest, w')
                    /\ accepted x = true.
Proof.
  intros H0. revert w. induction input as [|found input IH]; intros w; simpl.
  - rewrite H0. eauto.
  - destruct (accepted (default 0 (number found))) eqn:Hx; [eauto|].
    apply IH.
Qed.

Lemma ask_sort_total (input : stdin) (w : World) :
  exists sort rest w', ask_sort input w = Some (sort, rest, w')
                       /\ sort_accepted sort = true.
Proof.
  revert w. induction input as [|found input IH]; intros w; simpl.
  - eauto.
  - fold (sort_accepted (default "" (text found))).
    destruct (sort_accepted (default "" (text found))) eqn:Hs; [eauto|].
    apply IH.
Qed.

Lemma sort_accepted_no_separator (sort : string) :
  sort_accepted sort = true -> no_separator sort.
Proof.
  unfold sort_accepted. rewrite !orb_true_iff, is_empty_true, !String.eqb_eq.
  intros [[[[->| ->]| ->]| ->]| ->]; reflexivity.
Qed.

(** [collect] always comes to an end, with a model that is empty when the
    make is, and a sort field among the five accepted ones. *)
Lemma collect_total (input : stdin) (w : World) :
  exists c w', collect input w = Some (c, w')
               /\ (make c = "" -> model c = "")
               /\ sort_accepted (sortField c) = true
               /\ year_accepted (year c) = true
               /\ cylinders_accepted (cylinders c) = true
               /\ resultNb_accepted (resultLimit c) = true.
Proof.
  assert (Hloops : forall mk mo input2 w2,
             (mk = "" -> mo = "") ->
             exists c w',
               match ask_int "Enter the year (press Enter to skip):"
                       "Please select a year between 1980 and 2025."
                       year_accepted input2 w2 with
               | None => None
               | Some (year, input, w) =>
               match ask_int
                       "Enter the number of cylinders (press Enter to skip):"
                       "Invalid option." cylinders_accepted input w with
               | None => None
               | Some (cylinders, input, w) =>
               match ask_int
                       "Enter the maximum number of results you want (press Enter to skip):"
                       "Invalid option." resultNb_accepted input w with
               | None => None
               | Some (resultNb, input, w) =>
               match ask_sort input w with
               | None => None
               | Some (sort, input, w) =>
                   Some ({| make := mk; model := mo; sortField := sort;
                            year := year; cylinders := cylinders;
                            resultLimit := resultNb |}, w)
               end end end end = Some (c, w')
               /\ (make c = "" -> model c = "")
               /\ sort_accepted (sortField c) = true
               /\ year_accepted (year c) = true
               /\ cylinders_accepted (cylinders c) = true
               /\ resultNb_accepted (resultLimit c) = true).
  { intros mk mo input2 w2 Hmo.
    edestruct (ask_int_total "Enter the year (press Enter to skip):"
                 "Please select a year between 1980 and 2025." year_accepted
                 input2 w2) as (y & input3 & w3 & -> & Hy); [reflexivity|].
    edestruct (ask_int_total
                 "Enter the number of cylinders (press Enter to skip):"
                 "Invalid option." cylinders_accepted input3 w3)
      as (cy & input4 & w4 & -> & Hcy); [reflexivity|].
    edestruct (ask_int_total
                 "Enter the maximum number of results you want (press Enter to skip):"
                 "Invalid option." resultNb_accepted input4 w4)
      as (n & input5 & w5 & -> & Hn); [reflexivity|].
    destruct (ask_sort_total input5 w5) as (so & input6 & w6 & -> & Hso).
    do 2 eexists. split; [reflexivity|]. simpl. auto. }
  unfold collect. cbv zeta.
  destruct (Scanln_string "" input) as [mk input1].
  destruct (is_empty mk) eqn:Hmk; cbn [negb].
  - apply Hloops. reflexivity.
  - destruct (Scanln_string "" input1) as [mo input2]. apply Hloops.
    apply is_empty_false in Hmk. intros ->. contradiction.
Qed.

(** C10: whatever the input, the program comes to its query with criteria
    whose model is empty when the make is, and the query it issues has a
    make clause whenever it has a model clause; QueryBuilder alone does
    not see to that. *)
Theorem issued_query_model_needs_make (input : stdin) (w : World) :
  (exists c w',
     collect input w = Some (c, w')
     /\ issued_query input w = Some (QueryBuilder c)
     /\ (make c = "" -> model c = "")
     /\ (has_clause "refine.model" (QueryBuilder c) = true ->
         has_clause "refine.make" (QueryBuilder c) = true))
  /\ has_clause "refine.model" (QueryBuilder model_only_criteria) = true
  /\ has_clause "refine.make" (QueryBuilder model_only_criteria) = false.
Proof.
  split; [|split; reflexivity].
  destruct (collect_total input w) as (c & w' & Hc & Hmodel & Hsort & _).
  exists c, w'. split; [exact Hc|].
  split; [unfold issued_query; now rewrite Hc|].
  split; [exact Hmodel|].
  destruct (is_empty (make c)) eqn:Hmake.
  - apply is_empty_true in Hmake. pose proof (Hmodel Hmake) as Hmo.
    assert (Hpresence : clause_presence c).
    { apply clause_presence_of_clauses, query_clauses_QueryBuilder.
      - now apply sort_accepted_no_separator.
      - now rewrite Hmake.
      - now rewrite Hmo. }
    destruct Hpresence as (_ & _ & [Hclause _] & _).
    intros H. now apply Hclause in H.
  - intros _. apply make_clause_present. now apply is_empty_false.
Qed.

End MainFacts.

(** ** Listing and export in [main] *)

Section DisplayFacts.
Import GoString GoInt Query Json Decoder OS Bufio Csv JsonText Fetcher
  Exporters Main.

Lemma listing_world (vehicles : list Vehicle) (w : World) :
  fs (listing vehicles w) = fs w
  /\ stdout (listing vehicles w)
     = stdout w ++ ("Vehicles found:" +:+ line_feed)
                   :: map (fun v => listing_line v +:+ line_feed) vehicles.
Proof.
  unfold listing.
  assert (H : forall w0,
             fs (fold_left (fun w v => println (listing_line v) w) vehicles w0)
             = fs w0
             /\ stdout
                  (fold_left (fun w v => println (listing_line v) w) vehicles w0)
                = stdout w0
                  ++ map (fun v => listing_line v +:+ line_feed) vehicles).
  { induction vehicles as [|v rest IH]; intros w0; simpl.
    - now rewrite app_nil_r.
    - destruct (IH (println (listing_line v) w0)) as [-> ->]. simpl.
      now rewrite <- app_assoc. }
  destruct (H (println "Vehicles found:" w)) as [-> ->]. simpl.
  now rewrite <- app_assoc.
Qed.

Lemma display_nonempty (vehicles : list Vehicle) (w : World) :
  vehicles <> [] -> display vehicles w = export vehicles (listing vehicles w).
Proof. destruct vehicles; [contradiction | reflexivity]. Qed.

Lemma report_fs (format name : string) (e : option error) (w : World) :
  fs (report format name e w) = fs w.
Proof. now destruct e. Qed.

(** C8, at the failing input: on a device that accepts no byte, the file
    is created and every write to it fails.  The CSV exporter keeps the
    header and the row in the buffer of its writer, whose only flush is
    the deferred one, and returns no error although nothing reached the
    file; the JSON exporter, in the same world, returns its write
    error. *)
Theorem saveVehiclesToCSV_unreported_failure :
  let csv := saveVehiclesToCSV [toyota] "vehicles.csv" full_device_world in
  let json := saveVehiclesToJSON [toyota] "vehicles.json" full_device_world in
  fst csv = None
  /\ content "vehicles.csv" (fs (snd csv)) = ""
  /\ calls (fs (snd csv))
     = [SysCreate "vehicles.csv"; SysWrite "vehicles.csv" (csv_text [toyota])]
  /\ stdout (snd csv) = ["Vehicles data saved to vehicles.csv" +:+ line_feed]
  /\ csv_text [toyota]
     = "Make,Model,Year,Cylinders" +:+ line_feed
       +:+ "Toyota,Corolla,2020,4" +:+ line_feed
  /\ fst json = Some WriteJSONFailed.
Proof. vm_compute. repeat split. Qed.

(** The stream of a steady writer that was just created is what the file
    holds after the flush; with both destinations writable the run of
    [display] leaves both documents and three groups of lines. *)
Lemma display_writable (vehicles : list Vehicle) (w : World) :
  vehicles <> [] ->
  writable "vehicles.json" (fs w) -> writable "vehicles.csv" (fs w) ->
  stdout (display vehicles w)
  = stdout w
    ++ ("Vehicles found:" +:+ line_feed)
       :: map (fun v => listing_line v +:+ line_feed) vehicles
    ++ ["Vehicles data saved to vehicles.json" +:+ line_feed;
        "Vehicles data saved to vehicles.csv" +:+ line_feed]
  /\ content "vehicles.json" (fs (display vehicles w)) = MarshalIndent vehicles
  /\ content "vehicles.csv" (fs (display vehicles w)) = csv_text vehicles.
Proof.
  intros Hne Hjson Hcsv. rewrite display_nonempty by assumption.
  unfold export. destruct (listing_world vehicles w) as [Hfs Hout].
  destruct (saveVehiclesToJSON_writable vehicles "vehicles.json"
              (listing vehicles w)) as (w1 & -> & Hc1 & Hout1 & Hs1);
    [now rewrite Hfs|].
  cbn [report].
  destruct (saveVehiclesToCSV_writable vehicles "vehicles.csv" w1)
    as (w2 & -> & Hc2 & Hout2 & Hs2).
  { destruct Hs1 as (Hd & Hq & _). rewrite Hfs in Hd, Hq.
    destruct Hcsv. split; [now rewrite Hd | now rewrite Hq]. }
  cbn [report]. split; [|split].
  - rewrite Hout2, Hout1, Hout. rewrite <- !app_assoc. reflexivity.
  - unfold content. destruct Hs2 as (_ & _ & Hother).
    rewrite Hother by discriminate. exact Hc1.
  - exact Hc2.
Qed.

End DisplayFacts.

(** ** What the exporters report *)

Section ReportFacts.
Import GoString GoInt Decoder OS Bufio Csv JsonText Exporters.

Lemma length_substring (s : string) (n m : nat) :
  String.length (substring n m s) = Nat.min m (String.length s - n).
Proof.
  revert n m. induction s as [|c s IH]; intros [|n] [|m]; simpl;
    try reflexivity; try (rewrite IH; lia).
  rewrite IH. simpl. lia.
Qed.

Lemma length_drop (n : nat) (s : string) :
  String.length (drop n s) = (String.length s - n)%nat.
Proof. unfold drop. rewrite length_substring. lia. Qed.

(** A turn that starts with an empty buffer ends the loop. *)
Lemma WriteString_turn_empty (name s : string) (b : Writer) :
  buf b = "" ->
  let '(s1, b1) := WriteString_turn name s b in
  loop_condition s1 b1 = false.
Proof.
  intros Hbuf. unfold WriteString_turn. fold (loop_condition s b).
  destruct (loop_condition s b) eqn:Hcond; [|exact Hcond].
  unfold Buffered. rewrite Hbuf. cbn [String.length Nat.eqb].
  destruct (OS.Write name s (under b)) as [n f].
  unfold loop_condition, Available. cbn [buf err].
  destruct (Nat.ltb n (String.length s)) eqn:Hn; [apply andb_false_r|].
  apply Nat.ltb_ge in Hn. rewrite length_drop.
  replace (String.length s - n)%nat with 0%nat by lia.
  reflexivity.
Qed.

(** A flush keeps an error or leaves the buffer empty. *)
Lemma Flush_cases (name : string) (b : Writer) :
  err (snd (Flush name b)) = true \/ buf (snd (Flush name b)) = "".
Proof.
  unfold Flush. destruct (err b) eqn:He; [now left|].
  destruct (Nat.eqb (Buffered b) 0) eqn:Hb.
  - right. now apply buf_empty.
  - destruct (OS.Write name (buf b) (under b)) as [n f].
    destruct (Nat.ltb n (Buffered b)); [now left | now right].
Qed.

(** A turn ends the loop or leaves the buffer empty. *)
Lemma WriteString_turn_cases (name s : string) (b : Writer) :
  let '(s1, b1) := WriteString_turn name s b in
  loop_condition s1 b1 = false \/ buf b1 = "".
Proof.
  pose proof (WriteString_turn_empty name s b) as Hempty.
  unfold WriteString_turn in *.
  destruct (loop_condition s b) eqn:Hcond; [|now left].
  destruct (Nat.eqb (Buffered b) 0) eqn:Hb.
  - left. exact (Hempty (buf_empty b Hb)).
  - cbv zeta.
    match goal with |- context [Flush name ?x] =>
      pose proof (Flush_cases name x) as Hflush;
      destruct (Flush name x) as [ok b']
    end.
    cbn [snd] in Hflush. destruct Hflush as [Herr|Hbuf]; [left | now right].
    unfold loop_condition. rewrite Herr. apply andb_false_r.
Qed.

(** The loop of [WriteString] is over after two turns: what is left fits
    the buffer, or an error is kept. *)
Lemma WriteString_two_turns (name s : string) (b : Writer) :
  let '(s1, b1) := WriteString_turn name s b in
  let '(s2, b2) := WriteString_turn name s1 b1 in
  loop_condition s2 b2 = false.
Proof.
  pose proof (WriteString_turn_cases name s b) as Hfirst.
  destruct (WriteString_turn name s b) as [s1 b1].
  destruct Hfirst as [Hdone|Hbuf].
  - unfold WriteString_turn. fold (loop_condition s1 b1). now rewrite Hdone.
  - apply WriteString_turn_empty, Hbuf.
Qed.

Lemma Write_result (name data : string) (f : FileSystem) :
  fst (OS.Write name data f) = room name f (String.length data)
  /\ content name (snd (OS.Write name data f))
     = content name f
       +:+ substring 0 (room name f (String.length data)) data.
Proof.
  unfold OS.Write. cbn [fst snd]. split; [reflexivity|].
  unfold content at 1. cbn [disk]. now rewrite lookup_insert_eq.
Qed.

Lemma Create_allowed (name : string) (f : FileSystem) :
  (name ∉ denied f) ->
  fst (Create name f) = true
  /\ content name (snd (Create name f)) = ""
  /\ quota (snd (Create name f)) = quota f.
Proof.
  intros Hd. unfold Create. destruct (decide (name ∈ denied f));
    [contradiction|].
  cbn [fst snd quota]. repeat split. unfold content. cbn [disk].
  now rewrite lookup_insert_eq.
Qed.

(** The JSON exporter returns the creation error exactly when its
    destination cannot be created, the write error exactly when the
    destination takes less than the whole document, and no error
    otherwise, the document then being in the file. *)
Theorem saveVehiclesToJSON_reports (vehicles : list Vehicle) (name : string)
    (w : World) :
  let result := fst (saveVehiclesToJSON vehicles name w) in
  let after := fs (snd (saveVehiclesToJSON vehicles name w)) in
  let size := String.length (MarshalIndent vehicles) in
  (result = Some CreateJSONFailed <-> name ∈ denied (fs w))
  /\ (result = Some WriteJSONFailed
      <-> (name ∉ denied (fs w))
          /\ exists limit, quota (fs w) !! name = Some limit
                           /\ (limit < size)%nat)
  /\ (result = None
      <-> (name ∉ denied (fs w))
          /\ forall limit, quota (fs w) !! name = Some limit ->
                           (size <= limit)%nat)
  /\ (result = None -> content name after = MarshalIndent vehicles)
  /\ (forall e, result = Some e ->
      classify e = CannotCreateDestination \/ classify e = WriteFailure).
Proof.
  cbv zeta. unfold saveVehiclesToJSON.
  destruct (decide (name ∈ denied (fs w))) as [Hd|Hd].
  - unfold Create.
    destruct (decide (name ∈ denied (fs w))) as [_|Hnot]; [|contradiction].
    cbn [negb fst snd].
    split; [tauto|]. split; [split; [discriminate | tauto]|].
    split; [split; [discriminate | tauto]|].
    split; [discriminate|]. intros e [= <-]. now left.
  - destruct (Create_allowed name (fs w) Hd) as (Hok & Hempty & Hquota).
    destruct (Create name (fs w)) as [created f1]. cbn [fst snd] in *.
    subst created. cbn [negb].
    destruct (Write_result name (MarshalIndent vehicles) f1) as [Hn Hcontent].
    destruct (OS.Write name (MarshalIndent vehicles) f1) as [n f2].
    cbn [fst snd] in *. rewrite Hempty, <- Hn in Hcontent.
    unfold room in Hn. rewrite Hquota, Hempty in Hn. cbn [String.length] in Hn.
    rewrite ?Nat.sub_0_r in Hn.
    set (size := String.length (MarshalIndent vehicles)) in *.
    assert (Hfull : n = size -> content name f2 = MarshalIndent vehicles).
    { intros ->. rewrite Hcontent. unfold size. cbn [String.append].
      apply substring_all. }
    destruct (Nat.ltb n size) eqn:Hshort; cbn [fst snd].
    + apply Nat.ltb_lt in Hshort.
      destruct (quota (fs w) !! name) as [limit|]; [|lia].
      split; [split; [discriminate | tauto]|].
      split; [split; [intros _; split; [exact Hd|]; exists limit;
                      split; [reflexivity | lia] | reflexivity]|].
      split; [split; [discriminate|]|].
      { intros [_ H]. specialize (H limit eq_refl). lia. }
      split; [discriminate|]. intros e [= <-]. now right.
    + apply Nat.ltb_ge in Hshort.
      split; [split; [discriminate | tauto]|].
      split; [split; [discriminate|]|].
      { intros [_ (l & Hl & Hlt)]. rewrite Hl in Hn. lia. }
      split; [split; [intros _; split; [exact Hd|] | reflexivity]|].
      { intros l Hl. rewrite Hl in Hn. lia. }
      split; [|discriminate]. intros _. apply Hfull.
      destruct (quota (fs w) !! name); lia.
Qed.

End ReportFacts.

(** ** The CSV writer while its buffer has room *)

Section BufferedFacts.
Import GoString GoInt Decoder OS Bufio Csv JsonText Exporters.
Variable name : string.

Lemma buffers_skip : buffers "" skip.
Proof.
  intros b He _. unfold skip. rewrite append_empty_r.
  destruct b as [bf e u]. cbn [err] in He. now subst e.
Qed.

Lemma buffers_and_then (d1 d2 : string) (op1 op2 : call) :
  buffers d1 op1 -> buffers d2 op2 -> buffers (d1 +:+ d2) (and_then op1 op2).
Proof.
  intros H1 H2 b He Hlen. rewrite length_append in Hlen.
  unfold and_then. rewrite (H1 b He) by lia.
  rewrite H2; cbn [buf err under]; [|reflexivity|rewrite length_append; lia].
  now rewrite append_assoc.
Qed.

Lemma buffers_data (d d' : string) (op : call) :
  d = d' -> buffers d op -> buffers d' op.
Proof. now intros ->. Qed.

Lemma buffers_WriteByte (c : ascii) : buffers (String c "") (WriteByte name c).
Proof.
  intros b He Hlen. cbn [String.length] in Hlen. unfold WriteByte.
  rewrite He. unfold Available.
  destruct (Nat.leb (defaultBufSize - String.length (buf b)) 0) eqn:Hfull.
  - apply Nat.leb_le in Hfull. lia.
  - now rewrite He.
Qed.

Lemma buffers_WriteString (s : string) : buffers s (WriteString name s).
Proof.
  intros b He Hlen. unfold WriteString, WriteString_turn.
  assert (Hcond : loop_condition s b = false).
  { unfold loop_condition, Available.
    destruct (Nat.ltb (defaultBufSize - String.length (buf b))
                (String.length s)) eqn:Hfit; [|reflexivity].
    apply Nat.ltb_lt in Hfit. lia. }
  rewrite Hcond, Hcond, He. reflexivity.
Qed.

Lemma buffers_write_quoted (field chunk : string) :
  buffers (chunk +:+ quoted_body field) (write_quoted name field chunk).
Proof.
  revert chunk. induction field as [|c rest IH]; intros chunk; simpl.
  - destruct chunk as [|x chunk]; simpl.
    + apply buffers_skip.
    + rewrite append_empty_r. apply buffers_WriteString.
  - destruct (Ascii.eqb c quote) eqn:Hquote.
    + apply buffers_and_then; [apply buffers_WriteString|].
      apply (buffers_and_then (String quote (String quote ""))
               (quoted_body rest));
        [apply buffers_WriteString | apply (IH "")].
    + destruct (Ascii.eqb c CR || Ascii.eqb c LF).
      * apply buffers_and_then; [apply buffers_WriteString|].
        apply (buffers_and_then (String c "") (quoted_body rest));
          [apply buffers_WriteByte | apply (IH "")].
      * eapply buffers_data; [|apply IH]. now rewrite append_assoc.
Qed.

Lemma buffers_write_field (field : string) :
  buffers (field_text field) (write_field name field).
Proof.
  unfold write_field, field_text. destruct (fieldNeedsQuotes field); simpl.
  - apply (buffers_and_then (String quote "")
             (quoted_body field +:+ String quote "")).
    + apply buffers_WriteByte.
    + apply buffers_and_then; [apply (buffers_write_quoted field "")|].
      apply buffers_WriteByte.
  - apply buffers_WriteString.
Qed.

Lemma buffers_Write (record : list string) :
  buffers (record_text record) (Csv.Write name record).
Proof.
  apply buffers_and_then; [|apply buffers_WriteByte].
  generalize 0%nat. induction record as [|field rest IH]; intros n; simpl.
  - apply buffers_skip.
  - apply buffers_and_then.
    + destruct (Nat.ltb 0 n); [apply buffers_WriteByte | apply buffers_skip].
    + apply buffers_and_then; [apply buffers_write_field | apply IH].
Qed.

Lemma buffers_write_rows (vehicles : list Vehicle) :
  buffers (records_text (map row vehicles)) (write_rows name vehicles).
Proof.
  induction vehicles as [|v rest IH]; simpl.
  - apply buffers_skip.
  - apply buffers_and_then; [apply buffers_Write | exact IH].
Qed.

(** Whatever the destination does with the bytes, the CSV exporter returns
    no error when it could create the file and the text is no longer than
    the buffer of its writer: nothing is written before the deferred
    flush, and what the file holds in the end is the part of the text that
    the destination took. *)
Theorem saveVehiclesToCSV_silent (vehicles : list Vehicle) (w : World) :
  (name ∉ denied (fs w)) ->
  (String.length (csv_text vehicles) <= defaultBufSize)%nat ->
  fst (saveVehiclesToCSV vehicles name w) = None
  /\ content name (fs (snd (saveVehiclesToCSV vehicles name w)))
     = substring 0
         (room name (snd (Create name (fs w)))
            (String.length (csv_text vehicles)))
         (csv_text vehicles).
Proof.
  intros Hd Hlen. unfold saveVehiclesToCSV.
  destruct (Create_allowed name (fs w) Hd) as (Hok & Hempty & Hquota).
  destruct (Create name (fs w)) as [created f1]. cbn [fst snd] in *.
  subst created. cbn [negb].
  assert (Htext : csv_text vehicles
                  = record_text header +:+ records_text (map row vehicles))
    by reflexivity.
  rewrite Htext, length_append in Hlen.
  rewrite (buffers_Write header)
    by (cbn [buf err]; first [reflexivity | simpl in *; lia]).
  cbn [negb buf err under].
  rewrite (buffers_write_rows vehicles)
    by (cbn [buf err]; first [reflexivity | rewrite length_append; simpl in *; lia]).
  cbn [negb buf err under]. unfold deferred_Flush, Flush. cbn [buf err under].
  change (("" +:+ record_text header) +:+ records_text (map row vehicles))
    with (csv_text vehicles).
  unfold Buffered. cbn [buf].
  destruct (Nat.eqb (String.length (csv_text vehicles)) 0) eqn:Hzero.
  { apply Nat.eqb_eq in Hzero. discriminate Hzero. }
  destruct (Write_result name (csv_text vehicles) f1) as [Hn Hcontent].
  destruct (OS.Write name (csv_text vehicles) f1) as [n f2].
  cbn [fst snd] in *. rewrite Hempty in Hcontent. subst n.
  match goal with
  | |- context [if ?short then _ else _] => destruct short
  end; cbn [fst snd fs with_fs under println print];
    (split; [reflexivity | exact Hcontent]).
Qed.

End BufferedFacts.

Lemma saveVehiclesToCSV_silent_witness :
  fst (Exporters.saveVehiclesToCSV [Decoder.toyota] "vehicles.csv"
         Main.full_device_world) = None
  /\ OS.content "vehicles.csv"
       (OS.fs (snd (Exporters.saveVehiclesToCSV [Decoder.toyota] "vehicles.csv"
                      Main.full_device_world)))
     = "".
Proof.
  assert (Hd : "vehicles.csv" ∉ OS.denied (OS.fs Main.full_device_world)).
  { intros Hin. vm_compute in Hin. discriminate. }
  assert (Hlen : (String.length (Exporters.csv_text [Decoder.toyota])
                  <= Bufio.defaultBufSize)%nat).
  { apply Nat.leb_le. reflexivity. }
  exact (saveVehiclesToCSV_silent "vehicles.csv" [Decoder.toyota]
           Main.full_device_world Hd Hlen).
Defined.

(** ** Decimal text read back *)

Section AtoiFacts.
Import GoInt.

Lemma uint_digits_head (d : Decimal.uint) :
  d <> Decimal.Nil ->
  exists c rest, NilEmpty.string_of_uint d = String c rest
                 /\ c <> "+"%char /\ c <> "-"%char.
Proof.
  destruct d; [contradiction| ..]; intros _; simpl; eexists _, _;
    (split; [reflexivity|]); split; discriminate.
Qed.

(** [Atoi] reads back what [Itoa] writes for an [int]. *)
Lemma Atoi_Itoa (n : Z) : in_range n -> Atoi (Itoa n) = Some n.
Proof.
  intros Hn. apply in_rangeb_spec in Hn.
  pose proof (DecimalZ.of_to n) as Hof.
  unfold Itoa, Atoi. destruct (Z.to_int n) as [d|d] eqn:Hd; simpl in *.
  - assert (Hnil : d <> Decimal.Nil).
    { destruct n; simpl in Hd; try discriminate; injection Hd as <-;
        [discriminate|].
      intros H. now apply (DecimalPos.Unsigned.to_uint_nonnil p). }
    destruct (uint_digits_head d Hnil) as (c & rest & Hs & Hplus & Hminus).
    assert (Hstr : NilZero.string_of_uint d = String c rest)
      by (destruct d; [contradiction|..]; exact Hs).
    pose proof (NilZero.usu d Hnil) as Husu. rewrite Hstr in *.
    destruct (Ascii.eqb_spec c "+"%char) as [->|_]; [contradiction|].
    destruct (Ascii.eqb_spec c "-"%char) as [->|_]; [contradiction|].
    assert (Hmatch :
              match String c rest with
              | String "+"%char s' => (false, s')
              | String "-"%char s' => (true, s')
              | _ => (false, String c rest)
              end = (false, String c rest)).
    { destruct c as [[] [] [] [] [] [] [] []]; try reflexivity;
        contradiction. }
    rewrite Hmatch, Husu, Hof, Hn. reflexivity.
  - assert (Hnil : d <> Decimal.Nil).
    { destruct n; simpl in Hd; try discriminate. injection Hd as <-.
      intros H. now apply (DecimalPos.Unsigned.to_uint_nonnil p). }
    rewrite (NilZero.usu d Hnil), Hof, Hn. reflexivity.
Qed.

End AtoiFacts.

(** ** The CSV file read back *)

Section CsvReaderFacts.
Import GoString GoInt Decoder Csv Exporters Reader.

Lemma read_quoted (f acc : string) (record : list string) (rest : string) :
  read_csv Quoted acc record (quoted_body f +:+ String quote rest)
  = read_csv QuoteSeen (acc +:+ f) record rest.
Proof.
  revert acc. induction f as [|c f IH]; intros acc; simpl.
  - now rewrite ?Ascii.eqb_refl, append_empty_r.
  - destruct (Ascii.eqb_spec c quote) as [->|Hc]; simpl.
    + rewrite ?Ascii.eqb_refl, IH, append_assoc. reflexivity.
    + apply Ascii.eqb_neq in Hc. rewrite Hc, IH, append_assoc. reflexivity.
Qed.

Lemma is_special_false (c : ascii) :
  is_special c = false ->
  Ascii.eqb c LF = false /\ Ascii.eqb c CR = false
  /\ Ascii.eqb c quote = false /\ Ascii.eqb c comma = false.
Proof. unfold is_special. rewrite !orb_false_iff. tauto. Qed.

Lemma read_unquoted (f acc : string) (record : list string) (rest : string) :
  existsb is_special (list_ascii_of_string f) = false ->
  read_csv Unquoted acc record (f +:+ rest)
  = read_csv Unquoted (acc +:+ f) record rest.
Proof.
  revert acc. induction f as [|c f IH]; intros acc; simpl.
  - intros _. now rewrite append_empty_r.
  - rewrite orb_false_iff. intros [Hc Hf].
    destruct (is_special_false c Hc) as (-> & -> & -> & ->).
    rewrite IH by assumption. now rewrite append_assoc.
Qed.

Lemma fieldNeedsQuotes_false (f : string) :
  fieldNeedsQuotes f = false ->
  existsb is_special (list_ascii_of_string f) = false.
Proof.
  unfold fieldNeedsQuotes. destruct (is_empty f) eqn:He.
  - apply is_empty_true in He. now subst f.
  - destruct (String.eqb f "\."); [discriminate|].
    destruct (existsb is_special (list_ascii_of_string f));
      [discriminate | reflexivity].
Qed.

(** A field and the delimiter behind it are read back as the field. *)
Lemma read_field_comma (f : string) (record : list string) (rest : string) :
  read_csv FieldStart "" record (field_text f +:+ String comma rest)
  = read_csv FieldStart "" (record ++ [f]) rest.
Proof.
  unfold field_text. destruct (fieldNeedsQuotes f) eqn:Hq.
  - simpl. rewrite append_assoc. simpl. rewrite read_quoted. simpl.
    reflexivity.
  - apply fieldNeedsQuotes_false in Hq. destruct f as [|c f]; simpl.
    + reflexivity.
    + simpl in Hq. apply orb_false_iff in Hq as [Hc Hf].
      destruct (is_special_false c Hc) as (-> & -> & -> & ->).
      rewrite read_unquoted by assumption. simpl. reflexivity.
Qed.

Lemma read_field_LF (f : string) (record : list string) (rest : string) :
  record <> [] ->
  read_csv FieldStart "" record (field_text f +:+ String LF rest)
  = and_records (record ++ [f]) (read_csv FieldStart "" [] rest).
Proof.
  intros Hrecord. unfold field_text. destruct (fieldNeedsQuotes f) eqn:Hq.
  - simpl. rewrite append_assoc. simpl. rewrite read_quoted. simpl.
    reflexivity.
  - apply fieldNeedsQuotes_false in Hq. destruct f as [|c f]; simpl.
    + destruct record; [contradiction | reflexivity].
    + simpl in Hq. apply orb_false_iff in Hq as [Hc Hf].
      destruct (is_special_false c Hc) as (-> & -> & -> & ->).
      rewrite read_unquoted by assumption. simpl. reflexivity.
Qed.

Lemma read_fields (fs : list string) (f : string) (record : list string)
    (n : nat) (rest : string) :
  record <> [] \/ fs <> [] ->
  read_csv FieldStart "" record
    (field_text f +:+ fields_text (S n) fs +:+ String LF rest)
  = and_records (record ++ f :: fs) (read_csv FieldStart "" [] rest).
Proof.
  revert f record n. induction fs as [|g fs IH]; intros f record n H; simpl.
  - apply read_field_LF. destruct H; [assumption | contradiction].
  - rewrite !append_assoc. simpl. rewrite read_field_comma, IH.
    + now rewrite <- app_assoc.
    + left. now destruct record.
Qed.

Lemma read_record (r : list string) (rest : string) :
  (2 <= length r)%nat ->
  read_csv FieldStart "" [] (record_text r +:+ rest)
  = and_records r (read_csv FieldStart "" [] rest).
Proof.
  destruct r as [|f [|g fs]]; simpl; try lia. intros _.
  unfold record_text. cbn [fields_text Nat.ltb Nat.leb].
  cbn [String.append]. rewrite !append_assoc.
  change (String LF "" +:+ rest) with (String LF rest).
  apply (read_fields (g :: fs) f [] 0). now right.
Qed.

Lemma read_records (rs : list (list string)) :
  Forall (fun r => (2 <= length r)%nat) rs ->
  read_csv FieldStart "" [] (records_text rs) = Some rs.
Proof.
  induction 1 as [|r rs Hr _ IH]; simpl; [reflexivity|].
  now rewrite read_record, IH.
Qed.

Lemma vehicles_of_rows_row (vehicles : list Vehicle) :
  Forall (fun v => in_range (Cylinders v)) vehicles ->
  vehicles_of_rows (map row vehicles) = Some vehicles.
Proof.
  induction 1 as [|v vs Hv _ IH]; simpl; [reflexivity|].
  rewrite (Atoi_Itoa _ Hv), IH. now destruct v.
Qed.

(** The CSV text of any vehicles is read back as these vehicles. *)
Lemma vehicles_of_csv_text (vehicles : list Vehicle) :
  Forall (fun v => in_range (Cylinders v)) vehicles ->
  vehicles_of_csv (csv_text vehicles) = Some vehicles.
Proof.
  intros Hv. unfold vehicles_of_csv, csv_text. rewrite read_records.
  - now apply vehicles_of_rows_row.
  - constructor; [simpl; lia|]. apply Forall_map, Forall_forall.
    intros v _. simpl. lia.
Qed.

End CsvReaderFacts.
(** ** The JSON file read back *)

Section JsonReaderFacts.
Import GoString GoInt Decoder Csv JsonText Exporters Reader.

Lemma and_tokens_app (a b : list token) (r : option (list token)) :
  and_tokens a (and_tokens b r) = and_tokens (a ++ b) r.
Proof.
  destruct a as [|x a]; [reflexivity|]. destruct b as [|y b]; simpl.
  - now rewrite app_nil_r.
  - destruct r as [l|]; simpl; [|reflexivity]. now rewrite <- app_assoc.
Qed.

Lemma and_tokens_Some (a l : list token) :
  and_tokens a (Some l) = Some (a ++ l).
Proof. now destruct a. Qed.

(** What is written for a byte below 0x80 is read back as that byte. *)
Lemma lex_escape_byte (c : ascii) (acc rest : string) :
  (code c <? 128)%N = true ->
  lex (Str acc 0) (escape_byte c +:+ rest)
  = lex (Str (acc +:+ String c "") 0) rest.
Proof.
  destruct c as [[] [] [] [] [] [] [] []]; intros H; try discriminate H;
    reflexivity.
Qed.

(** The bytes of a valid rune are copied, so the reader finds the same
    rune in the text written as the writer found in the string. *)
Lemma rune_tail_escape (c : ascii) (rest x : string) (k : nat) :
  rune_tail (String c rest) = Some k ->
  rune_tail (String c (escape k rest +:+ x)) = Some k.
Proof.
  unfold rune_tail. destruct rest as [|c1 rest1]; [discriminate|].
  destruct ((194 <=? code c) && (code c <=? 223))%N eqn:H2.
  { destruct (continuation c1) eqn:Hc1; intros [= <-].
    cbn [escape String.append]. now rewrite ?H2, ?Hc1. }
  destruct ((224 <=? code c) && (code c <=? 239))%N eqn:H3.
  { destruct rest1 as [|c2 rest2]; [discriminate|].
    destruct (second_byte_ok (code c) (code c1) && continuation c2) eqn:Hok;
      intros [= <-]. cbn [escape String.append]. now rewrite ?H2, ?H3, ?Hok. }
  destruct ((240 <=? code c) && (code c <=? 244))%N eqn:H4; [|discriminate].
  destruct rest1 as [|c2 [|c3 rest3]]; try discriminate.
  destruct (second_byte_ok (code c) (code c1) && continuation c2
            && continuation c3) eqn:Hok; intros [= <-].
  cbn [escape String.append]. now rewrite ?H2, ?H3, ?H4, ?Hok.
Qed.

Lemma code_eq (c : ascii) (n : N) :
  (code c =? n)%N = true -> c = ascii_of_N n.
Proof.
  intros H. apply N.eqb_eq in H. unfold code in H. rewrite <- H.
  now rewrite ascii_N_embedding.
Qed.

(** The escapes of U+2028 and U+2029 are read back as their three
    bytes. *)
Lemma lex_separator (d : N) (acc rest : string) :
  d = 168%N \/ d = 169%N ->
  lex (Str acc 0)
    (String backslash "u202" +:+ String (hex (N.land d 15)) "" +:+ rest)
  = lex (Str (acc +:+ bytes [226; 128; d]%N) 0) rest.
Proof. intros [->| ->]; reflexivity. Qed.

(** What is written between the quotes for a valid UTF-8 string is read
    back as that string. *)
Lemma lex_escape (n : nat) :
  forall (s : string) (pass : nat) (acc rest : string),
    (String.length s <= n)%nat ->
    utf8_valid pass s = true ->
    lex (Str acc pass) (escape pass s +:+ String quote rest)
    = and_tokens [TString (acc +:+ s)] (lex Start rest).
Proof.
  induction n as [|n IH]; intros s pass acc rest Hlen Hvalid.
  - destruct s; [|simpl in Hlen; lia]. destruct pass; [|discriminate].
    simpl. now rewrite append_empty_r.
  - destruct s as [|c s].
    { destruct pass; [|discriminate]. simpl. now rewrite append_empty_r. }
    simpl in Hlen. destruct pass as [|k].
    + cbn [escape utf8_valid] in *.
      destruct (code c <? 128)%N eqn:Hascii.
      * rewrite append_assoc, lex_escape_byte by assumption.
        rewrite IH by (assumption || lia). now rewrite append_assoc.
      * destruct (rune_tail (String c s)) as [k|] eqn:Htail; [|discriminate].
        assert (Hcopy :
                  lex (Str acc 0)
                    (String c (escape k s) +:+ String quote rest)
                  = and_tokens [TString (acc +:+ String c s)] (lex Start rest)).
        { cbn [String.append lex step step_str].
          assert (Hq : Ascii.eqb c quote = false).
          { destruct (Ascii.eqb_spec c quote) as [->|]; [discriminate|reflexivity]. }
          assert (Hb : Ascii.eqb c backslash = false).
          { destruct (Ascii.eqb_spec c backslash) as [->|];
              [discriminate|reflexivity]. }
          assert (H32 : (code c <? 32)%N = false).
          { apply N.ltb_ge. apply N.ltb_ge in Hascii. lia. }
          unfold step_str. rewrite Hq, Hb, H32, Hascii.
          rewrite (rune_tail_escape c s (String quote rest) k Htail).
          cbn [and_tokens]. rewrite IH by (assumption || lia).
          now rewrite append_assoc. }
        destruct s as [|c1 [|c2 s']]; try exact Hcopy.
        destruct ((code c =? 226)%N && (code c1 =? 128)%N
                  && ((code c2 =? 168) || (code c2 =? 169))%N) eqn:Hsep;
          [|exact Hcopy].
        apply andb_true_iff in Hsep as [Hsep H2].
        apply andb_true_iff in Hsep as [H0 H1].
        apply code_eq in H0, H1. subst c c1.
        assert (Hd : code c2 = 168%N \/ code c2 = 169%N).
        { apply orb_true_iff in H2 as [H2|H2]; apply N.eqb_eq in H2; auto. }
        assert (Hc2 : c2 = ascii_of_N (code c2))
          by (unfold code; now rewrite ascii_N_embedding).
        clear Hcopy.
        destruct Hd as [Hd|Hd]; rewrite Hd in Hc2; subst c2;
          change (Some 2%nat = Some k) in Htail; injection Htail as <-;
          change (utf8_valid 0 s' = true) in Hvalid;
          rewrite !append_assoc, lex_separator by (vm_compute; auto);
          rewrite IH by (assumption || simpl in Hlen; lia);
          rewrite append_assoc; reflexivity.
    + cbn [escape utf8_valid String.append lex step and_tokens] in *.
      rewrite IH by (assumption || lia). now rewrite append_assoc.
Qed.

Lemma lex_string_text (s rest : string) :
  utf8_valid 0 s = true ->
  lex Start (string_text s +:+ rest)
  = and_tokens [TString s] (lex Start rest).
Proof.
  intros Hs. unfold string_text. rewrite append_assoc.
  change (lex Start (String quote (escape 0 s) +:+ String quote "" +:+ rest))
    with (lex (Str "" 0) (escape 0 s +:+ String quote rest)).
  now rewrite (lex_escape (String.length s)).
Qed.

Lemma lex_number_tail (s acc rest : string) :
  is_number_text s = true ->
  lex (Num acc) (s +:+ String LF rest)
  = and_tokens [TNumber (acc +:+ s)] (lex Start rest).
Proof.
  unfold is_number_text. revert acc.
  induction s as [|c s IH]; intros acc; simpl.
  - intros _. now rewrite append_empty_r.
  - rewrite andb_true_iff. intros [Hc Hs]. rewrite Hc. cbn [and_tokens].
    rewrite IH by assumption. now rewrite append_assoc.
Qed.

Lemma uint_number_text (d : Decimal.uint) :
  is_number_text (NilEmpty.string_of_uint d) = true.
Proof. unfold is_number_text. induction d; simpl; assumption || reflexivity. Qed.

(** An integer as [Itoa] writes it, and the line feed behind it, are read
    back as one number. *)
Lemma lex_Itoa (n : Z) (rest : string) :
  lex Start (Itoa n +:+ String LF rest)
  = and_tokens [TNumber (Itoa n)] (lex Start rest).
Proof.
  unfold Itoa, NilZero.string_of_int, NilZero.string_of_uint.
  destruct (Z.to_int n) as [d|d]; destruct d; try reflexivity.
  all: cbn [NilEmpty.string_of_uint String.append].
  all: try (apply (lex_number_tail (NilEmpty.string_of_uint _) (String _ ""));
            apply uint_number_text).
  all: apply (lex_number_tail (NilEmpty.string_of_uint _)
                (String "-" (String _ ""))); apply uint_number_text.
Qed.

Lemma member_text_append (key value rest : string) :
  member_text key value +:+ rest = member_text key (value +:+ rest).
Proof. unfold member_text. now rewrite !append_assoc. Qed.

(** The layout around the values: braces, member names, commas. *)
Lemma lex_layout (rest : string) :
  lex Start ("  {" +:+ NL +:+ rest) = and_tokens [TLBrace] (lex Start rest)
  /\ lex Start ("," +:+ NL +:+ rest) = and_tokens [TComma] (lex Start rest)
  /\ lex Start ("  }" +:+ rest) = and_tokens [TRBrace] (lex Start rest)
  /\ lex Start (NL +:+ rest) = lex Start rest
  /\ lex Start (member_text "make" rest)
     = and_tokens [TString "make"; TColon] (lex Start rest)
  /\ lex Start (member_text "model" rest)
     = and_tokens [TString "model"; TColon] (lex Start rest)
  /\ lex Start (member_text "year" rest)
     = and_tokens [TString "year"; TColon] (lex Start rest)
  /\ lex Start (member_text "cylinders" rest)
     = and_tokens [TString "cylinders"; TColon] (lex Start rest).
Proof.
  repeat split; try reflexivity;
    unfold member_text; cbv - [lex and_tokens]; cbn [lex]; cbv - [lex and_tokens];
    destruct (lex Start rest); reflexivity.
Qed.

(** The text of a vehicle is read back as its tokens. *)
Lemma lex_vehicle_text (v : Vehicle) (rest : string) :
  utf8_valid 0 (Make v) = true -> utf8_valid 0 (Model v) = true ->
  utf8_valid 0 (Year v) = true ->
  lex Start (vehicle_text v +:+ rest)
  = and_tokens (vehicle_tokens v) (lex Start rest).
Proof.
  intros Hmake Hmodel Hyear.
  unfold vehicle_text. rewrite !append_assoc, !member_text_append.
  rewrite (proj1 (lex_layout _)).
  destruct (lex_layout (string_text (Make v) +:+ "," +:+ NL
              +:+ member_text "model" (string_text (Model v) +:+ "," +:+ NL
              +:+ member_text "year" (string_text (Year v) +:+ "," +:+ NL
              +:+ member_text "cylinders" (Itoa (Cylinders v) +:+ NL
              +:+ "  }" +:+ rest)))))
    as (_ & _ & _ & _ & -> & _).
  rewrite lex_string_text by assumption.
  rewrite (proj1 (proj2 (lex_layout _))).
  destruct (lex_layout (string_text (Model v) +:+ "," +:+ NL
              +:+ member_text "year" (string_text (Year v) +:+ "," +:+ NL
              +:+ member_text "cylinders" (Itoa (Cylinders v) +:+ NL
              +:+ "  }" +:+ rest))))
    as (_ & _ & _ & _ & _ & -> & _).
  rewrite lex_string_text by assumption.
  rewrite (proj1 (proj2 (lex_layout _))).
  destruct (lex_layout (string_text (Year v) +:+ "," +:+ NL
              +:+ member_text "cylinders" (Itoa (Cylinders v) +:+ NL
              +:+ "  }" +:+ rest)))
    as (_ & _ & _ & _ & _ & _ & -> & _).
  rewrite lex_string_text by assumption.
  rewrite (proj1 (proj2 (lex_layout _))).
  destruct (lex_layout (Itoa (Cylinders v) +:+ NL +:+ "  }" +:+ rest))
    as (_ & _ & _ & _ & _ & _ & _ & ->).
  change (NL +:+ "  }" +:+ rest) with (String LF ("  }" +:+ rest)).
  rewrite lex_Itoa.
  rewrite (proj1 (proj2 (proj2 (lex_layout _)))).
  rewrite !and_tokens_app. reflexivity.
Qed.

Lemma lex_elements_text (vehicles : list Vehicle) :
  vehicles <> [] -> Forall well_formed vehicles ->
  lex Start (elements_text vehicles +:+ "]")
  = Some (elements_tokens vehicles ++ [TRBracket]).
Proof.
  intros Hne Hwf. induction Hwf as [|v vs (Hmake & Hmodel & Hyear & _) Hvs IH];
    [contradiction|].
  destruct vs as [|v' vs'].
  - cbn [elements_text elements_tokens]. rewrite append_assoc.
    rewrite lex_vehicle_text by assumption.
    change (lex Start (NL +:+ "]")) with (Some [TRBracket]).
    apply and_tokens_Some.
  - change (elements_text (v :: v' :: vs'))
      with (vehicle_text v +:+ "," +:+ NL +:+ elements_text (v' :: vs')).
    change (elements_tokens (v :: v' :: vs'))
      with (vehicle_tokens v ++ TComma :: elements_tokens (v' :: vs')).
    rewrite !append_assoc, lex_vehicle_text by assumption.
    rewrite (proj1 (proj2 (lex_layout _))), IH by discriminate.
    cbn [and_tokens option_map]. rewrite and_tokens_Some.
    now rewrite <- app_assoc.
Qed.

(** The document is read back as its tokens. *)
Lemma lex_MarshalIndent (vehicles : list Vehicle) :
  Forall well_formed vehicles ->
  lex Start (MarshalIndent vehicles)
  = Some match vehicles with
         | [] => [TLiteral "null"]
         | _ => TLBracket :: elements_tokens vehicles ++ [TRBracket]
         end.
Proof.
  intros Hwf. destruct vehicles as [|v vs]; [reflexivity|].
  unfold MarshalIndent.
  change (lex Start ("[" +:+ NL +:+ elements_text (v :: vs) +:+ "]"))
    with (and_tokens [TLBracket] (lex Start (elements_text (v :: vs) +:+ "]"))).
  rewrite lex_elements_text by (assumption || discriminate). reflexivity.
Qed.

Lemma parse_vehicle_tokens (v : Vehicle) (done : list Vehicle)
    (rest : list token) :
  in_range (Cylinders v) ->
  parse (MemberOrEnd done zero_Vehicle) (tail (vehicle_tokens v) ++ rest)
  = parse (AfterElement (done ++ [v])) rest.
Proof.
  intros Hv. cbn [vehicle_tokens tail app parse].
  change (assign "make" (TString (Make v)) zero_Vehicle)
    with (Some (with_Make (Make v) zero_Vehicle)).
  cbv iota.
  change (assign "model" (TString (Model v)) (with_Make (Make v) zero_Vehicle))
    with (Some (with_Model (Model v) (with_Make (Make v) zero_Vehicle))).
  cbv iota.
  change (assign "year" (TString (Year v))
            (with_Model (Model v) (with_Make (Make v) zero_Vehicle)))
    with (Some (with_Year (Year v)
                  (with_Model (Model v) (with_Make (Make v) zero_Vehicle)))).
  cbv iota.
  change (assign "cylinders" (TNumber (Itoa (Cylinders v)))
            (with_Year (Year v)
               (with_Model (Model v) (with_Make (Make v) zero_Vehicle))))
    with (match Atoi (Itoa (Cylinders v)) with
          | Some n =>
              Some (with_Cylinders n
                      (with_Year (Year v)
                         (with_Model (Model v)
                            (with_Make (Make v) zero_Vehicle))))
          | None => None
          end).
  rewrite (Atoi_Itoa _ Hv). cbv iota. now destruct v.
Qed.

Lemma parse_elements_tokens (vehicles done : list Vehicle) :
  vehicles <> [] ->
  Forall (fun v => in_range (Cylinders v)) vehicles ->
  parse (AfterElement done) (TComma :: elements_tokens vehicles ++ [TRBracket])
  = Some (done ++ vehicles).
Proof.
  intros Hne Hr. revert done.
  induction Hr as [|v vs Hv Hvs IH]; intros done; [contradiction|].
  destruct vs as [|v' vs'].
  - cbn [elements_tokens].
    change (TComma :: vehicle_tokens v ++ [TRBracket])
      with (TComma :: TLBrace :: tail (vehicle_tokens v) ++ [TRBracket]).
    cbn [parse]. rewrite parse_vehicle_tokens by assumption. reflexivity.
  - change (elements_tokens (v :: v' :: vs'))
      with (TLBrace :: tail (vehicle_tokens v)
            ++ TComma :: elements_tokens (v' :: vs')).
    cbn [app]. rewrite <- app_assoc. cbn [app parse].
    rewrite parse_vehicle_tokens by assumption.
    rewrite IH by discriminate. now rewrite <- app_assoc.
Qed.

(** The JSON document of well-formed vehicles is read back as these
    vehicles. *)
Lemma vehicles_of_json_text (vehicles : list Vehicle) :
  Forall well_formed vehicles ->
  vehicles_of_json (MarshalIndent vehicles) = Some vehicles.
Proof.
  intros Hwf. unfold vehicles_of_json. rewrite lex_MarshalIndent by assumption.
  destruct vehicles as [|v vs]; [reflexivity|].
  assert (Hr : Forall (fun v => in_range (Cylinders v)) (v :: vs)).
  { eapply Forall_impl; [exact Hwf|]. now intros x (_ & _ & _ & Hx). }
  change (parse Top (TLBracket :: elements_tokens (v :: vs) ++ [TRBracket]))
    with (parse ElementOrEnd (elements_tokens (v :: vs) ++ [TRBracket])).
  destruct vs as [|v' vs'].
  - cbn [elements_tokens].
    change (parse ElementOrEnd (vehicle_tokens v ++ [TRBracket]))
      with (parse (MemberOrEnd [] zero_Vehicle)
              (tail (vehicle_tokens v) ++ [TRBracket])).
    rewrite parse_vehicle_tokens by now inversion Hr. reflexivity.
  - change (elements_tokens (v :: v' :: vs'))
      with (TLBrace :: tail (vehicle_tokens v)
            ++ TComma :: elements_tokens (v' :: vs')).
    cbn [app]. rewrite <- app_assoc. cbn [app parse].
    rewrite parse_vehicle_tokens by now inversion Hr.
    rewrite parse_elements_tokens; [reflexivity | discriminate |].
    now inversion Hr.
Qed.

End JsonReaderFacts.

(** ** The prompts of [main] *)

Section InputFacts.
Import GoString GoInt Query Decoder OS Fetcher Exporters Main Console.

Lemma year_accepted_spec (y : Z) :
  year_accepted y = true <-> y = 0 \/ 1980 <= y <= 2025.
Proof. unfold year_accepted. lia. Qed.

Lemma cylinders_accepted_spec (n : Z) :
  cylinders_accepted n = true <-> In n [0; 3; 4; 5; 6; 8; 10; 12; 16].
Proof. unfold cylinders_accepted. simpl. lia. Qed.

Lemma resultNb_accepted_spec (n : Z) :
  resultNb_accepted n = true <-> 0 <= n <= 50.
Proof. unfold resultNb_accepted. lia. Qed.

Lemma sort_accepted_spec (s : string) :
  sort_accepted s = true
  <-> In s [""; "make"; "model"; "year"; "cylinders"].
Proof.
  unfold sort_accepted. rewrite !orb_true_iff, is_empty_true, !String.eqb_eq.
  simpl. intuition congruence.
Qed.

(** Whatever is typed, [main] comes to its query with a year that is 0 or
    between 1980 and 2025, a cylinder count that is 0 or one of the eight
    listed, a limit between 0 and 50 and a sort field that is empty or one
    of the four listed; the query it issues starts with the base URL and a
    rows clause whose number is between 1 and 50. *)
Theorem collect_validates (input : stdin) (w : World) :
  exists c w',
    collect input w = Some (c, w')
    /\ (year c = 0 \/ 1980 <= year c <= 2025)
    /\ In (cylinders c) [0; 3; 4; 5; 6; 8; 10; 12; 16]
    /\ 0 <= resultLimit c <= 50
    /\ In (sortField c) [""; "make"; "model"; "year"; "cylinders"]
    /\ exists n rest,
         1 <= n <= 50
         /\ issued_query input w
            = Some (baseURL +:+ "&rows=" +:+ Itoa n +:+ rest).
Proof.
  destruct (collect_total input w) as (c & w' & Hc & _ & Hs & Hy & Hcy & Hn).
  exists c, w'. split; [exact Hc|].
  apply year_accepted_spec in Hy. apply cylinders_accepted_spec in Hcy.
  apply resultNb_accepted_spec in Hn. apply sort_accepted_spec in Hs.
  repeat (split; [assumption|]).
  exists (rows_value c), (join_clauses (tail (expected_clauses c))). split.
  - unfold rows_value. destruct (Z.eqb_spec (resultLimit c) 0); lia.
  - unfold issued_query. rewrite Hc, QueryBuilder_join. reflexivity.
Qed.

(** Each loop on a number keeps the first entry it accepts: the entries
    before it are each answered with the complaint and the prompt again,
    the entries after it are left for the next prompt; when the input ends
    before an accepted entry the number is 0. *)
Theorem ask_int_first_accepted (prompt complaint : string)
    (accepted : Z -> bool) (rejected : stdin) (w : World) :
  Forall (fun found => accepted (default 0 (number found)) = false) rejected ->
  let w' := {| fs := fs w;
               stdout := stdout w ++ retries prompt complaint rejected |} in
  (forall found rest,
     accepted (default 0 (number found)) = true ->
     ask_int prompt complaint accepted (rejected ++ found :: rest) w
     = Some (default 0 (number found), rest, w'))
  /\ (accepted 0 = true ->
      ask_int prompt complaint accepted rejected w = Some (0, [], w')).
Proof.
  intros Hrej. revert w. induction Hrej as [|r rejected Hr _ IH]; intros w.
  - cbv zeta. unfold retries. simpl. split.
    + intros found rest ->. reflexivity.
    + intros ->. reflexivity.
  - cbv zeta. simpl. rewrite Hr.
    destruct (IH (println complaint (println prompt w))) as [IH1 IH2].
    unfold retries in *. simpl in *. rewrite <- !app_assoc in *. simpl in *.
    split.
    + intros found rest Hok. rewrite (IH1 found rest Hok). reflexivity.
    + intros H0. rewrite (IH2 H0). reflexivity.
Qed.

Lemma ask_int_first_accepted_witness :
  ask_int "Enter the year (press Enter to skip):"
    "Please select a year between 1980 and 2025." year_accepted
    [ {| text := None; number := Some 1979 |};
      {| text := None; number := Some 2015 |};
      {| text := None; number := Some 4 |} ] free_world
  = Some (2015, [ {| text := None; number := Some 4 |} ],
          {| fs := fs free_world;
             stdout :=
               [ "Enter the year (press Enter to skip):" +:+ line_feed;
                 "Please select a year between 1980 and 2025." +:+ line_feed;
                 "Enter the year (press Enter to skip):" +:+ line_feed ] |}).
Proof.
  refine (proj1 (ask_int_first_accepted
                   "Enter the year (press Enter to skip):"
                   "Please select a year between 1980 and 2025." year_accepted
                   [ {| text := None; number := Some 1979 |} ] free_world _)
            {| text := None; number := Some 2015 |}
            [ {| text := None; number := Some 4 |} ] _).
  - repeat constructor.
  - reflexivity.
Defined.

(** The loop on the sort field does the same with the texts entered. *)
Theorem ask_sort_first_accepted (rejected : stdin) (w : World) :
  Forall (fun found => sort_accepted (default "" (text found)) = false)
    rejected ->
  let w' :=
    {| fs := fs w;
       stdout :=
         stdout w
         ++ retries "Do you want to sort the results? (Sort by: make, model, year, cylinders) (press Enter to skip):"
              "Invalid option." rejected |} in
  (forall found rest,
     sort_accepted (default "" (text found)) = true ->
     ask_sort (rejected ++ found :: rest) w
     = Some (default "" (text found), rest, w'))
  /\ ask_sort rejected w = Some ("", [], w').
Proof.
  intros Hrej. revert w. induction Hrej as [|r rejected Hr _ IH]; intros w.
  - cbv zeta. unfold retries. simpl. split; [|reflexivity].
    intros found rest Hok. fold (sort_accepted (default "" (text found))).
    rewrite Hok. reflexivity.
  - cbv zeta. simpl. fold (sort_accepted (default "" (text r))). rewrite Hr.
    destruct (IH (println "Invalid option."
                    (println "Do you want to sort the results? (Sort by: make, model, year, cylinders) (press Enter to skip):" w)))
      as [IH1 IH2].
    unfold retries in *. simpl in *. rewrite <- !app_assoc in *. simpl in *.
    split.
    + intros found rest Hok. rewrite (IH1 found rest Hok). reflexivity.
    + rewrite IH2. reflexivity.
Qed.

Lemma ask_sort_first_accepted_witness :
  ask_sort [ {| text := Some "price"; number := None |};
             {| text := Some "year"; number := None |} ] free_world
  = Some ("year", [],
          {| fs := fs free_world;
             stdout :=
               [ "Do you want to sort the results? (Sort by: make, model, year, cylinders) (press Enter to skip):" +:+ line_feed;
                 "Invalid option." +:+ line_feed;
                 "Do you want to sort the results? (Sort by: make, model, year, cylinders) (press Enter to skip):" +:+ line_feed ] |}).
Proof.
  refine (proj1 (ask_sort_first_accepted
                   [ {| text := Some "price"; number := None |} ] free_world _)
            {| text := Some "year"; number := None |} [] _).
  - repeat constructor.
  - reflexivity.
Defined.

End InputFacts.

(** ** The run of [main] after the prompts *)

Section RunFacts.
Import GoString GoInt Query Json Decoder OS Bufio Csv JsonText Fetcher
  Exporters Main Console.

Lemma ask_int_fs (prompt complaint : string) (accepted : Z -> bool)
    (input : stdin) (w : World) (x : Z) (rest : stdin) (w' : World) :
  ask_int prompt complaint accepted input w = Some (x, rest, w') ->
  fs w' = fs w.
Proof.
  revert w. induction input as [|found input IH]; intros w; simpl.
  - destruct (accepted 0); [|discriminate]. now intros [= _ _ <-].
  - destruct (accepted (default 0 (number found))).
    + now intros [= _ _ <-].
    + intros H. now rewrite (IH _ H).
Qed.

Lemma ask_sort_fs (input : stdin) (w : World) (s : string) (rest : stdin)
    (w' : World) :
  ask_sort input w = Some (s, rest, w') -> fs w' = fs w.
Proof.
  revert w. induction input as [|found input IH]; intros w; simpl.
  - now intros [= _ _ <-].
  - fold (sort_accepted (default "" (text found))).
    destruct (sort_accepted (default "" (text found))).
    + now intros [= _ _ <-].
    + intros H. now rewrite (IH _ H).
Qed.

(** The prompts touch no file. *)
Lemma collect_fs (input : stdin) (w : World) (c : FilterCriteria)
    (w' : World) :
  collect input w = Some (c, w') -> fs w' = fs w.
Proof.
  unfold collect. cbv zeta.
  destruct (Scanln_string "" input) as [mk input1].
  set (w0 := println "Enter the car maker (press Enter to skip):" w).
  assert (Hloops : forall mo input2 w2,
             fs w2 = fs w ->
             match ask_int "Enter the year (press Enter to skip):"
                     "Please select a year between 1980 and 2025."
                     year_accepted input2 w2 with
             | None => None
             | Some (year, input, w) =>
             match ask_int
                     "Enter the number of cylinders (press Enter to skip):"
                     "Invalid option." cylinders_accepted input w with
             | None => None
             | Some (cylinders, input, w) =>
             match ask_int
                     "Enter the maximum number of results you want (press Enter to skip):"
                     "Invalid option." resultNb_accepted input w with
             | None => None
             | Some (resultNb, input, w) =>
             match ask_sort input w with
             | None => None
             | Some (sort, input, w) =>
                 Some ({| make := mk; model := mo; sortField := sort;
                          year := year; cylinders := cylinders;
                          resultLimit := resultNb |}, w)
             end end end end = Some (c, w') ->
             fs w' = fs w).
  { intros mo input2 w2 H2.
    destruct (ask_int _ _ year_accepted input2 w2) as [[[y input3] w3]|] eqn:H3;
      [|discriminate].
    destruct (ask_int _ _ cylinders_accepted input3 w3)
      as [[[cy input4] w4]|] eqn:H4; [|discriminate].
    destruct (ask_int _ _ resultNb_accepted input4 w4)
      as [[[n input5] w5]|] eqn:H5; [|discriminate].
    destruct (ask_sort input5 w5) as [[[so input6] w6]|] eqn:H6;
      [|discriminate].
    intros [= _ <-].
    rewrite (ask_sort_fs _ _ _ _ _ H6), (ask_int_fs _ _ _ _ _ _ _ _ H5),
      (ask_int_fs _ _ _ _ _ _ _ _ H4), (ask_int_fs _ _ _ _ _ _ _ _ H3).
    exact H2. }
  destruct (is_empty mk); cbn [negb].
  - apply Hloops. reflexivity.
  - destruct (Scanln_string "" input1) as [mo input2]. apply Hloops.
    reflexivity.
Qed.

(** [fetchVehicles] touches no file and prints its two lines, whatever it
    returns. *)
Lemma fetchVehicles_world (get : string -> http_reply) (c : FilterCriteria)
    (w : World) :
  snd (fetchVehicles get (make c) (model c) (sortField c) (year c)
         (cylinders c) (resultLimit c) w)
  = {| fs := fs w; stdout := stdout w ++ fetch_lines c |}.
Proof.
  unfold fetchVehicles, fetch_lines, QueryBuilder, println, print. cbv zeta.
  destruct (fetch (get _)); cbn [snd fs stdout];
    now rewrite <- app_assoc.
Qed.

(** The two files are asked for, the JSON one first, whatever the
    exporters meet. *)
Lemma export_calls (vehicles : list Vehicle) (w : World) :
  exists between after,
    calls (fs (export vehicles w))
    = calls (fs w) ++ SysCreate "vehicles.json"
        :: between ++ SysCreate "vehicles.csv" :: after.
Proof.
  unfold export.
  destruct (saveVehiclesToJSON_frame vehicles "vehicles.json" w)
    as (_ & _ & between & Hjson).
  destruct (saveVehiclesToJSON vehicles "vehicles.json" w) as [e1 w1].
  cbn [snd] in Hjson.
  destruct (saveVehiclesToCSV_calls vehicles "vehicles.csv"
              (report "JSON" "vehicles.json" e1 w1)) as [after Hcsv].
  destruct (saveVehiclesToCSV vehicles "vehicles.csv" (report "JSON" "vehicles.json" e1 w1))
    as [e2 w2]. cbn [snd] in Hcsv.
  rewrite report_fs, Hcsv, report_fs, Hjson. exists between, after.
  now rewrite <- app_assoc.
Qed.

(** Whatever is typed and whatever the network answers, [main] comes to
    its end, and it touches the files only when the fetch gave at least
    one vehicle: then both files are asked for; with no vehicle the
    message about it is the last thing printed; after an error of the
    fetch the program exits with it, and a panic ends it. *)
Theorem main_files (get : string -> http_reply) (input : stdin) (w : World) :
  exists c w1,
    collect input w = Some (c, w1)
    /\ main get input w = Some (run get c w1)
    /\ match fst (fetchVehicles get (make c) (model c) (sortField c) (year c)
                    (cylinders c) (resultLimit c) w1) with
       | Return [] =>
           fst (run get c w1) = Returned
           /\ fs (snd (run get c w1)) = fs w
           /\ last (stdout (snd (run get c w1)))
              = Some ("No vehicles found for the given criteria." +:+ line_feed)
       | Return (v :: vs) =>
           fst (run get c w1) = Returned
           /\ exists between after,
                calls (fs (snd (run get c w1)))
                = calls (fs w) ++ SysCreate "vehicles.json"
                    :: between ++ SysCreate "vehicles.csv" :: after
       | Fail e =>
           fst (run get c w1) = Fatal e /\ fs (snd (run get c w1)) = fs w
           /\ stdout (snd (run get c w1)) = stdout w1 ++ fetch_lines c
       | Panic =>
           fst (run get c w1) = Crashed /\ fs (snd (run get c w1)) = fs w
           /\ stdout (snd (run get c w1)) = stdout w1 ++ fetch_lines c
       end.
Proof.
  destruct (collect_total input w) as (c & w1 & Hc & _).
  exists c, w1. split; [exact Hc|]. split; [unfold main; now rewrite Hc|].
  pose proof (collect_fs _ _ _ _ Hc) as Hfs1.
  pose proof (fetchVehicles_world get c w1) as Hw2.
  unfold run.
  destruct (fetchVehicles get (make c) (model c) (sortField c) (year c)
              (cylinders c) (resultLimit c) w1) as [[[|v vs]|e|] w2];
    cbn [fst snd] in *; subst w2.
  - split; [reflexivity|]. split; [simpl; congruence|].
    unfold display. simpl. apply last_snoc.
  - split; [reflexivity|].
    rewrite display_nonempty by discriminate.
    match goal with |- context [export ?vs (listing ?vs ?w0)] =>
      destruct (export_calls vs (listing vs w0)) as (between & after & ->);
      rewrite (proj1 (listing_world vs w0))
    end.
    cbn [fs]. rewrite Hfs1. now exists between, after.
  - split; [reflexivity|]. split; [simpl; congruence | reflexivity].
  - split; [reflexivity|]. split; [simpl; congruence | reflexivity].
Qed.

(** When the API answers 200 with a body that decodes to at least one
    vehicle and both files are writable, the run prints the two lines of
    the fetch, the listing and the two messages of the exporters, leaves
    both documents in their files and returns. *)
Theorem run_success (get : string -> http_reply) (c : FilterCriteria)
    (w : World) (body : payload) (vehicles : list Vehicle) :
  get (QueryBuilder c) = Response 200 (Complete body) ->
  decode body = Return vehicles -> vehicles <> [] ->
  writable "vehicles.json" (fs w) -> writable "vehicles.csv" (fs w) ->
  fst (run get c w) = Returned
  /\ stdout (snd (run get c w))
     = stdout w ++ fetch_lines c
       ++ ("Vehicles found:" +:+ line_feed)
          :: map (fun v => listing_line v +:+ line_feed) vehicles
       ++ ["Vehicles data saved to vehicles.json" +:+ line_feed;
           "Vehicles data saved to vehicles.csv" +:+ line_feed]
  /\ content "vehicles.json" (fs (snd (run get c w))) = MarshalIndent vehicles
  /\ content "vehicles.csv" (fs (snd (run get c w))) = csv_text vehicles.
Proof.
  intros Hget Hdecode Hne Hjson Hcsv.
  pose proof (fetchVehicles_world get c w) as Hw2.
  assert (Hresult : fst (fetchVehicles get (make c) (model c) (sortField c)
                           (year c) (cylinders c) (resultLimit c) w)
                    = Return vehicles).
  { unfold fetchVehicles. cbv zeta. fold (QueryBuilder c). rewrite Hget.
    cbn [fetch StatusOK Z.eqb Pos.eqb negb fst]. exact Hdecode. }
  unfold run.
  destruct (fetchVehicles get (make c) (model c) (sortField c) (year c)
              (cylinders c) (resultLimit c) w) as [result w2].
  cbn [fst snd] in *. subst result w2. split; [reflexivity|]. cbn [snd].
  match goal with |- context [display vehicles ?w0] =>
    destruct (display_writable vehicles w0 Hne Hjson Hcsv) as (Hout & Hj & Hc)
  end.
  rewrite Hout, Hj, Hc. cbn [stdout]. rewrite <- app_assoc.
  repeat split.
Qed.

Lemma run_success_witness :
  fst (run (fun _ => Response 200 (Complete one_malformed_body))
         honda_criteria free_world) = Returned
  /\ content "vehicles.csv"
       (fs (snd (run (fun _ => Response 200 (Complete one_malformed_body))
                   honda_criteria free_world)))
     = csv_text [toyota].
Proof.
  assert (Hwritable : forall name, writable name (fs free_world)).
  { intros name. split; [|reflexivity]. intros Hin. vm_compute in Hin.
    discriminate. }
  assert (Hne : [toyota] <> []) by discriminate.
  destruct (run_success (fun _ => Response 200 (Complete one_malformed_body))
              honda_criteria free_world one_malformed_body [toyota]
              eq_refl eq_refl Hne (Hwritable "vehicles.json")
              (Hwritable "vehicles.csv")) as (Hexit & _ & _ & Hcsv).
  split; [exact Hexit | exact Hcsv].
Defined.

End RunFacts.

(** ** The buffered writer on any file *)

Section DeviceFacts.
Import GoString GoInt Decoder OS Bufio Csv JsonText Exporters Device.
Variable name : string.

Lemma substring_prefix (a b : string) :
  substring 0 (String.length a) (a +:+ b) = a.
Proof. induction a as [|c a IH]; simpl; [now destruct b | now rewrite IH]. Qed.

Lemma substring_beyond (n : nat) (s : string) :
  (String.length s <= n)%nat -> substring 0 n s = s.
Proof.
  revert n. induction s as [|c s IH]; intros [|n] Hn; simpl in *;
    try reflexivity; try lia.
  rewrite IH by lia. reflexivity.
Qed.

Lemma exhausted_le (f : FileSystem) (n m : nat) :
  (n <= m)%nat -> exhausted name f n -> exhausted name f m.
Proof. intros Hnm (limit & Hq & Hc & Hlt). exists limit. repeat split; [assumption.. | lia]. Qed.

(** What a write does to a file that is within its limit. *)
Lemma Write_within (data : string) (f : FileSystem) :
  within name f ->
  let n := fst (OS.Write name data f) in
  let f' := snd (OS.Write name data f) in
  (n <= String.length data)%nat
  /\ content name f' = content name f +:+ substring 0 n data
  /\ quota f' = quota f
  /\ within name f'
  /\ ((n < String.length data)%nat ->
      exists limit, quota f' !! name = Some limit
                    /\ String.length (content name f') = limit).
Proof.
  intros Hw. cbv zeta.
  destruct (Write_result name data f) as [Hn Hc]. rewrite Hn, Hc.
  assert (Hq : quota (snd (OS.Write name data f)) = quota f) by reflexivity.
  rewrite Hq. unfold within. rewrite Hq, Hc.
  rewrite length_append, length_substring, Nat.sub_0_r.
  unfold room. destruct (quota f !! name) as [limit|] eqn:Hlimit.
  - pose proof (Hw limit Hlimit) as Hle.
    split; [lia|]. split; [reflexivity|]. split; [reflexivity|].
    split.
    + intros l [= <-]. lia.
    + intros Hshort. exists limit. split; [reflexivity | lia].
  - split; [lia|]. split; [reflexivity|]. split; [reflexivity|].
    split; [discriminate | lia].
Qed.

Lemma Flush_kept (b : Writer) : err b = true -> Flush name b = (false, b).
Proof. intros He. unfold Flush. now rewrite He. Qed.

(** A flush moves bytes from the buffer to the file: the stream stays. *)
Lemma Flush_accounts (b : Writer) :
  err b = false -> within name (under b) ->
  stream name (snd (Flush name b)) = stream name b
  /\ quota (under (snd (Flush name b))) = quota (under b)
  /\ within name (under (snd (Flush name b)))
  /\ if fst (Flush name b)
     then buf (snd (Flush name b)) = "" /\ err (snd (Flush name b)) = false
     else err (snd (Flush name b)) = true
          /\ exhausted name (under (snd (Flush name b)))
               (String.length (stream name b)).
Proof.
  intros He Hw. unfold Flush. rewrite He.
  destruct (Nat.eqb (Buffered b) 0) eqn:Hempty; cbn [fst snd].
  - repeat split; try assumption. now apply buf_empty.
  - destruct (Write_within (buf b) (under b) Hw) as (Hn & Hc & Hq & Hw' & Hfull).
    destruct (OS.Write name (buf b) (under b)) as [n f]. cbn [fst snd] in *.
    unfold Buffered.
    destruct (Nat.ltb n (String.length (buf b))) eqn:Hshort; cbn [fst snd].
    + apply Nat.ltb_lt in Hshort. unfold stream. cbn [buf err under].
      rewrite Hc, append_assoc, substring_split by lia.
      repeat split; try assumption.
      destruct (Hfull Hshort) as (limit & Hl & Hlen). exists limit.
      repeat split; try assumption.
      rewrite <- Hlen, Hc, !length_append, length_substring. lia.
    + apply Nat.ltb_ge in Hshort. unfold stream. cbn [buf err under].
      rewrite Hc, append_empty_r.
      replace n with (String.length (buf b)) by lia.
      rewrite substring_all. repeat split; assumption.
Qed.

Lemma accounts_skip : accounts name "" skip.
Proof.
  intros b He Hw. exists "", "".
  unfold skip. cbn [fst snd]. rewrite !append_empty_r.
  repeat split; assumption.
Qed.

Lemma accounts_data (d d' : string) (op : call) :
  d = d' -> accounts name d op -> accounts name d' op.
Proof. now intros ->. Qed.

Lemma accounts_and_then (d1 d2 : string) (op1 op2 : call) :
  accounts name d1 op1 -> accounts name d2 op2 ->
  accounts name (d1 +:+ d2) (and_then op1 op2).
Proof.
  intros H1 H2 b He Hw. unfold and_then.
  destruct (H1 b He Hw) as (p1 & r1 & -> & T1 & Q1 & W1 & R1).
  destruct (op1 b) as [[|] b1]; cbn [fst snd] in *.
  - destruct R1 as [-> He1].
    destruct (H2 b1 He1 W1) as (p2 & r2 & -> & T2 & Q2 & W2 & R2).
    exists (p1 +:+ p2), r2. rewrite append_empty_r.
    split; [now rewrite append_assoc|].
    split; [now rewrite T2, T1, append_assoc|].
    split; [congruence|]. split; [assumption|].
    destruct (fst (op2 b1)); [assumption|].
    destruct R2 as [He2 Hx]. split; [assumption|].
    eapply exhausted_le; [|exact Hx].
    rewrite T1, !length_append. lia.
  - exists p1, (r1 +:+ d2). split; [now rewrite !append_assoc|].
    split; [assumption|]. split; [assumption|]. split; [assumption|].
    destruct R1 as [He1 Hx]. split; [assumption|].
    eapply exhausted_le; [|exact Hx]. rewrite !length_append. lia.
Qed.

Lemma accounts_WriteByte (c : ascii) :
  accounts name (String c "") (WriteByte name c).
Proof.
  intros b He Hw. unfold WriteByte. rewrite He.
  destruct (Nat.leb (Available b) 0).
  - destruct (Flush_accounts b He Hw) as (T & Q & W & R).
    destruct (Flush name b) as [[|] b1]; cbn [fst snd] in *.
    + destruct R as [Hbuf He1]. exists (String c ""), "".
      split; [reflexivity|]. unfold stream in *. cbn [buf err under].
      rewrite Hbuf in *. rewrite append_empty_r in T. rewrite T.
      repeat split; assumption.
    + destruct R as [He1 Hx]. exists "", (String c "").
      split; [reflexivity|]. rewrite append_empty_r.
      repeat split; try assumption.
      eapply exhausted_le; [|exact Hx]. lia.
  - exists (String c ""), "". cbn [fst snd]. split; [reflexivity|].
    unfold stream. cbn [buf err under]. rewrite append_assoc.
    repeat split; assumption.
Qed.

(** One turn of the loop of [WriteString]. *)
Lemma WriteString_turn_accounts (s : string) (b : Writer) :
  err b = false -> within name (under b) ->
  let s' := fst (WriteString_turn name s b) in
  let b' := snd (WriteString_turn name s b) in
  exists part,
    s = part +:+ s'
    /\ stream name b' = stream name b +:+ part
    /\ quota (under b') = quota (under b)
    /\ within name (under b')
    /\ (err b' = true ->
        exhausted name (under b')
          (String.length (stream name b) + String.length s)).
Proof.
  intros He Hw. cbv zeta. unfold WriteString_turn.
  destruct (loop_condition s b) eqn:Hcond.
  - unfold loop_condition in Hcond. rewrite He, andb_true_r in Hcond.
    apply Nat.ltb_lt in Hcond.
    destruct (Nat.eqb (Buffered b) 0) eqn:Hempty.
    + destruct (Write_within s (under b) Hw) as (Hn & Hc & Hq & Hw' & Hfull).
      destruct (OS.Write name s (under b)) as [n f]. cbn [fst snd] in *.
      exists (substring 0 n s). split; [now rewrite substring_split|].
      unfold stream. cbn [buf err under].
      rewrite Hc, (buf_empty b Hempty), !append_empty_r.
      repeat split; try assumption.
      intros Hshort. apply Nat.ltb_lt in Hshort.
      destruct (Hfull Hshort) as (limit & Hl & Hlen). exists limit.
      repeat split; try assumption.
      rewrite <- Hlen, Hc, !length_append, length_substring. lia.
    + cbv zeta.
      set (filled := {| buf := buf b +:+ substring 0 (Available b) s;
                        err := err b; under := under b |}).
      assert (Hef : err filled = false) by exact He.
      destruct (Flush_accounts filled Hef Hw) as (T & Q & W & R).
      destruct (Flush name filled) as [ok b1]. cbn [fst snd] in *.
      exists (substring 0 (Available b) s).
      split; [now rewrite substring_split by lia|].
      split; [rewrite T; unfold stream, filled; cbn [buf under];
              now rewrite append_assoc|].
      split; [assumption|]. split; [assumption|].
      intros He1. destruct ok; [destruct R as [_ R]; congruence|].
      destruct R as [_ Hx]. eapply exhausted_le; [|exact Hx].
      unfold stream, filled. cbn [buf under].
      rewrite !length_append, length_substring. lia.
  - cbn [fst snd]. exists "". split; [reflexivity|].
    rewrite append_empty_r. repeat split; try assumption. congruence.
Qed.

Lemma WriteString_turn_kept (s : string) (b : Writer) :
  err b = true -> WriteString_turn name s b = (s, b).
Proof.
  intros He. unfold WriteString_turn, loop_condition.
  now rewrite He, andb_false_r.
Qed.

Lemma accounts_WriteString (s : string) : accounts name s (WriteString name s).
Proof.
  intros b He Hw. unfold WriteString.
  - destruct (WriteString_turn_accounts s b He Hw)
      as (p1 & Hs1 & T1 & Q1 & W1 & X1).
    destruct (WriteString_turn name s b) as [s1 b1]. cbn [fst snd] in *.
    destruct (err b1) eqn:He1.
    + rewrite (WriteString_turn_kept s1 b1 He1), He1. cbn [fst snd].
      exists p1, s1. repeat split; try assumption. now apply X1.
    + destruct (WriteString_turn_accounts s1 b1 He1 W1)
        as (p2 & Hs2 & T2 & Q2 & W2 & X2).
      destruct (WriteString_turn name s1 b1) as [s2 b2]. cbn [fst snd] in *.
      destruct (err b2) eqn:He2; cbn [fst snd].
      * exists (p1 +:+ p2), s2.
        split; [now rewrite append_assoc, <- Hs2|].
        split; [now rewrite T2, T1, append_assoc|].
        split; [congruence|]. split; [assumption|]. split; [assumption|].
        eapply exhausted_le; [|exact (X2 eq_refl)].
        rewrite T1, Hs1, !length_append. lia.
      * exists s, "". split; [now rewrite append_empty_r|].
        unfold stream in *. cbn [buf err under].
        rewrite <- append_assoc, T2, T1, Hs1, Hs2, !append_assoc.
        repeat split; try assumption; congruence.
Qed.

Lemma accounts_write_quoted (field chunk : string) :
  accounts name (chunk +:+ quoted_body field) (write_quoted name field chunk).
Proof.
  revert chunk. induction field as [|c rest IH]; intros chunk; simpl.
  - destruct chunk as [|x chunk]; simpl.
    + apply accounts_skip.
    + rewrite append_empty_r. apply accounts_WriteString.
  - destruct (Ascii.eqb c quote) eqn:Hquote.
    + apply accounts_and_then; [apply accounts_WriteString|].
      apply (accounts_and_then (String quote (String quote ""))
               (quoted_body rest));
        [apply accounts_WriteString | apply (IH "")].
    + destruct (Ascii.eqb c CR || Ascii.eqb c LF).
      * apply accounts_and_then; [apply accounts_WriteString|].
        apply (accounts_and_then (String c "") (quoted_body rest));
          [apply accounts_WriteByte | apply (IH "")].
      * eapply accounts_data; [|apply IH]. now rewrite append_assoc.
Qed.

Lemma accounts_write_field (field : string) :
  accounts name (field_text field) (write_field name field).
Proof.
  unfold write_field, field_text. destruct (fieldNeedsQuotes field); simpl.
  - apply (accounts_and_then (String quote "")
             (quoted_body field +:+ String quote "")).
    + apply accounts_WriteByte.
    + apply accounts_and_then; [apply (accounts_write_quoted field "")|].
      apply accounts_WriteByte.
  - apply accounts_WriteString.
Qed.

Lemma accounts_Write (record : list string) :
  accounts name (record_text record) (Csv.Write name record).
Proof.
  apply accounts_and_then; [|apply accounts_WriteByte].
  generalize 0%nat. induction record as [|field rest IH]; intros n; simpl.
  - apply accounts_skip.
  - apply accounts_and_then.
    + destruct (Nat.ltb 0 n); [apply accounts_WriteByte | apply accounts_skip].
    + apply accounts_and_then; [apply accounts_write_field | apply IH].
Qed.

Lemma accounts_write_rows (vehicles : list Vehicle) :
  accounts name (records_text (map row vehicles)) (write_rows name vehicles).
Proof.
  induction vehicles as [|v rest IH]; simpl.
  - apply accounts_skip.
  - apply accounts_and_then; [apply accounts_Write | exact IH].
Qed.

End DeviceFacts.

Section CsvFileFacts.
Import GoString GoInt Decoder OS Bufio Csv JsonText Exporters Device.
Variable name : string.

(** The deferred flush leaves in the file the bytes of the text that the
    file has room for. *)
Lemma deferred_Flush_file (result : option error) (b : Writer) (w : World)
    (f : FileSystem) (text part rest : string) :
  content name f = "" -> quota (under b) = quota f ->
  within name (under b) ->
  text = part +:+ rest -> stream name b = part ->
  (if err b then exhausted name (under b) (String.length text)
   else rest = "") ->
  let taken := room name f (String.length text) in
  content name (fs (snd (deferred_Flush name result b w)))
  = substring 0 taken text
  /\ fst (deferred_Flush name result b w) = result
  /\ (err b = true -> (taken < String.length text)%nat).
Proof.
  intros Hempty Hq Hw Htext Hstream Hcase. cbv zeta.
  unfold deferred_Flush, room. rewrite Hempty, <- Hq. cbn [String.length].
  destruct (err b) eqn:He.
  - rewrite (Flush_kept name b He). cbn [fst snd fs with_fs].
    destruct Hcase as (limit & Hl & Hlen & Hlt). rewrite Hl, Nat.sub_0_r.
    rewrite Nat.min_r by lia. split; [|split; [reflexivity | intros _; lia]].
    unfold stream in Hstream.
    rewrite Htext, <- Hstream, append_assoc, <- Hlen.
    symmetry. apply substring_prefix.
  - subst rest. rewrite append_empty_r in Htext. subst part.
    destruct (Flush_accounts name b He Hw) as (T & Q & W & R).
    destruct (Flush name b) as [ok b1]. cbn [fst snd fs with_fs] in *.
    split; [|split; [reflexivity | discriminate]].
    rewrite <- Q. destruct ok.
    + destruct R as [Hbuf _]. unfold stream at 1 in T.
      rewrite Hbuf, append_empty_r in T. rewrite T, Hstream.
      symmetry. apply substring_beyond.
      destruct (quota (under b1) !! name) as [limit|] eqn:Hl; [|lia].
      specialize (W limit Hl). rewrite T, Hstream in W. lia.
    + destruct R as [_ (limit & Hl & Hlen & Hlt)]. rewrite Hl, Nat.sub_0_r.
      rewrite Hstream in Hlt. rewrite Nat.min_r by lia.
      rewrite <- Hstream, <- T, <- Hlen. unfold stream.
      symmetry. apply substring_prefix.
Qed.

(** Whatever the file accepts, once it is created the CSV exporter leaves
    in it the first bytes of the CSV text, as many as the file has room
    for; with room for all of them it returns no error; and the only
    errors it returns then are those of the header and of a row. *)
Theorem saveVehiclesToCSV_file (vehicles : list Vehicle) (w : World) :
  (name ∉ denied (fs w)) ->
  let result := fst (saveVehiclesToCSV vehicles name w) in
  let after := fs (snd (saveVehiclesToCSV vehicles name w)) in
  let text := csv_text vehicles in
  let taken := room name (snd (Create name (fs w))) (String.length text) in
  content name after = substring 0 taken text
  /\ (taken = String.length text ->
      result = None /\ content name after = text)
  /\ (result = None \/ result = Some WriteHeaderFailed
      \/ result = Some WriteRowFailed).
Proof.
  intros Hd. cbv zeta. unfold saveVehiclesToCSV.
  destruct (Create_allowed name (fs w) Hd) as (Hok & Hempty & Hquota).
  destruct (Create name (fs w)) as [created f1]. cbn [fst snd] in *.
  subst created. cbn [negb].
  set (b0 := {| buf := ""; err := false; under := f1 |}).
  assert (Hw0 : within name (under b0)).
  { intros limit _. unfold b0. cbn [under]. rewrite Hempty. simpl. lia. }
  assert (Htext : csv_text vehicles
                  = record_text header +:+ records_text (map row vehicles))
    by reflexivity.
  assert (Hs0 : stream name b0 = "").
  { unfold stream, b0. cbn [under buf]. now rewrite Hempty. }
  destruct (accounts_Write name header b0 eq_refl Hw0)
    as (p1 & r1 & Hd1 & T1 & Q1 & W1 & R1).
  rewrite Hs0 in T1, R1. cbn [String.append String.length Nat.add] in T1, R1.
  destruct (Csv.Write name header b0) as [[|] b1]; cbn [fst snd negb] in *.
  - destruct R1 as [-> He1]. rewrite append_empty_r in Hd1. subst p1.
    destruct (accounts_write_rows name vehicles b1 He1 W1)
      as (p2 & r2 & Hd2 & T2 & Q2 & W2 & R2).
    rewrite T1 in T2, R2. rewrite <- length_append, <- Htext in R2.
    destruct (write_rows name vehicles b1) as [[|] b2]; cbn [fst snd negb] in *.
    + destruct R2 as [-> He2].
      destruct (deferred_Flush_file None b2
                  (println ("Vehicles data saved to " +:+ name) w) f1
                  (csv_text vehicles) (record_text header +:+ p2) "")
        as (Hc & Hr & _); try assumption.
      * now rewrite Q2, Q1.
      * now rewrite Htext, Hd2, !append_empty_r.
      * now rewrite He2.
      * rewrite Hr, Hc. split; [reflexivity|]. split; [|now left].
        intros ->. split; [reflexivity | apply substring_all].
    + destruct R2 as [He2 Hx].
      destruct (deferred_Flush_file (Some WriteRowFailed) b2 w f1
                  (csv_text vehicles) (record_text header +:+ p2) r2)
        as (Hc & Hr & Hshort); try assumption.
      * now rewrite Q2, Q1.
      * now rewrite Htext, Hd2, append_assoc.
      * now rewrite He2.
      * rewrite Hr, Hc. split; [reflexivity|]. split; [|now right; right].
        intros Htaken. specialize (Hshort He2). lia.
  - destruct R1 as [He1 Hx].
    destruct (deferred_Flush_file (Some WriteHeaderFailed) b1 w f1
                (csv_text vehicles) p1
                (r1 +:+ records_text (map row vehicles)))
      as (Hc & Hr & Hshort); try assumption.
    + now rewrite Htext, Hd1, append_assoc.
    + rewrite He1. eapply exhausted_le; [|exact Hx].
      rewrite Htext, length_append. lia.
    + rewrite Hr, Hc. split; [reflexivity|]. split; [|now right; left].
      intros Htaken. specialize (Hshort He1). lia.
Qed.

End CsvFileFacts.

Lemma saveVehiclesToCSV_file_witness :
  OS.content "vehicles.csv"
    (OS.fs (snd (Exporters.saveVehiclesToCSV [Decoder.toyota] "vehicles.csv"
                   Samples.small_device_world)))
  = "Make,Model,Year,Cylinders" +:+ OS.line_feed +:+ "Toyo".
Proof.
  assert (Hd : "vehicles.csv" ∉ OS.denied (OS.fs Samples.small_device_world)).
  { intros Hin. vm_compute in Hin. discriminate. }
  exact (proj1 (saveVehiclesToCSV_file "vehicles.csv" [Decoder.toyota]
                  Samples.small_device_world Hd)).
Defined.

(** ** What the exported files tell apart *)

Section Lossless.
Import GoString GoInt Decoder OS Csv JsonText Exporters Reader Main Samples.

(** The CSV text keeps all there is in the vehicles: two sequences with
    the same text are the same sequence. *)
Theorem csv_text_injective (first second : list Vehicle) :
  Forall (fun v => in_range (Cylinders v)) first ->
  Forall (fun v => in_range (Cylinders v)) second ->
  csv_text first = csv_text second -> first = second.
Proof.
  intros Hfirst Hsecond Htext.
  pose proof (vehicles_of_csv_text first Hfirst) as H1.
  pose proof (vehicles_of_csv_text second Hsecond) as H2.
  rewrite Htext in H1. congruence.
Qed.

Lemma csv_text_injective_witness :
  csv_text [comma_in_make] <> csv_text [comma_in_model].
Proof.
  intros Htext.
  assert (Hrange : forall v, Cylinders v = 4 ->
                             Forall (fun v => in_range (Cylinders v)) [v]).
  { intros v Hv. repeat constructor; rewrite Hv; discriminate. }
  pose proof (csv_text_injective [comma_in_make] [comma_in_model]
                (Hrange comma_in_make eq_refl) (Hrange comma_in_model eq_refl)
                Htext) as Hsame.
  discriminate Hsame.
Defined.

(** The JSON document keeps all there is in vehicles whose text fields
    are valid UTF-8; bytes that are no UTF-8 text are all written as the
    same escape, so that two different makes can give one document. *)
Theorem MarshalIndent_injective :
  (forall first second : list Vehicle,
     Forall well_formed first -> Forall well_formed second ->
     MarshalIndent first = MarshalIndent second -> first = second)
  /\ MarshalIndent [invalid_utf8_vehicle]
     = MarshalIndent [with_Make (bytes [254]%N) invalid_utf8_vehicle]
  /\ invalid_utf8_vehicle <> with_Make (bytes [254]%N) invalid_utf8_vehicle.
Proof.
  split; [|split; [reflexivity | discriminate]].
  intros first second Hfirst Hsecond Htext.
  pose proof (vehicles_of_json_text first Hfirst) as H1.
  pose proof (vehicles_of_json_text second Hsecond) as H2.
  rewrite Htext in H1. congruence.
Qed.

End Lossless.

(** ** The files the program leaves alone *)

Section FrameFacts.
Import GoString GoInt Query Json Decoder OS Bufio Csv JsonText Fetcher
  Exporters Main Response Console Frame.

Lemma Write_elsewhere (name data : string) (f : FileSystem) :
  same_elsewhere name f (snd (OS.Write name data f)).
Proof.
  repeat split. intros other Hother. cbn [snd OS.Write disk].
  now rewrite lookup_insert_ne.
Qed.

Lemma Create_elsewhere (name : string) (f : FileSystem) :
  same_elsewhere name f (snd (Create name f)).
Proof.
  unfold Create. destruct (decide (name ∈ denied f)); repeat split.
  intros other Hother. cbn [snd disk]. now rewrite lookup_insert_ne.
Qed.

Lemma keeps_skip (name : string) : keeps name skip.
Proof. intros b. apply same_elsewhere_refl. Qed.

Lemma keeps_and_then (name : string) (op1 op2 : call) :
  keeps name op1 -> keeps name op2 -> keeps name (and_then op1 op2).
Proof.
  intros H1 H2 b. unfold and_then. specialize (H1 b).
  destruct (op1 b) as [[|] b1]; cbn [snd] in *; [|exact H1].
  apply (same_elsewhere_trans _ _ _ _ H1 (H2 b1)).
Qed.

Lemma keeps_Flush (name : string) : keeps name (Flush name).
Proof.
  intros b. unfold Flush. destruct (err b); [apply same_elsewhere_refl|].
  destruct (Nat.eqb (Buffered b) 0); [apply same_elsewhere_refl|].
  pose proof (Write_elsewhere name (buf b) (under b)) as H.
  destruct (OS.Write name (buf b) (under b)) as [n f]. cbn [snd] in H.
  destruct (Nat.ltb n (Buffered b)); exact H.
Qed.

Lemma keeps_WriteByte (name : string) (c : ascii) :
  keeps name (WriteByte name c).
Proof.
  intros b. unfold WriteByte. destruct (err b); [apply same_elsewhere_refl|].
  destruct (Nat.leb (Available b) 0); [|apply same_elsewhere_refl].
  pose proof (keeps_Flush name b) as H.
  destruct (Flush name b) as [[|] b']; exact H.
Qed.

Lemma WriteString_turn_elsewhere (name s : string) (b : Writer) :
  same_elsewhere name (under b) (under (snd (WriteString_turn name s b))).
Proof.
  unfold WriteString_turn.
  destruct (loop_condition s b); [|apply same_elsewhere_refl].
  destruct (Nat.eqb (Buffered b) 0).
  - pose proof (Write_elsewhere name s (under b)) as H.
    destruct (OS.Write name s (under b)) as [n f]. exact H.
  - match goal with |- context [Flush name ?x] =>
      pose proof (keeps_Flush name x) as H; destruct (Flush name x) as [ok b']
    end. exact H.
Qed.

Lemma keeps_WriteString (name s : string) : keeps name (WriteString name s).
Proof.
  intros b. unfold WriteString.
  pose proof (WriteString_turn_elsewhere name s b) as H1.
  destruct (WriteString_turn name s b) as [s1 b1].
  pose proof (WriteString_turn_elsewhere name s1 b1) as H2.
  destruct (WriteString_turn name s1 b1) as [s2 b2]. cbn [snd] in *.
  destruct (err b2); apply (same_elsewhere_trans _ _ _ _ H1 H2).
Qed.

Lemma keeps_write_quoted (name field chunk : string) :
  keeps name (write_quoted name field chunk).
Proof.
  revert chunk. induction field as [|c rest IH]; intros chunk; simpl.
  - destruct (is_empty chunk); [apply keeps_skip | apply keeps_WriteString].
  - destruct (Ascii.eqb c quote);
      [|destruct (Ascii.eqb c CR || Ascii.eqb c LF)];
      repeat apply keeps_and_then;
      auto using keeps_WriteString, keeps_WriteByte.
Qed.

Lemma keeps_Write (name : string) (record : list string) :
  keeps name (Csv.Write name record).
Proof.
  unfold Csv.Write. apply keeps_and_then; [|apply keeps_WriteByte].
  generalize 0%nat. induction record as [|field rest IH]; intros n; simpl.
  - apply keeps_skip.
  - apply keeps_and_then;
      [destruct (Nat.ltb 0 n); [apply keeps_WriteByte | apply keeps_skip]|].
    apply keeps_and_then; [|apply IH].
    unfold write_field. destruct (fieldNeedsQuotes field); simpl;
      repeat apply keeps_and_then;
      auto using keeps_WriteString, keeps_WriteByte, keeps_write_quoted.
Qed.

Lemma keeps_write_rows (name : string) (vehicles : list Vehicle) :
  keeps name (write_rows name vehicles).
Proof.
  induction vehicles as [|v rest IH]; simpl;
    [apply keeps_skip | apply keeps_and_then; [apply keeps_Write | exact IH]].
Qed.

(** Each exporter leaves every file but its own as it is, whatever its
    own file does. *)
Lemma saveVehiclesToJSON_elsewhere (vehicles : list Vehicle) (name : string)
    (w : World) :
  same_elsewhere name (fs w) (fs (snd (saveVehiclesToJSON vehicles name w))).
Proof.
  unfold saveVehiclesToJSON.
  pose proof (Create_elsewhere name (fs w)) as H1.
  destruct (Create name (fs w)) as [[|] f1]; cbn [negb snd] in *;
    [|exact H1].
  pose proof (Write_elsewhere name (MarshalIndent vehicles) f1) as H2.
  destruct (OS.Write name (MarshalIndent vehicles) f1) as [n f2].
  cbn [snd] in H2.
  destruct (Nat.ltb n _); cbn [snd fs with_fs println print];
    apply (same_elsewhere_trans _ _ _ _ H1 H2).
Qed.

Lemma saveVehiclesToCSV_elsewhere (vehicles : list Vehicle) (name : string)
    (w : World) :
  same_elsewhere name (fs w) (fs (snd (saveVehiclesToCSV vehicles name w))).
Proof.
  unfold saveVehiclesToCSV.
  pose proof (Create_elsewhere name (fs w)) as H0.
  destruct (Create name (fs w)) as [[|] f1]; cbn [negb snd] in *;
    [|exact H0].
  set (b0 := {| buf := ""; err := false; under := f1 |}).
  assert (Hend : forall b e w0,
             same_elsewhere name f1 (under b) ->
             same_elsewhere name (fs w)
               (fs (snd (deferred_Flush name e b w0)))).
  { intros b e w0 Hb. unfold deferred_Flush.
    pose proof (keeps_Flush name b) as Hf.
    destruct (Flush name b) as [ok b']. cbn [snd fs with_fs] in *.
    eauto using same_elsewhere_trans. }
  pose proof (keeps_Write name header b0) as H1.
  destruct (Csv.Write name header b0) as [[|] b1]; cbn [negb snd] in *;
    [|now apply Hend].
  pose proof (keeps_write_rows name vehicles b1) as H2.
  destruct (write_rows name vehicles b1) as [[|] b2]; cbn [negb snd] in *;
    apply Hend; eauto using same_elsewhere_trans.
Qed.

Lemma same_but_exports_of (name : string) (f f' : FileSystem) :
  name = "vehicles.json" \/ name = "vehicles.csv" ->
  same_elsewhere name f f' -> same_but_exports f f'.
Proof.
  intros Hname (Hd & Hq & Hk). repeat split; try assumption.
  intros other Hj Hc. apply Hk. destruct Hname; congruence.
Qed.

Lemma same_but_exports_trans (f g h : FileSystem) :
  same_but_exports f g -> same_but_exports g h -> same_but_exports f h.
Proof.
  intros (Hd & Hq & Hk) (Hd' & Hq' & Hk'). repeat split; try congruence.
  intros other Hj Hc. now rewrite Hk', Hk.
Qed.

(** Whatever is typed, whatever the network answers and whatever the
    files do, [main] changes no file but [vehicles.json] and
    [vehicles.csv]. *)
Theorem main_other_files (get : string -> http_reply) (input : stdin)
    (w : World) :
  exists result,
    main get input w = Some result
    /\ same_but_exports (fs w) (fs (snd result)).
Proof.
  destruct (collect_total input w) as (c & w1 & Hc & _).
  exists (run get c w1). split; [unfold main; now rewrite Hc|].
  pose proof (collect_fs _ _ _ _ Hc) as Hfs1.
  pose proof (fetchVehicles_world get c w1) as Hw2.
  assert (Hrefl : forall f, same_but_exports f f) by (intros f; repeat split).
  unfold run.
  destruct (fetchVehicles get (make c) (model c) (sortField c) (year c)
              (cylinders c) (resultLimit c) w1) as [[vehicles|e|] w2];
    cbn [fst snd] in *; subst w2; cbn [fs]; rewrite ?Hfs1;
    try apply Hrefl.
  unfold display. destruct (Nat.eqb (length vehicles) 0).
  { cbn [println print fs]. apply Hrefl. }
  unfold export.
  match goal with |- context [saveVehiclesToJSON vehicles _ ?w0] =>
    pose proof (saveVehiclesToJSON_elsewhere vehicles "vehicles.json" w0)
      as Hjson;
    rewrite (proj1 (listing_world vehicles _)) in Hjson;
    destruct (saveVehiclesToJSON vehicles "vehicles.json" w0) as [e1 w3]
  end.
  cbn [snd fs] in Hjson.
  pose proof (saveVehiclesToCSV_elsewhere vehicles "vehicles.csv"
                (report "JSON" "vehicles.json" e1 w3)) as Hcsv.
  destruct (saveVehiclesToCSV vehicles "vehicles.csv" (report "JSON" "vehicles.json" e1 w3))
    as [e2 w4].
  cbn [snd] in Hcsv. rewrite report_fs in *.
  apply (same_but_exports_trans _ (fs w3)).
  - apply (same_but_exports_of "vehicles.json"); [now left | exact Hjson].
  - apply (same_but_exports_of "vehicles.csv"); [now right | exact Hcsv].
Qed.

(** The program crashes exactly when the API answers 200 with a body
    that [json.Unmarshal] stores in full as an object whose [records]
    sequence holds an element that is not an object.  For a body that is
    a JSON text this asks that the text is not nested too deep and that
    all its numbers fit a [float64]: with a number that does not, the
    program exits with the parse error, whatever [records] holds. *)
Theorem run_crashes_exactly (get : string -> http_reply) (c : FilterCriteria)
    (w : World) :
  (fst (run get c w) = Crashed
   <-> exists envelope records,
         get (QueryBuilder c)
         = Response 200 (Complete (Document (JObject envelope)))
         /\ envelope !! "records" = Some (JArray records)
         /\ Exists (fun record => is_object record = false) records)
  /\ (forall t : syntax,
        get (QueryBuilder c) = Response 200 (Complete (read t)) ->
        (fst (run get c w) = Crashed
         <-> (depth t <= maxNestingDepth)%nat /\ storable t = true
             /\ exists envelope records,
                  stored t = JObject envelope
                  /\ envelope !! "records" = Some (JArray records)
                  /\ Exists (fun record => is_object record = false) records))
  /\ (get (QueryBuilder c) = Response 200 (Complete (read number_element_text))
      -> fst (run get c w) = Fatal ParseFailed).
Proof.
  assert (Hexists : forall records,
             forallb is_object records = false
             <-> Exists (fun record => is_object record = false) records).
  { induction records as [|r rest IH]; simpl.
    - split; [discriminate | intros H; inversion H].
    - rewrite andb_false_iff, Exists_cons, IH. reflexivity. }
  assert (Hcrash :
            fst (run get c w) = Crashed
            <-> exists envelope records,
                  get (QueryBuilder c)
                  = Response 200 (Complete (Document (JObject envelope)))
                  /\ envelope !! "records" = Some (JArray records)
                  /\ Exists (fun record => is_object record = false) records).
  { unfold run, fetchVehicles. cbv zeta. fold (QueryBuilder c).
    split.
    - destruct (get (QueryBuilder c)) as [detail|code [detail|body]];
        cbn [fetch]; try discriminate.
      + destruct (negb (code =? StatusOK)); discriminate.
      + destruct (Z.eqb_spec code StatusOK) as [->|_]; cbn [negb];
          [|discriminate].
        rewrite decode_eq.
        destruct body as [| |[| | | | |envelope]]; cbn [Unmarshal_map];
          rewrite ?lookup_empty; try discriminate.
        destruct (envelope !! "records") as [[| | | |records|]|] eqn:Hr;
          try discriminate.
        destruct (forallb is_object records) eqn:Hall; [discriminate|].
        intros _. exists envelope, records. split; [reflexivity|].
        split; [exact Hr|]. now apply Hexists.
    - intros (envelope & records & -> & Hr & Hbad).
      cbn [fetch StatusOK Z.eqb Pos.eqb negb]. rewrite decode_eq.
      cbn [Unmarshal_map]. rewrite Hr.
      apply Hexists in Hbad. now rewrite Hbad. }
  split; [exact Hcrash|]. split.
  - intros t Hget. rewrite Hcrash, Hget. unfold read.
    destruct (Nat.ltb maxNestingDepth (depth t)) eqn:Hdeep.
    { apply Nat.ltb_lt in Hdeep. split.
      - intros (envelope & records & [=] & _).
      - intros (Hle & _). lia. }
    apply Nat.ltb_ge in Hdeep.
    destruct (storable t) eqn:Hstorable.
    + split.
      * intros (envelope & records & [= Hstored] & Hr & Hbad).
        split; [exact Hdeep|]. split; [reflexivity|]. eauto.
      * intros (_ & _ & envelope & records & Hstored & Hr & Hbad).
        exists envelope, records. now rewrite Hstored.
    + split.
      * intros (envelope & records & [=] & _).
      * intros (_ & [=] & _).
  - intros Hget. unfold run, fetchVehicles. cbv zeta. fold (QueryBuilder c).
    rewrite Hget. reflexivity.
Qed.

End FrameFacts.

(** ** The JSON document as UTF-8 text *)

Section Utf8Facts.
Import GoString GoInt Decoder Csv JsonText Encoding.

Lemma utf8_valid_ascii (a rest : string) :
  is_ascii a = true -> utf8_valid 0 (a +:+ rest) = utf8_valid 0 rest.
Proof.
  unfold is_ascii. induction a as [|c a IH]; simpl; [reflexivity|].
  rewrite andb_true_iff. intros [-> Ha]. now apply IH.
Qed.

Lemma is_ascii_escape_byte (c : ascii) :
  (code c <? 128)%N = true -> is_ascii (escape_byte c) = true.
Proof.
  destruct c as [[] [] [] [] [] [] [] []]; intros H; try discriminate H;
    reflexivity.
Qed.

Lemma is_ascii_uint (d : Decimal.uint) :
  is_ascii (NilEmpty.string_of_uint d) = true.
Proof. unfold is_ascii. induction d; simpl; assumption || reflexivity. Qed.

Lemma is_ascii_Itoa (n : Z) : is_ascii (Itoa n) = true.
Proof.
  unfold Itoa, NilZero.string_of_int, NilZero.string_of_uint.
  destruct (Z.to_int n) as [d|d]; destruct d; try reflexivity;
    try match goal with
      | |- is_ascii (String "-" ?s) = true => change (is_ascii s = true)
      end;
    apply (is_ascii_uint (_ _)).
Qed.

(** A valid encoding has its bytes. *)
Lemma rune_tail_length (c : ascii) (rest : string) (k : nat) :
  rune_tail (String c rest) = Some k -> (k <= String.length rest)%nat.
Proof.
  unfold rune_tail. destruct rest as [|c1 rest1]; [discriminate|].
  destruct ((194 <=? code c) && (code c <=? 223))%N.
  { destruct (continuation c1); intros [= <-]. simpl. lia. }
  destruct ((224 <=? code c) && (code c <=? 239))%N.
  { destruct rest1 as [|c2 rest2]; [discriminate|].
    destruct (second_byte_ok (code c) (code c1) && continuation c2);
      intros [= <-]. simpl. lia. }
  destruct ((240 <=? code c) && (code c <=? 244))%N; [|discriminate].
  destruct rest1 as [|c2 [|c3 rest3]]; try discriminate.
  destruct (second_byte_ok (code c) (code c1) && continuation c2
            && continuation c3); intros [= <-]. simpl. lia.
Qed.

(** What is written between the quotes is valid UTF-8, whatever the bytes
    of the string. *)
Lemma utf8_valid_escape (n : nat) :
  forall (s : string) (pass : nat) (rest : string),
    (String.length s <= n)%nat -> (pass <= String.length s)%nat ->
    utf8_valid pass (escape pass s +:+ rest) = utf8_valid 0 rest.
Proof.
  induction n as [|n IH]; intros s pass rest Hlen Hpass.
  - destruct s; [|simpl in Hlen; lia]. simpl in Hpass.
    now replace pass with 0%nat by lia.
  - destruct s as [|c s].
    { simpl in Hpass. now replace pass with 0%nat by lia. }
    simpl in Hlen, Hpass. destruct pass as [|k].
    + cbn [escape].
      destruct (code c <? 128)%N eqn:Hascii.
      * rewrite append_assoc, utf8_valid_ascii
          by now apply is_ascii_escape_byte.
        apply IH; lia.
      * destruct (rune_tail (String c s)) as [k|] eqn:Htail.
        2:{ rewrite append_assoc, utf8_valid_ascii by reflexivity.
            apply IH; lia. }
        pose proof (rune_tail_length c s k Htail) as Hk.
        assert (Hcopy : utf8_valid 0 (String c (escape k s) +:+ rest)
                        = utf8_valid 0 rest).
        { cbn [String.append utf8_valid]. rewrite Hascii.
          rewrite (rune_tail_escape c s rest k Htail).
          apply IH; lia. }
        destruct s as [|c1 [|c2 s']]; try exact Hcopy.
        destruct ((code c =? 226)%N && (code c1 =? 128)%N
                  && ((code c2 =? 168) || (code c2 =? 169))%N) eqn:Hsep;
          [|exact Hcopy].
        apply andb_true_iff in Hsep as [_ H2].
        assert (Hd : code c2 = 168%N \/ code c2 = 169%N).
        { apply orb_true_iff in H2 as [H2|H2]; apply N.eqb_eq in H2; auto. }
        rewrite !append_assoc, utf8_valid_ascii by reflexivity.
        rewrite utf8_valid_ascii
          by (destruct Hd as [Hd|Hd]; rewrite Hd; reflexivity).
        apply IH; simpl in *; lia.
    + cbn [escape String.append utf8_valid]. apply IH; lia.
Qed.

Lemma utf8_valid_string_text (s rest : string) :
  utf8_valid 0 (string_text s +:+ rest) = utf8_valid 0 rest.
Proof.
  unfold string_text. rewrite append_assoc.
  change (String quote (escape 0 s) +:+ String quote "" +:+ rest)
    with (String quote "" +:+ escape 0 s +:+ String quote "" +:+ rest).
  rewrite utf8_valid_ascii by reflexivity.
  rewrite (utf8_valid_escape (String.length s)) by lia.
  now rewrite utf8_valid_ascii by reflexivity.
Qed.

Lemma utf8_valid_vehicle_text (v : Vehicle) (rest : string) :
  utf8_valid 0 (vehicle_text v +:+ rest) = utf8_valid 0 rest.
Proof.
  unfold vehicle_text, member_text, NL. rewrite !append_assoc.
  repeat first
    [ rewrite utf8_valid_string_text
    | rewrite utf8_valid_ascii by (reflexivity || apply is_ascii_Itoa) ].
  reflexivity.
Qed.

Lemma utf8_valid_elements_text (vehicles : list Vehicle) (rest : string) :
  utf8_valid 0 (elements_text vehicles +:+ rest) = utf8_valid 0 rest.
Proof.
  induction vehicles as [|v [|v' vs] IH].
  - reflexivity.
  - cbn [elements_text]. rewrite append_assoc, utf8_valid_vehicle_text.
    reflexivity.
  - change (elements_text (v :: v' :: vs))
      with (vehicle_text v +:+ "," +:+ NL +:+ elements_text (v' :: vs)).
    rewrite !append_assoc, utf8_valid_vehicle_text.
    rewrite utf8_valid_ascii by reflexivity.
    rewrite utf8_valid_ascii by reflexivity. exact IH.
Qed.

(** The JSON document is valid UTF-8 text, whatever the bytes of the
    fields of the vehicles. *)
Theorem MarshalIndent_utf8_valid (vehicles : list Vehicle) :
  utf8_valid 0 (MarshalIndent vehicles) = true.
Proof.
  destruct vehicles as [|v vs]; [reflexivity|].
  unfold MarshalIndent.
  rewrite utf8_valid_ascii by reflexivity.
  rewrite utf8_valid_ascii by reflexivity.
  rewrite utf8_valid_elements_text. reflexivity.
Qed.

End Utf8Facts.

(** ** What the exporters print *)

Section MessageFacts.
Import GoString GoInt Decoder OS Bufio Csv JsonText Exporters.

(** Each exporter prints its message, [Vehicles data saved to] and the
    name of the file, exactly when it returns no error, and prints
    nothing else. *)
Theorem exporters_messages (vehicles : list Vehicle) (name : string)
    (w : World) :
  let saved := "Vehicles data saved to " +:+ name +:+ line_feed in
  let json := saveVehiclesToJSON vehicles name w in
  let csv := saveVehiclesToCSV vehicles name w in
  stdout (snd json)
  = stdout w ++ (if fst json is None then [saved] else [])
  /\ stdout (snd csv)
     = stdout w ++ (if fst csv is None then [saved] else []).
Proof.
  cbv zeta. split.
  - unfold saveVehiclesToJSON.
    destruct (Create name (fs w)) as [[|] f1]; cbn [negb fst snd];
      [|now rewrite app_nil_r].
    destruct (OS.Write name (MarshalIndent vehicles) f1) as [n f2].
    destruct (Nat.ltb n _); cbn [fst snd stdout with_fs println print];
      [now rewrite app_nil_r | reflexivity].
  - unfold saveVehiclesToCSV, deferred_Flush.
    destruct (Create name (fs w)) as [[|] f1]; cbn [negb fst snd];
      [|now rewrite app_nil_r].
    destruct (Csv.Write name header _) as [[|] b1]; cbn [negb].
    + destruct (write_rows name vehicles b1) as [[|] b2]; cbn [negb];
        destruct (Flush name b2) as [ok b3];
        cbn [fst snd stdout with_fs println print];
        [reflexivity | now rewrite app_nil_r].
    + destruct (Flush name b1) as [ok b3].
      cbn [fst snd stdout with_fs]. now rewrite app_nil_r.
Qed.

End MessageFacts.

(** ** Each exporter on its own *)

Section IndependenceFacts.
Import GoString GoInt Query Json Decoder OS Bufio Csv JsonText Fetcher
  Exporters Main Console Expected Independence.
Variable name : string.

Lemma alike_refl (b : Writer) : alike name b b.
Proof. repeat split. Qed.

Ltac settle :=
  unfold alike in *; cbn [fst snd buf err under] in *;
  repeat match goal with H : _ /\ _ |- _ => destruct H end;
  repeat split; first [assumption | congruence].

(** A write takes as many bytes from the one file system as from the
    other. *)
Lemma Write_alike (data : string) (f f' : FileSystem) :
  quota f !! name = quota f' !! name ->
  content name f = content name f' ->
  fst (OS.Write name data f) = fst (OS.Write name data f')
  /\ quota (snd (OS.Write name data f)) !! name
     = quota (snd (OS.Write name data f')) !! name
  /\ content name (snd (OS.Write name data f))
     = content name (snd (OS.Write name data f'))
  /\ strerror (snd (OS.Write name data f)) = strerror f.
Proof.
  intros Hq Hc.
  destruct (Write_result name data f) as [Hn Hcontent].
  destruct (Write_result name data f') as [Hn' Hcontent'].
  assert (Hroom : room name f (String.length data)
                  = room name f' (String.length data)).
  { unfold room. now rewrite Hq, Hc. }
  rewrite Hn, Hn', Hcontent, Hcontent', Hroom, Hc.
  repeat split; try reflexivity. exact Hq.
Qed.

Lemma agrees_skip : agrees name skip.
Proof. intros b b' H. repeat split; apply H. Qed.

Lemma agrees_and_then (op1 op2 : call) :
  agrees name op1 -> agrees name op2 -> agrees name (and_then op1 op2).
Proof.
  intros H1 H2 b b' Hb. unfold and_then.
  destruct (H1 b b' Hb) as (R1 & A1 & S1).
  destruct (op1 b) as [ok1 b1], (op1 b') as [ok1' b1']. cbn [fst snd] in *.
  subst ok1'. destruct ok1; cbn [fst snd]; [|auto].
  destruct (H2 b1 b1' A1) as (R2 & A2 & S2).
  repeat split; try assumption; try apply A2. congruence.
Qed.

Lemma agrees_Flush : agrees name (Flush name).
Proof.
  intros b b' (Hbuf & Herr & Hq & Hc). unfold Flush, Buffered.
  rewrite <- Herr, <- Hbuf. destruct (err b) eqn:He.
  { settle. }
  destruct (Nat.eqb (String.length (buf b)) 0).
  { settle. }
  destruct (Write_alike (buf b) (under b) (under b') Hq Hc)
    as (Hn & Hq' & Hc' & Hs).
  destruct (OS.Write name (buf b) (under b)) as [n f].
  destruct (OS.Write name (buf b) (under b')) as [n' f'].
  cbn [fst snd] in *. subst n'.
  destruct (Nat.ltb n (String.length (buf b))); settle.
Qed.

Lemma agrees_WriteByte (c : ascii) : agrees name (WriteByte name c).
Proof.
  intros b b' Hb. pose proof Hb as (Hbuf & Herr & Hq & Hc).
  unfold WriteByte, Available. rewrite <- Herr, <- Hbuf.
  destruct (err b) eqn:He.
  { settle. }
  destruct (Nat.leb (defaultBufSize - String.length (buf b)) 0).
  - destruct (agrees_Flush b b' Hb) as (R & (Hbuf1 & Herr1 & Hq1 & Hc1) & S).
    destruct (Flush name b) as [ok b1], (Flush name b') as [ok' b1'].
    cbn [fst snd] in *. subst ok'.
    destruct ok; settle.
  - settle.
Qed.

Lemma WriteString_turn_alike (s : string) (b b' : Writer) :
  alike name b b' ->
  fst (WriteString_turn name s b) = fst (WriteString_turn name s b')
  /\ alike name (snd (WriteString_turn name s b))
       (snd (WriteString_turn name s b'))
  /\ strerror (under (snd (WriteString_turn name s b))) = strerror (under b).
Proof.
  intros Hb. pose proof Hb as (Hbuf & Herr & Hq & Hc).
  unfold WriteString_turn, loop_condition, Available, Buffered.
  rewrite <- Herr, <- Hbuf.
  destruct (Nat.ltb (defaultBufSize - String.length (buf b))
              (String.length s) && negb (err b)).
  2:{ settle. }
  destruct (Nat.eqb (String.length (buf b)) 0).
  - destruct (Write_alike s (under b) (under b') Hq Hc)
      as (Hn & Hq' & Hc' & Hs).
    destruct (OS.Write name s (under b)) as [n f].
    destruct (OS.Write name s (under b')) as [n' f'].
    cbn [fst snd] in *. subst n'. settle.
  - cbv zeta.
    set (filled := {| buf := buf b +:+ substring 0 _ s; err := err b;
                      under := under b |}).
    set (filled' := {| buf := buf b +:+ substring 0 _ s; err := err b;
                       under := under b' |}).
    assert (Hfilled : alike name filled filled') by (repeat split; assumption).
    destruct (agrees_Flush filled filled' Hfilled) as (R & A & S).
    destruct (Flush name filled) as [ok b1], (Flush name filled') as [ok' b1'].
    subst filled filled'. settle.
Qed.

Lemma agrees_WriteString (s : string) : agrees name (WriteString name s).
Proof.
  intros b b' Hb. unfold WriteString.
  destruct (WriteString_turn_alike s b b' Hb) as (R1 & A1 & S1).
  destruct (WriteString_turn name s b) as [s1 b1].
  destruct (WriteString_turn name s b') as [s1' b1'].
  cbn [fst snd] in *. subst s1'.
  destruct (WriteString_turn_alike s1 b1 b1' A1) as (R2 & A2 & S2).
  destruct (WriteString_turn name s1 b1) as [s2 b2].
  destruct (WriteString_turn name s1 b1') as [s2' b2'].
  cbn [fst snd] in *. subst s2'.
  destruct A2 as (Hbuf & Herr & Hq & Hc). rewrite <- Herr.
  destruct (err b2) eqn:He; settle.
Qed.

Lemma agrees_write_quoted (field chunk : string) :
  agrees name (write_quoted name field chunk).
Proof.
  revert chunk. induction field as [|c rest IH]; intros chunk; simpl.
  - destruct (is_empty chunk); [apply agrees_skip | apply agrees_WriteString].
  - destruct (Ascii.eqb c quote);
      [|destruct (Ascii.eqb c CR || Ascii.eqb c LF)];
      repeat apply agrees_and_then;
      auto using agrees_WriteString, agrees_WriteByte.
Qed.

Lemma agrees_Write (record : list string) : agrees name (Csv.Write name record).
Proof.
  unfold Csv.Write. apply agrees_and_then; [|apply agrees_WriteByte].
  generalize 0%nat. induction record as [|field rest IH]; intros n; simpl.
  - apply agrees_skip.
  - apply agrees_and_then;
      [destruct (Nat.ltb 0 n); [apply agrees_WriteByte | apply agrees_skip]|].
    apply agrees_and_then; [|apply IH].
    unfold write_field. destruct (fieldNeedsQuotes field); simpl;
      repeat apply agrees_and_then;
      auto using agrees_WriteString, agrees_WriteByte, agrees_write_quoted.
Qed.

Lemma agrees_write_rows (vehicles : list Vehicle) :
  agrees name (write_rows name vehicles).
Proof.
  induction vehicles as [|v rest IH]; simpl;
    [apply agrees_skip | apply agrees_and_then; [apply agrees_Write | exact IH]].
Qed.

(** The CSV exporter returns the same and leaves the same bytes in its
    file in two worlds where its file can or cannot be created alike and
    meets the same limit. *)
Lemma saveVehiclesToCSV_alike (vehicles : list Vehicle) (w w' : World) :
  (name ∈ denied (fs w) <-> name ∈ denied (fs w')) ->
  quota (fs w) !! name = quota (fs w') !! name ->
  fst (saveVehiclesToCSV vehicles name w)
  = fst (saveVehiclesToCSV vehicles name w')
  /\ strerror (fs (snd (saveVehiclesToCSV vehicles name w))) = strerror (fs w)
  /\ (content name (fs w) = content name (fs w') ->
      content name (fs (snd (saveVehiclesToCSV vehicles name w)))
      = content name (fs (snd (saveVehiclesToCSV vehicles name w')))).
Proof.
  intros Hd Hq. unfold saveVehiclesToCSV, Create.
  destruct (decide (name ∈ denied (fs w))) as [Hin|Hout];
    destruct (decide (name ∈ denied (fs w'))) as [Hin'|Hout'];
    try tauto; cbn [negb fst snd fs with_fs strerror].
  set (b0 := {| buf := ""; err := false; under := _ |}).
  match goal with
  | |- context [Csv.Write name header ?x] =>
      match x with b0 => fail 1 | _ => set (b0' := x) end
  end.
  assert (H0 : alike name b0 b0').
  { unfold alike, b0, b0', content. cbn [buf err under quota disk].
    rewrite !lookup_insert_eq. repeat split. exact Hq. }
  assert (Hend : forall b b' e e0 w0 w0',
             alike name b b' -> strerror (under b) = strerror (fs w) ->
             fst (deferred_Flush name e b w0) = e
             /\ fst (deferred_Flush name e0 b' w0') = e0
             /\ strerror (fs (snd (deferred_Flush name e b w0)))
                = strerror (fs w)
             /\ content name (fs (snd (deferred_Flush name e b w0)))
                = content name (fs (snd (deferred_Flush name e0 b' w0')))).
  { intros b b' e e0 w0 w0' Hb Hs. unfold deferred_Flush.
    destruct (agrees_Flush b b' Hb) as (_ & A & S).
    destruct (Flush name b) as [ok b1], (Flush name b') as [ok' b1'].
    cbn [fst snd fs with_fs] in *. repeat split; [congruence | apply A]. }
  destruct (agrees_Write header b0 b0' H0) as (R1 & A1 & S1).
  destruct (Csv.Write name header b0) as [ok1 b1].
  destruct (Csv.Write name header b0') as [ok1' b1'].
  cbn [fst snd] in *. subst ok1'.
  assert (Hs1 : strerror (under b1) = strerror (fs w))
    by (rewrite S1; reflexivity).
  destruct ok1; cbn [negb].
  - destruct (agrees_write_rows vehicles b1 b1' A1) as (R2 & A2 & S2).
    destruct (write_rows name vehicles b1) as [ok2 b2].
    destruct (write_rows name vehicles b1') as [ok2' b2'].
    cbn [fst snd] in *. subst ok2'.
    destruct ok2; cbn [negb];
      match goal with
      | |- context [deferred_Flush name ?e b2 ?w0] =>
          match goal with
          | |- context [deferred_Flush name ?e0 b2' ?w0'] =>
              destruct (Hend b2 b2' e e0 w0 w0' A2) as (E1 & E2 & E3 & E4);
              [now rewrite S2|]
          end
      end; rewrite E1, E2; repeat split; first [assumption | congruence | auto].
  - match goal with
    | |- context [deferred_Flush name ?e b1 ?w0] =>
        match goal with
        | |- context [deferred_Flush name ?e0 b1' ?w0'] =>
            destruct (Hend b1 b1' e e0 w0 w0' A1) as (E1 & E2 & E3 & E4);
            [exact Hs1|]
        end
    end. rewrite E1, E2. repeat split; first [assumption | congruence | auto].
Qed.

End IndependenceFacts.

(** ** The run from the response to the files *)

Section PipelineFacts.
Import GoString GoInt Query Json Decoder OS Bufio Csv JsonText Fetcher
  Exporters Main Console Expected Independence.

(** The elements of the JSON document are the texts of the vehicles, in
    the order of the sequence, with a comma and a line feed between two
    of them. *)
Lemma MarshalIndent_concat (vehicles : list Vehicle) :
  vehicles <> [] ->
  MarshalIndent vehicles
  = "[" +:+ NL +:+ String.concat ("," +:+ NL) (map vehicle_text vehicles)
    +:+ NL +:+ "]".
Proof.
  intros Hne.
  assert (H : forall v vs,
             elements_text (v :: vs)
             = String.concat ("," +:+ NL) (map vehicle_text (v :: vs)) +:+ NL).
  { intros v vs. revert v. induction vs as [|v' vs IH]; intros v.
    - reflexivity.
    - change (elements_text (v :: v' :: vs))
        with (vehicle_text v +:+ "," +:+ NL +:+ elements_text (v' :: vs)).
      rewrite IH.
      change (String.concat ("," +:+ NL) (map vehicle_text (v :: v' :: vs)))
        with (vehicle_text v +:+ ("," +:+ NL)
              +:+ String.concat ("," +:+ NL) (map vehicle_text (v' :: vs))).
      now rewrite !append_assoc. }
  destruct vehicles as [|v vs]; [contradiction|].
  unfold MarshalIndent. rewrite H. now rewrite !append_assoc.
Qed.

(** The CSV text is the texts of the header and of the rows of the
    vehicles, in the order of the sequence. *)
Lemma csv_text_concat (vehicles : list Vehicle) :
  csv_text vehicles
  = String.concat "" (map record_text (header :: map row vehicles)).
Proof.
  unfold csv_text. generalize (header :: map row vehicles).
  induction l as [|r [|r' rs] IH].
  - reflexivity.
  - simpl. apply append_empty_r.
  - change (records_text (r :: r' :: rs))
      with (record_text r +:+ records_text (r' :: rs)).
    rewrite IH. reflexivity.
Qed.

(** What an exporter returns and does to the files depends on the files
    alone; what it prints is its message, when it returns no error. *)
Lemma saveVehiclesToJSON_fs (vehicles : list Vehicle) (name : string)
    (w w' : World) :
  fs w = fs w' ->
  fst (saveVehiclesToJSON vehicles name w)
  = fst (saveVehiclesToJSON vehicles name w')
  /\ fs (snd (saveVehiclesToJSON vehicles name w))
     = fs (snd (saveVehiclesToJSON vehicles name w'))
  /\ strerror (fs (snd (saveVehiclesToJSON vehicles name w)))
     = strerror (fs w)
  /\ stdout (snd (saveVehiclesToJSON vehicles name w))
     = stdout w
       ++ (if fst (saveVehiclesToJSON vehicles name w) is None
           then ["Vehicles data saved to " +:+ name +:+ line_feed] else []).
Proof.
  intros Hfs. unfold saveVehiclesToJSON. rewrite <- Hfs.
  assert (Hc : strerror (snd (Create name (fs w))) = strerror (fs w)).
  { unfold Create. now destruct (decide (name ∈ denied (fs w))). }
  destruct (Create name (fs w)) as [[|] f1]; cbn [negb fst snd] in *.
  - destruct (OS.Write name (MarshalIndent vehicles) f1) as [n f2] eqn:Hw.
    assert (Hs : strerror f2 = strerror f1).
    { unfold OS.Write in Hw. injection Hw as _ <-. reflexivity. }
    destruct (Nat.ltb n _); cbn [fst snd fs stdout with_fs println print];
      rewrite ?app_nil_r; repeat split; congruence.
  - cbn [fs stdout with_fs]. rewrite app_nil_r. repeat split. exact Hc.
Qed.

Lemma saveVehiclesToCSV_stdout (vehicles : list Vehicle) (name : string)
    (w : World) :
  stdout (snd (saveVehiclesToCSV vehicles name w))
  = stdout w
    ++ (if fst (saveVehiclesToCSV vehicles name w) is None
        then ["Vehicles data saved to " +:+ name +:+ line_feed] else []).
Proof.
  unfold saveVehiclesToCSV, deferred_Flush.
  destruct (Create name (fs w)) as [[|] f1]; cbn [negb fst snd];
    [|now rewrite app_nil_r].
  destruct (Csv.Write name header _) as [[|] b1]; cbn [negb].
  - destruct (write_rows name vehicles b1) as [[|] b2]; cbn [negb];
      destruct (Flush name b2) as [ok b3];
      cbn [fst snd stdout with_fs println print];
      [reflexivity | now rewrite app_nil_r].
  - destruct (Flush name b1) as [ok b3].
    cbn [fst snd stdout with_fs]. now rewrite app_nil_r.
Qed.

Lemma report_stdout (format name : string) (result : option error)
    (w : World) (before : list string) (f : FileSystem) :
  strerror (fs w) = strerror f ->
  stdout w
  = before ++ (if result is None
               then ["Vehicles data saved to " +:+ name +:+ line_feed]
               else []) ->
  stdout (report format name result w)
  = before ++ outcome format name f result.
Proof.
  intros Hs Hout. destruct result as [e|]; cbn [report outcome].
  - cbn [println print stdout]. rewrite Hout, app_nil_r.
    unfold message. rewrite Hs, !append_assoc. reflexivity.
  - exact Hout.
Qed.

(** What [display] leaves, in terms of each exporter run alone on the
    files [display] starts from. *)
Lemma display_alone (vehicles : list Vehicle) (w : World) :
  vehicles <> [] ->
  let json := saveVehiclesToJSON vehicles "vehicles.json" w in
  let csv := saveVehiclesToCSV vehicles "vehicles.csv" w in
  content "vehicles.json" (fs (display vehicles w))
  = content "vehicles.json" (fs (snd json))
  /\ content "vehicles.csv" (fs (display vehicles w))
     = content "vehicles.csv" (fs (snd csv))
  /\ stdout (display vehicles w)
     = stdout w
       ++ ("Vehicles found:" +:+ line_feed)
          :: map (fun v => listing_line v +:+ line_feed) vehicles
       ++ outcome "JSON" "vehicles.json" (fs w) (fst json)
       ++ outcome "CSV" "vehicles.csv" (fs w) (fst csv).
Proof.
  intros Hne. cbv zeta. rewrite display_nonempty by assumption.
  unfold export. destruct (listing_world vehicles w) as [Hfs Hout].
  destruct (saveVehiclesToJSON_fs vehicles "vehicles.json"
              (listing vehicles w) w Hfs) as (Hr1 & Hf1 & Hs1 & Ho1).
  pose proof (saveVehiclesToJSON_elsewhere vehicles "vehicles.json"
                (listing vehicles w)) as He1.
  destruct (saveVehiclesToJSON vehicles "vehicles.json" (listing vehicles w))
    as [e1 w1]. cbn [fst snd] in *.
  rewrite Hfs in Hs1, He1. destruct He1 as (Hd1 & Hq1 & Hk1).
  set (w2 := report "JSON" "vehicles.json" e1 w1).
  assert (Hfs2 : fs w2 = fs w1) by apply report_fs.
  assert (Hout2 : stdout w2
                  = (stdout w
                     ++ ("Vehicles found:" +:+ line_feed)
                        :: map (fun v => listing_line v +:+ line_feed) vehicles)
                    ++ outcome "JSON" "vehicles.json" (fs w) e1).
  { apply report_stdout; [exact Hs1|]. now rewrite Ho1, Hout. }
  destruct (saveVehiclesToCSV_alike "vehicles.csv" vehicles w2 w)
    as (Hr2 & Hs2 & Hc2).
  { rewrite Hfs2, Hd1. reflexivity. }
  { now rewrite Hfs2, Hq1. }
  pose proof (saveVehiclesToCSV_stdout vehicles "vehicles.csv" w2) as Ho2.
  pose proof (saveVehiclesToCSV_elsewhere vehicles "vehicles.csv" w2) as He2.
  destruct (saveVehiclesToCSV vehicles "vehicles.csv" w2) as [e2 w3].
  cbn [fst snd] in *. rewrite report_fs.
  destruct He2 as (_ & _ & Hk2).
  split; [|split].
  - unfold content. rewrite Hk2 by discriminate. now rewrite Hfs2, Hf1.
  - apply Hc2. unfold content. rewrite Hfs2. now rewrite Hk1 by discriminate.
  - rewrite <- Hr1, <- Hr2.
    rewrite (report_stdout "CSV" "vehicles.csv" e2 w3 (stdout w2) (fs w)).
    + rewrite Hout2, <- !app_assoc. reflexivity.
    + now rewrite Hs2, Hfs2.
    + exact Ho2.
Qed.

(** C7: when the fetch gave a sequence that is not empty, the run goes on
    to its end whatever the exporters meet.  Both files are asked for,
    the JSON one first; each exporter leaves in its file what it leaves
    when it is run alone on the files as they were, and the console shows
    for each, after the listing, what that exporter returned alone: its
    message, or the line with its error.  When [vehicles.json] cannot be
    created and [vehicles.csv] is writable, the JSON exporter returns its
    creation error and the CSV file is written in full. *)
Theorem exporters_independent (get : string -> http_reply)
    (c : FilterCriteria) (w w1 : World) (vehicles : list Vehicle) :
  fetchVehicles get (make c) (model c) (sortField c) (year c) (cylinders c)
    (resultLimit c) w = (Return vehicles, w1) ->
  vehicles <> [] ->
  let json := saveVehiclesToJSON vehicles "vehicles.json" w1 in
  let csv := saveVehiclesToCSV vehicles "vehicles.csv" w1 in
  let done := snd (run get c w) in
  fst (run get c w) = Returned
  /\ (exists between rest,
        calls (fs done)
        = calls (fs w1) ++ SysCreate "vehicles.json"
            :: between ++ SysCreate "vehicles.csv" :: rest)
  /\ content "vehicles.json" (fs done)
     = content "vehicles.json" (fs (snd json))
  /\ content "vehicles.csv" (fs done) = content "vehicles.csv" (fs (snd csv))
  /\ stdout done
     = stdout w1
       ++ ("Vehicles found:" +:+ line_feed)
          :: map (fun v => listing_line v +:+ line_feed) vehicles
       ++ outcome "JSON" "vehicles.json" (fs w1) (fst json)
       ++ outcome "CSV" "vehicles.csv" (fs w1) (fst csv)
  /\ ("vehicles.json" ∈ denied (fs w1) -> writable "vehicles.csv" (fs w1) ->
      fst json = Some CreateJSONFailed /\ fst csv = None
      /\ content "vehicles.csv" (fs done) = csv_text vehicles).
Proof.
  intros Hfetch Hne. cbv zeta. unfold run. rewrite Hfetch. cbn [fst snd].
  destruct (display_alone vehicles w1 Hne) as (Hj & Hc & Hout).
  split; [reflexivity|]. split.
  { rewrite display_nonempty by assumption.
    destruct (export_calls vehicles (listing vehicles w1))
      as (between & rest & ->).
    rewrite (proj1 (listing_world vehicles w1)). now exists between, rest. }
  split; [exact Hj|]. split; [exact Hc|]. split; [exact Hout|].
  intros Hdenied Hwritable.
  destruct (saveVehiclesToCSV_writable vehicles "vehicles.csv" w1 Hwritable)
    as (w' & Hrun & Hcontent & _).
  rewrite Hc, Hrun. cbn [fst snd]. split; [|split; [reflexivity | exact Hcontent]].
  unfold saveVehiclesToJSON, Create.
  destruct (decide ("vehicles.json" ∈ denied (fs w1))); [reflexivity|].
  contradiction.
Qed.

Lemma exporters_independent_witness :
  let reply := fun _ : string => Response 200 (Complete one_malformed_body) in
  fst (run reply honda_criteria json_denied_world) = Returned
  /\ stdout (snd (run reply honda_criteria json_denied_world))
     = [ "ANNEE : 2015CYLINDER : 4";
         "URL fini " +:+ QueryBuilder honda_criteria +:+ line_feed;
         "Vehicles found:" +:+ line_feed;
         "Make: Toyota, Model: Corolla, Year: 2020, Cylinders: 4"
         +:+ line_feed;
         "Error saving to JSON: failed to create JSON file: open vehicles.json: permission denied"
         +:+ line_feed;
         "Vehicles data saved to vehicles.csv" +:+ line_feed ]
  /\ content "vehicles.csv"
       (fs (snd (run reply honda_criteria json_denied_world)))
     = "Make,Model,Year,Cylinders" +:+ line_feed
       +:+ "Toyota,Corolla,2020,4" +:+ line_feed.
Proof.
  intros reply.
  assert (Hne : [toyota] <> []) by discriminate.
  destruct (exporters_independent reply honda_criteria json_denied_world
              (snd (fetchVehicles reply (make honda_criteria)
                      (model honda_criteria) (sortField honda_criteria)
                      (year honda_criteria) (cylinders honda_criteria)
                      (resultLimit honda_criteria) json_denied_world))
              [toyota] eq_refl Hne)
    as (Hexit & _ & _ & _ & Hout & Hscenario).
  destruct Hscenario as (_ & _ & Hcsv).
  - reflexivity.
  - split; [|reflexivity]. intros Hin. vm_compute in Hin. discriminate.
  - split; [exact Hexit|]. split; [exact Hout | exact Hcsv].
Defined.

(** C6: the decoded sequence holds the records of the usable elements in
    the order of the elements of [records]; and the run that gets this
    body prints the vehicles in that order, writes their objects in that
    order in the JSON document and their rows in that order, after the
    header, in the CSV file. *)
Theorem order_preserved (get : string -> http_reply) (c : FilterCriteria)
    (w : World) (body : payload) (vehicles : list Vehicle) :
  get (QueryBuilder c) = Response 200 (Complete body) ->
  decode body = Return vehicles ->
  vehicles <> [] ->
  writable "vehicles.json" (fs w) -> writable "vehicles.csv" (fs w) ->
  let done := snd (run get c w) in
  (exists result records,
     Unmarshal_map body = Some result
     /\ result !! "records" = Some (JArray records)
     /\ vehicles = map vehicle_of_fields (omap usable_fields records))
  /\ stdout done
     = stdout w ++ fetch_lines c
       ++ ("Vehicles found:" +:+ line_feed)
          :: map (fun v => listing_line v +:+ line_feed) vehicles
       ++ ["Vehicles data saved to vehicles.json" +:+ line_feed;
           "Vehicles data saved to vehicles.csv" +:+ line_feed]
  /\ content "vehicles.json" (fs done)
     = "[" +:+ NL
       +:+ String.concat ("," +:+ NL) (map vehicle_text vehicles)
       +:+ NL +:+ "]"
  /\ content "vehicles.csv" (fs done)
     = String.concat "" (map record_text (header :: map row vehicles)).
Proof.
  intros Hget Hdecode Hne Hjson Hcsv. cbv zeta. split.
  { rewrite decode_eq in Hdecode.
    destruct (Unmarshal_map body) as [result|] eqn:Hresult; [|discriminate].
    destruct (result !! "records") as [[| | | |records|]|] eqn:Hrecords;
      try discriminate.
    destruct (forallb is_object records); [|discriminate].
    injection Hdecode as <-. now exists result, records. }
  pose proof (fetchVehicles_world get c w) as Hw2.
  assert (Hfetch : fst (fetchVehicles get (make c) (model c) (sortField c)
                           (year c) (cylinders c) (resultLimit c) w)
                    = Return vehicles).
  { unfold fetchVehicles. cbv zeta. fold (QueryBuilder c). rewrite Hget.
    cbn [fetch StatusOK Z.eqb Pos.eqb negb fst]. exact Hdecode. }
  unfold run.
  destruct (fetchVehicles get (make c) (model c) (sortField c) (year c)
              (cylinders c) (resultLimit c) w) as [result w2].
  cbn [fst snd] in *. subst result w2. cbn [snd].
  match goal with |- context [display vehicles ?w0] =>
    destruct (display_writable vehicles w0 Hne Hjson Hcsv) as (Hout & Hj & Hc)
  end.
  rewrite Hout, Hj, Hc. cbn [stdout]. rewrite <- app_assoc.
  split; [reflexivity|].
  split; [now apply MarshalIndent_concat | apply csv_text_concat].
Qed.

Lemma order_preserved_witness :
  let reply := fun _ : string => Response 200 (Complete two_records_body) in
  decode two_records_body = Return [toyota; honda]
  /\ stdout (snd (run reply honda_criteria free_world))
     = [ "ANNEE : 2015CYLINDER : 4";
         "URL fini " +:+ QueryBuilder honda_criteria +:+ line_feed;
         "Vehicles found:" +:+ line_feed;
         "Make: Toyota, Model: Corolla, Year: 2020, Cylinders: 4"
         +:+ line_feed;
         "Make: Honda, Model: Civic, Year: 2015, Cylinders: 4" +:+ line_feed;
         "Vehicles data saved to vehicles.json" +:+ line_feed;
         "Vehicles data saved to vehicles.csv" +:+ line_feed ]
  /\ content "vehicles.json"
       (fs (snd (run reply honda_criteria free_world)))
     = "[" +:+ NL +:+ vehicle_text toyota +:+ "," +:+ NL
       +:+ vehicle_text honda +:+ NL +:+ "]"
  /\ content "vehicles.csv"
       (fs (snd (run reply honda_criteria free_world)))
     = "Make,Model,Year,Cylinders" +:+ line_feed
       +:+ "Toyota,Corolla,2020,4" +:+ line_feed
       +:+ "Honda,Civic,2015,4" +:+ line_feed.
Proof.
  intros reply.
  assert (Hdecode : decode two_records_body = Return [toyota; honda])
    by reflexivity.
  assert (Hne : [toyota; honda] <> []) by discriminate.
  assert (Hwritable : forall name, writable name (fs free_world)).
  { intros name. split; [|reflexivity]. intros Hin. vm_compute in Hin.
    discriminate. }
  destruct (order_preserved reply honda_criteria free_world two_records_body
              [toyota; honda] eq_refl Hdecode Hne (Hwritable "vehicles.json")
              (Hwritable "vehicles.csv")) as (_ & Hout & Hj & Hc).
  split; [exact Hdecode|]. split; [exact Hout|]. split; [exact Hj | exact Hc].
Defined.

End PipelineFacts.

(** ** The CSV file read back by [encoding/csv] *)

Section ReadAllFacts.
Import GoString GoInt Decoder Csv Exporters Reader CsvReader.

Lemma readRecords_quoted (f acc : string) (record : list string)
    (rest : string) :
  readRecords InQuotes acc record (quoted_body f +:+ String quote rest)
  = readRecords AfterQuote (acc +:+ f) record rest.
Proof.
  revert acc. induction f as [|c f IH]; intros acc; simpl.
  - now rewrite ?Ascii.eqb_refl, append_empty_r.
  - destruct (Ascii.eqb_spec c quote) as [->|Hc]; simpl.
    + rewrite ?Ascii.eqb_refl, IH, append_assoc. reflexivity.
    + apply Ascii.eqb_neq in Hc. rewrite Hc, IH, append_assoc. reflexivity.
Qed.

Lemma readRecords_unquoted (f acc : string) (record : list string)
    (rest : string) :
  existsb is_special (list_ascii_of_string f) = false ->
  readRecords InField acc record (f +:+ rest)
  = readRecords InField (acc +:+ f) record rest.
Proof.
  revert acc. induction f as [|c f IH]; intros acc; simpl.
  - intros _. now rewrite append_empty_r.
  - rewrite orb_false_iff. intros [Hc Hf].
    destruct (is_special_false c Hc) as (-> & _ & -> & ->).
    rewrite IH by assumption. now rewrite append_assoc.
Qed.

Lemma readRecords_field_comma (f : string) (record : list string)
    (rest : string) :
  readRecords AtField "" record (field_text f +:+ String comma rest)
  = readRecords AtField "" (record ++ [f]) rest.
Proof.
  unfold field_text. destruct (fieldNeedsQuotes f) eqn:Hq.
  - simpl. rewrite append_assoc. simpl. rewrite readRecords_quoted. simpl.
    reflexivity.
  - apply fieldNeedsQuotes_false in Hq. destruct f as [|c f]; simpl.
    + reflexivity.
    + simpl in Hq. apply orb_false_iff in Hq as [Hc Hf].
      destruct (is_special_false c Hc) as (-> & _ & -> & ->).
      rewrite readRecords_unquoted by assumption. simpl. reflexivity.
Qed.

Lemma readRecords_field_LF (f : string) (record : list string)
    (rest : string) :
  record <> [] ->
  readRecords AtField "" record (field_text f +:+ String LF rest)
  = and_records (record ++ [f]) (readRecords AtField "" [] rest).
Proof.
  intros Hrecord. unfold field_text. destruct (fieldNeedsQuotes f) eqn:Hq.
  - simpl. rewrite append_assoc. simpl. rewrite readRecords_quoted. simpl.
    reflexivity.
  - apply fieldNeedsQuotes_false in Hq. destruct f as [|c f]; simpl.
    + destruct record; [contradiction | reflexivity].
    + simpl in Hq. apply orb_false_iff in Hq as [Hc Hf].
      destruct (is_special_false c Hc) as (-> & _ & -> & ->).
      rewrite readRecords_unquoted by assumption. simpl. reflexivity.
Qed.

Lemma readRecords_fields (fs : list string) (f : string)
    (record : list string) (n : nat) (rest : string) :
  record <> [] \/ fs <> [] ->
  readRecords AtField "" record
    (field_text f +:+ fields_text (S n) fs +:+ String LF rest)
  = and_records (record ++ f :: fs) (readRecords AtField "" [] rest).
Proof.
  revert f record n. induction fs as [|g fs IH]; intros f record n H; simpl.
  - apply readRecords_field_LF. destruct H; [assumption | contradiction].
  - rewrite !append_assoc. simpl. rewrite readRecords_field_comma, IH.
    + now rewrite <- app_assoc.
    + left. now destruct record.
Qed.

Lemma readRecords_record (r : list string) (rest : string) :
  (2 <= length r)%nat ->
  readRecords AtField "" [] (record_text r +:+ rest)
  = and_records r (readRecords AtField "" [] rest).
Proof.
  destruct r as [|f [|g fs]]; simpl; try lia. intros _.
  unfold record_text. cbn [fields_text Nat.ltb Nat.leb].
  cbn [String.append]. rewrite !append_assoc.
  change (String LF "" +:+ rest) with (String LF rest).
  apply (readRecords_fields (g :: fs) f [] 0). now right.
Qed.

(** The loop of [readRecord] reads the records of a text the writer laid
    out, whatever bytes their fields hold. *)
Lemma readRecords_records (rs : list (list string)) :
  Forall (fun r => (2 <= length r)%nat) rs ->
  readRecords AtField "" [] (records_text rs) = Some rs.
Proof.
  induction 1 as [|r rs Hr _ IH]; simpl; [reflexivity|].
  now rewrite readRecords_record, IH.
Qed.

(** *** The ends of lines *)

Lemma readLines_CR (s : string) :
  s <> "" ->
  readLines (String CR s)
  = if has_prefix (String LF "") s then readLines s
    else String CR (readLines s).
Proof.
  destruct s as [|c s]; [contradiction|]. intros _.
  cbn [readLines has_prefix]. rewrite Ascii.eqb_refl.
  rewrite (Ascii.eqb_sym LF c). now destruct (Ascii.eqb c LF).
Qed.

Lemma readLines_other (c : ascii) (s : string) :
  Ascii.eqb c CR = false -> readLines (String c s) = String c (readLines s).
Proof. intros H. cbn [readLines]. now rewrite H. Qed.

Lemma lf_only_other (c : ascii) (s : string) :
  Ascii.eqb c CR = false -> lf_only (String c s) = String c (lf_only s).
Proof. intros H. cbn [lf_only]. now rewrite H. Qed.

Lemma starts_LF_quoted (f rest : string) :
  has_prefix (String LF "") (quoted_body f +:+ String quote rest)
  = has_prefix (String LF "") f.
Proof.
  destruct f as [|c f]; [reflexivity|]. cbn [quoted_body].
  destruct (Ascii.eqb_spec c quote) as [->|Hc]; reflexivity.
Qed.

(** Inside the quotes, the carriage returns before a line feed are the
    ones that go. *)
Lemma readLines_quoted (f rest : string) :
  readLines (quoted_body f +:+ String quote rest)
  = quoted_body (lf_only f) +:+ String quote (readLines rest).
Proof.
  induction f as [|c f IH].
  - cbn [quoted_body lf_only String.append]. now apply readLines_other.
  - destruct (Ascii.eqb_spec c CR) as [->|Hc].
    + change (quoted_body (String CR f))
        with (String CR (quoted_body f)).
      cbn [String.append].
      rewrite readLines_CR
        by (destruct f as [|c' f']; [discriminate|]; cbn [quoted_body];
            destruct (Ascii.eqb c' quote); discriminate).
      rewrite starts_LF_quoted. cbn [lf_only]. rewrite Ascii.eqb_refl.
      cbn [andb]. destruct (has_prefix (String LF "") f); [exact IH|].
      change (quoted_body (String CR (lf_only f)))
        with (String CR (quoted_body (lf_only f))).
      cbn [String.append]. now rewrite IH.
    + apply Ascii.eqb_neq in Hc. rewrite (lf_only_other c f Hc).
      cbn [quoted_body]. destruct (Ascii.eqb c quote) eqn:Hq.
      * cbn [String.append]. rewrite !readLines_other by reflexivity.
        now rewrite IH.
      * cbn [String.append]. rewrite readLines_other by assumption.
        now rewrite IH.
Qed.

Lemma readLines_plain (f rest : string) :
  existsb is_special (list_ascii_of_string f) = false ->
  readLines (f +:+ rest) = f +:+ readLines rest.
Proof.
  induction f as [|c f IH]; [reflexivity|]. simpl list_ascii_of_string.
  cbn [existsb]. rewrite orb_false_iff. intros [Hc Hf].
  destruct (is_special_false c Hc) as (_ & HCR & _ & _).
  cbn [String.append]. rewrite readLines_other by assumption.
  now rewrite IH.
Qed.

Lemma lf_only_plain (f : string) :
  existsb is_special (list_ascii_of_string f) = false -> lf_only f = f.
Proof.
  induction f as [|c f IH]; [reflexivity|]. simpl list_ascii_of_string.
  cbn [existsb]. rewrite orb_false_iff. intros [Hc Hf].
  destruct (is_special_false c Hc) as (_ & HCR & _ & _).
  rewrite lf_only_other by assumption. now rewrite IH.
Qed.

Lemma starts_LF_special (f : string) :
  has_prefix (String LF "") f = true ->
  existsb is_special (list_ascii_of_string f) = true.
Proof.
  destruct f as [|c f]; [discriminate|]. cbn [has_prefix].
  destruct (Ascii.eqb_spec LF c) as [<-|]; [|discriminate]. reflexivity.
Qed.

Lemma special_lf_only (f : string) :
  existsb is_special (list_ascii_of_string (lf_only f))
  = existsb is_special (list_ascii_of_string f).
Proof.
  induction f as [|c f IH]; [reflexivity|]. cbn [lf_only].
  destruct (Ascii.eqb_spec c CR) as [->|Hc]; cbn [andb].
  - destruct (has_prefix (String LF "") f) eqn:HLF.
    + cbn [list_ascii_of_string existsb].
      rewrite IH, (starts_LF_special f HLF). now rewrite orb_true_r.
    + cbn [list_ascii_of_string existsb]. now rewrite IH.
  - cbn [list_ascii_of_string existsb]. now rewrite IH.
Qed.

Lemma fieldNeedsQuotes_special (f : string) :
  existsb is_special (list_ascii_of_string f) = true ->
  fieldNeedsQuotes f = true.
Proof.
  intros H. unfold fieldNeedsQuotes. rewrite H.
  destruct f; [discriminate|]. cbn [is_empty].
  now destruct (String.eqb _ _).
Qed.

Lemma fieldNeedsQuotes_lf_only (f : string) :
  fieldNeedsQuotes (lf_only f) = fieldNeedsQuotes f.
Proof.
  destruct (existsb is_special (list_ascii_of_string f)) eqn:H.
  - rewrite (fieldNeedsQuotes_special f H).
    apply fieldNeedsQuotes_special. now rewrite special_lf_only.
  - now rewrite lf_only_plain.
Qed.

Lemma readLines_field (f rest : string) :
  readLines (field_text f +:+ rest)
  = field_text (lf_only f) +:+ readLines rest.
Proof.
  unfold field_text. rewrite fieldNeedsQuotes_lf_only.
  destruct (fieldNeedsQuotes f) eqn:Hq.
  - rewrite !append_assoc. cbn [String.append].
    rewrite readLines_other by reflexivity. now rewrite readLines_quoted.
  - apply fieldNeedsQuotes_false in Hq.
    rewrite lf_only_plain by assumption. now apply readLines_plain.
Qed.

Lemma readLines_fields (fs : list string) (n : nat) (rest : string) :
  readLines (fields_text n fs +:+ rest)
  = fields_text n (map lf_only fs) +:+ readLines rest.
Proof.
  revert n. induction fs as [|f fs IH]; intros n; [reflexivity|].
  cbn [fields_text map]. rewrite !append_assoc.
  destruct (Nat.ltb 0 n); cbn [String.append];
    rewrite ?(readLines_other comma) by reflexivity;
    now rewrite readLines_field, IH.
Qed.

Lemma readLines_records (rs : list (list string)) :
  readLines (records_text rs) = records_text (map (map lf_only) rs).
Proof.
  induction rs as [|r rs IH]; [reflexivity|].
  cbn [records_text fold_right map]. fold (records_text rs).
  fold (records_text (map (map lf_only) rs)).
  unfold record_text. rewrite !append_assoc, readLines_fields.
  cbn [String.append]. rewrite readLines_other by reflexivity.
  now rewrite IH.
Qed.

(** *** The rows *)

Lemma plain_uint (d : Decimal.uint) :
  existsb is_special (list_ascii_of_string (NilEmpty.string_of_uint d))
  = false.
Proof. induction d; simpl; assumption || reflexivity. Qed.

Lemma plain_Itoa (n : Z) :
  existsb is_special (list_ascii_of_string (Itoa n)) = false.
Proof.
  unfold Itoa, NilZero.string_of_int, NilZero.string_of_uint.
  destruct (Z.to_int n) as [d|d]; destruct d; try reflexivity;
    try match goal with
      | |- existsb _ (list_ascii_of_string (String "-" ?s)) = false =>
          change (existsb is_special (list_ascii_of_string s) = false)
      end;
    apply (plain_uint (_ _)).
Qed.

Lemma lf_only_row (v : Vehicle) :
  map lf_only (row v) = row (lf_only_vehicle v).
Proof.
  unfold row. cbn [map lf_only_vehicle Make Model Year Cylinders].
  now rewrite (lf_only_plain (Itoa _)) by apply plain_Itoa.
Qed.

(** What [ReadAll] makes of the file the exporter wrote: the vehicles
    with, in their text fields, every carriage return that a line feed
    follows taken out. *)
Lemma vehicles_of_file_text (vehicles : list Vehicle) :
  Forall (fun v => in_range (Cylinders v)) vehicles ->
  vehicles_of_file (csv_text vehicles) = Some (map lf_only_vehicle vehicles).
Proof.
  intros Hv. unfold vehicles_of_file, ReadAll, csv_text.
  rewrite readLines_records. cbn [map].
  replace (map (map lf_only) (map row vehicles))
    with (map row (map lf_only_vehicle vehicles))
    by (rewrite !List.map_map; apply List.map_ext; intros v; symmetry;
        apply lf_only_row).
  rewrite readRecords_records.
  2:{ constructor; [simpl; lia|]. apply Forall_map, Forall_forall.
      intros v _. simpl. lia. }
  replace (forallb _ _) with true.
  - apply vehicles_of_rows_row. apply Forall_map.
    eapply Forall_impl; [exact Hv|]. intros v H. exact H.
  - symmetry. apply forallb_forall. intros r Hr.
    apply in_map_iff in Hr as (v & <- & _). reflexivity.
Qed.

(** *** The fields that come back as they were *)

Lemma length_lf_only (f : string) :
  (String.length (lf_only f) <= String.length f)%nat.
Proof.
  induction f as [|c f IH]; [reflexivity|]. cbn [lf_only].
  destruct (Ascii.eqb c CR && has_prefix (String LF "") f); simpl; lia.
Qed.

Lemma contains_CRLF_cons (c : ascii) (f : string) :
  contains CRLF (String c f)
  = (Ascii.eqb c CR && has_prefix (String LF "") f) || contains CRLF f.
Proof.
  change (contains CRLF (String c f))
    with (if has_prefix CRLF (String c f) then true else contains CRLF f).
  change (has_prefix CRLF (String c f))
    with (if Ascii.eqb CR c then has_prefix (String LF "") f else false).
  rewrite (Ascii.eqb_sym CR c).
  now destruct (Ascii.eqb c CR), (has_prefix (String LF "") f).
Qed.

Lemma lf_only_fixed (f : string) :
  lf_only f = f <-> contains CRLF f = false.
Proof.
  induction f as [|c f IH]; [now split|].
  rewrite contains_CRLF_cons. cbn [lf_only].
  destruct (Ascii.eqb c CR && has_prefix (String LF "") f) eqn:H.
  - split; [|discriminate].
    intros Heq. pose proof (length_lf_only f) as Hlen.
    rewrite Heq in Hlen. simpl in Hlen. lia.
  - cbn [orb]. rewrite <- IH. split; [now intros [= ->] | now intros ->].
Qed.

Lemma lf_only_vehicle_fixed (v : Vehicle) :
  lf_only_vehicle v = v <-> crlf_free v = true.
Proof.
  unfold crlf_free. rewrite !andb_true_iff, !negb_true_iff.
  rewrite <- !lf_only_fixed. destruct v as [mk md yr cy].
  unfold lf_only_vehicle. cbn [Make Model Year Cylinders]. split.
  - intros [= -> -> ->]. auto.
  - intros [[-> ->] ->]. reflexivity.
Qed.

Lemma lf_only_vehicles_fixed (vehicles : list Vehicle) :
  map lf_only_vehicle vehicles = vehicles
  <-> forallb crlf_free vehicles = true.
Proof.
  induction vehicles as [|v vs IH]; [now split|]. cbn [map forallb].
  rewrite andb_true_iff, <- IH, <- lf_only_vehicle_fixed. split.
  - now intros [= -> ->].
  - now intros [-> ->].
Qed.

End ReadAllFacts.

(** ** What the decoder stores *)

Section StoredFacts.
Import GoString GoInt Float64 Json Decoder Csv JsonText Reader Response.

Lemma rune_tail_to_valid (c : ascii) (rest : string) (k : nat) :
  rune_tail (String c rest) = Some k ->
  rune_tail (String c (to_valid k rest)) = Some k.
Proof.
  unfold rune_tail. destruct rest as [|c1 rest1]; [discriminate|].
  destruct ((194 <=? code c) && (code c <=? 223))%N eqn:H2.
  { destruct (continuation c1) eqn:Hc1; intros [= <-].
    cbn [to_valid]. now rewrite ?H2, ?Hc1. }
  destruct ((224 <=? code c) && (code c <=? 239))%N eqn:H3.
  { destruct rest1 as [|c2 rest2]; [discriminate|].
    destruct (second_byte_ok (code c) (code c1) && continuation c2) eqn:Hok;
      intros [= <-]. cbn [to_valid]. now rewrite ?H2, ?H3, ?Hok. }
  destruct ((240 <=? code c) && (code c <=? 244))%N eqn:H4; [|discriminate].
  destruct rest1 as [|c2 [|c3 rest3]]; try discriminate.
  destruct (second_byte_ok (code c) (code c1) && continuation c2
            && continuation c3) eqn:Hok; intros [= <-].
  cbn [to_valid]. now rewrite ?H2, ?H3, ?H4, ?Hok.
Qed.

Lemma utf8_valid_replacement (rest : string) :
  utf8_valid 0 (replacement +:+ rest) = utf8_valid 0 rest.
Proof. reflexivity. Qed.

(** The strings the decoder stores are valid UTF-8, whatever the bytes
    between the quotes of the text. *)
Lemma utf8_valid_to_valid (n : nat) :
  forall (s : string) (pass : nat),
    (String.length s <= n)%nat -> (pass <= String.length s)%nat ->
    utf8_valid pass (to_valid pass s) = true.
Proof.
  induction n as [|n IH]; intros s pass Hlen Hpass.
  - destruct s; [|simpl in Hlen; lia]. simpl in Hpass.
    now replace pass with 0%nat by lia.
  - destruct s as [|c s].
    { simpl in Hpass. now replace pass with 0%nat by lia. }
    simpl in Hlen, Hpass. destruct pass as [|k].
    + cbn [to_valid]. destruct (code c <? 128)%N eqn:Hascii.
      * cbn [utf8_valid]. rewrite Hascii. apply IH; lia.
      * destruct (rune_tail (String c s)) as [k|] eqn:Htail.
        -- pose proof (rune_tail_length c s k Htail) as Hk.
           cbn [utf8_valid]. rewrite Hascii.
           rewrite (rune_tail_to_valid c s k Htail). apply IH; lia.
        -- rewrite utf8_valid_replacement. apply IH; lia.
    + cbn [to_valid utf8_valid]. apply IH; lia.
Qed.

Lemma stored_string (t : syntax) (s : string) :
  stored t = JString s -> utf8_valid 0 s = true.
Proof.
  destruct t as [| |[x|]|s'| |]; try discriminate. intros [= <-].
  apply (utf8_valid_to_valid (String.length s')); lia.
Qed.

(** The members of a stored object are stored values. *)
Lemma stored_member (members : list (string * syntax))
    (key : string) (v : json) :
  (list_to_map
     (rev (map (fun m => (to_valid 0 (fst m), stored (snd m))) members))
   : gmap string json) !! key = Some v ->
  exists t, In t (map snd members) /\ v = stored t.
Proof.
  intros H. apply elem_of_list_to_map_2 in H.
  apply list_elem_of_In, in_rev, in_map_iff in H as ([k t] & [= _ <-] & Hin).
  exists t. split; [|reflexivity]. apply in_map_iff. now exists (k, t).
Qed.

Lemma well_formed_of_fields (members : list (string * syntax)) :
  well_formed
    (vehicle_of_fields
       (list_to_map
          (rev (map (fun m => (to_valid 0 (fst m), stored (snd m)))
                  members)))).
Proof.
  unfold vehicle_of_fields. set (data := list_to_map _).
  assert (Htext : forall key,
            utf8_valid 0 (fst (assert_string (data !! key))) = true).
  { intros key. destruct (data !! key) as [v|] eqn:Hv; [|reflexivity].
    destruct (stored_member members key v Hv) as (t & _ & ->).
    destruct (stored t) eqn:Ht; try reflexivity.
    now apply (stored_string t). }
  pose proof (Htext "make") as Hmake. pose proof (Htext "model") as Hmodel.
  pose proof (Htext "year") as Hyear.
  destruct (assert_string (data !! "make")) as [make ?].
  destruct (assert_string (data !! "model")) as [model ?].
  destruct (assert_string (data !! "year")) as [year ?].
  destruct (assert_float64 (data !! "cylinders")) as [cylinders ?].
  repeat split; try assumption; apply to_int_in_range.
Qed.

Lemma well_formed_usable (e : syntax) (data : gmap string json) :
  usable_fields (stored e) = Some data ->
  well_formed (vehicle_of_fields data).
Proof.
  destruct e as [| |[x|]| | |wrapper]; try discriminate.
  cbn [stored usable_fields].
  destruct (_ !! "fields") as [v|] eqn:Hv; [|discriminate].
  destruct (stored_member wrapper "fields" v Hv) as (t & _ & ->).
  destruct t as [| |[x|]| | |members]; try discriminate.
  cbn [stored]. intros [= <-]. apply well_formed_of_fields.
Qed.

(** Every vehicle the decoder returns for a JSON text has text fields
    that are valid UTF-8 and a cylinder count that is an [int]. *)
Lemma decode_well_formed (t : syntax) (vehicles : list Vehicle) :
  decode (read t) = Return vehicles -> Forall well_formed vehicles.
Proof.
  unfold read. destruct (Nat.ltb maxNestingDepth (depth t)); [discriminate|].
  destruct (storable t); [|discriminate].
  rewrite decode_eq.
  destruct t as [| |[x|]| | |envelope]; try discriminate.
  cbn [stored Unmarshal_map].
  destruct (_ !! "records") as [v|] eqn:Hv; [|discriminate].
  destruct (stored_member envelope "records" v Hv) as (t & _ & ->).
  destruct t as [| |[x|]| |elements|]; try discriminate.
  cbn [stored]. destruct (forallb is_object _); [|discriminate].
  intros [= <-]. clear Hv.
  induction elements as [|e elements IH]; [constructor|].
  cbn [map omap list_omap].
  destruct (usable_fields (stored e)) as [data|] eqn:He.
  - cbn [map]. constructor; [now apply (well_formed_usable e) | exact IH].
  - exact IH.
Qed.

End StoredFacts.

(** ** The exported files read back *)

Section RoundTrip.
Import GoString GoInt Float64 Json Decoder OS Csv JsonText Exporters Reader
  Main Response CsvReader RoundTripSamples.

(** C9, as amended: for the vehicles decoded from any JSON text, on
    writable destinations, the JSON file is read back as the same
    vehicles in the same order; the CSV file is read back by the reader
    of the package that wrote it, the cylinders column parsed as an
    integer, as these vehicles in the same order with every carriage
    return that a line feed follows taken out of their text fields; so
    it is read back as the same vehicles exactly when no text field holds
    a carriage return followed by a line feed. *)
Theorem export_round_trip (t : syntax) (vehicles : list Vehicle)
    (w : World) :
  decode (read t) = Return vehicles ->
  writable "vehicles.json" (fs w) -> writable "vehicles.csv" (fs w) ->
  let json := snd (saveVehiclesToJSON vehicles "vehicles.json" w) in
  let csv := snd (saveVehiclesToCSV vehicles "vehicles.csv" w) in
  vehicles_of_json (content "vehicles.json" (fs json)) = Some vehicles
  /\ vehicles_of_file (content "vehicles.csv" (fs csv))
     = Some (map lf_only_vehicle vehicles)
  /\ (vehicles_of_file (content "vehicles.csv" (fs csv)) = Some vehicles
      <-> forallb crlf_free vehicles = true).
Proof.
  intros Hdecode Hjson Hcsv. cbv zeta.
  pose proof (decode_well_formed t vehicles Hdecode) as Hwf.
  assert (Hrange : Forall (fun v => in_range (Cylinders v)) vehicles).
  { eapply Forall_impl; [exact Hwf|]. intros v H. apply H. }
  destruct (saveVehiclesToJSON_writable vehicles "vehicles.json" w Hjson)
    as (w1 & -> & Hc1 & _).
  destruct (saveVehiclesToCSV_writable vehicles "vehicles.csv" w Hcsv)
    as (w2 & -> & Hc2 & _).
  cbn [snd]. rewrite Hc1, Hc2, (vehicles_of_file_text vehicles Hrange).
  split; [now apply vehicles_of_json_text|]. split; [reflexivity|].
  rewrite <- lf_only_vehicles_fixed. split; [now intros [= ->] | now intros ->].
Qed.

Lemma export_round_trip_witness :
  decode (read one_record_text) = Return [toyota]
  /\ vehicles_of_json
       (content "vehicles.json"
          (fs (snd (saveVehiclesToJSON [toyota] "vehicles.json" free_world))))
     = Some [toyota]
  /\ vehicles_of_file
       (content "vehicles.csv"
          (fs (snd (saveVehiclesToCSV [toyota] "vehicles.csv" free_world))))
     = Some [toyota].
Proof.
  assert (Hdecode : decode (read one_record_text) = Return [toyota])
    by reflexivity.
  assert (Hwritable : forall name, writable name (fs free_world)).
  { intros name. split; [|reflexivity]. intros Hin. vm_compute in Hin.
    discriminate. }
  destruct (export_round_trip one_record_text [toyota] free_world Hdecode
              (Hwritable "vehicles.json") (Hwritable "vehicles.csv"))
    as (Hjson & _ & Hcsv).
  split; [exact Hdecode|]. split; [exact Hjson|]. now apply Hcsv.
Defined.

(** C9 fails as stated: the API answers with a make that holds a carriage
    return and a line feed; the decoder keeps both bytes, the CSV
    exporter writes both between quotes, and the reader of the same
    package gives the make back without the carriage return. *)
Lemma csv_reader_drops_carriage_return :
  let file :=
    content "vehicles.csv"
      (fs (snd (saveVehiclesToCSV [two_line_make] "vehicles.csv"
                  free_world))) in
  decode (read two_line_make_text) = Return [two_line_make]
  /\ file
     = "Make,Model,Year,Cylinders" +:+ NL
       +:+ String quote ("a" +:+ CRLF +:+ "b") +:+ String quote ""
       +:+ ",Corolla,2020,4" +:+ NL
  /\ vehicles_of_file file
     = Some [with_Make ("a" +:+ NL +:+ "b") two_line_make]
  /\ vehicles_of_file file <> Some [two_line_make].
Proof.
  cbv zeta. split; [reflexivity|]. split; [reflexivity|].
  split; [reflexivity|]. intros H. vm_compute in H. discriminate.
Qed.

End RoundTrip.
